(** * Flugschule Mallorca: contact form validation, submit lifecycle and
      form endpoints

    A shallow embedding of the form code of the site's main script
    ([validateField], [validateForm], [handleFormSuccess],
    [handleFormError], the submit listener of [initContactForm]) and of the
    two serverless form handlers ([netlify/functions/contact-form.js],
    [api/contact.js]), with the properties the specification states about
    them.  Part III adds the listeners of the controls, the charter form
    ([initCharterInquiry], [showNotification]), the statistics counters
    ([initStatisticsCounters]) and the mobile menu ([initMobileMenu]),
    with further properties read off the code. *)

From Stdlib Require Import List String Ascii NArith ZArith Bool Arith Lia.
From Stdlib Require Import DecimalString.
Import ListNotations.

Set Implicit Arguments.
Open Scope string_scope.
Open Scope list_scope.

(** * Part I: the model *)

(** ** JavaScript strings

    A JavaScript string is a sequence of UTF-16 code units; the regular
    expressions of the script carry no [u] flag, so they work on code
    units too. *)

Module JsString.

Definition char := N.
Definition jsstring := list char.

(** Code units of an ASCII literal. *)
Fixpoint ustr (s : string) : jsstring :=
  match s with
  | EmptyString => []
  | String a r => N_of_ascii a :: ustr r
  end.

(** ECMAScript WhiteSpace and LineTerminator code points: the set that
    [String.prototype.trim] strips and that [\s] matches. *)
Definition isWhiteSpace (c : char) : bool :=
  ((c =? 0x09) || (c =? 0x0A) || (c =? 0x0B) || (c =? 0x0C) || (c =? 0x0D)
   || (c =? 0x20) || (c =? 0xA0) || (c =? 0x1680)
   || ((0x2000 <=? c) && (c <=? 0x200A))
   || (c =? 0x2028) || (c =? 0x2029) || (c =? 0x202F) || (c =? 0x205F)
   || (c =? 0x3000) || (c =? 0xFEFF))%N.

Fixpoint trimStart (s : jsstring) : jsstring :=
  match s with
  | [] => []
  | c :: r => if isWhiteSpace c then trimStart r else s
  end.

Definition trimEnd (s : jsstring) : jsstring := rev (trimStart (rev s)).

Definition trim (s : jsstring) : jsstring := trimEnd (trimStart s).

(** Truthiness of a string: non-empty. *)
Definition truthy (s : jsstring) : bool :=
  match s with [] => false | _ :: _ => true end.

(** [String.prototype.toLowerCase] on an ASCII name. *)
Definition lowerAscii (a : ascii) : ascii :=
  let n := nat_of_ascii a in
  if ((65 <=? n) && (n <=? 90))%nat then ascii_of_nat (n + 32) else a.

Fixpoint toLowerCase (s : string) : string :=
  match s with
  | EmptyString => EmptyString
  | String a r => String (lowerAscii a) (toLowerCase r)
  end.

End JsString.
Export JsString.

(** ** Regular expressions

    The three patterns of the script use character classes, sequencing,
    [?], [+] and [{n,}] between [^] and [$]; none has a capture, a
    backreference or a lookaround, so [RegExp.prototype.test] decides
    membership of the whole string in the regular language.  The matcher
    is Brzozowski's: derive by each code unit, then ask for the empty
    word. *)

Module Regex.

Inductive regex : Type :=
| Void : regex
| Eps : regex
| Class : (char -> bool) -> regex
| Cat : regex -> regex -> regex
| Alt : regex -> regex -> regex
| Star : regex -> regex.

(** [r?], [r+] and [r{n,}]. *)
Definition Opt (r : regex) : regex := Alt r Eps.
Definition Plus (r : regex) : regex := Cat r (Star r).
Fixpoint AtLeast (n : nat) (r : regex) : regex :=
  match n with
  | O => Star r
  | S k => Cat r (AtLeast k r)
  end.

Fixpoint nullable (r : regex) : bool :=
  match r with
  | Void => false
  | Eps => true
  | Class _ => false
  | Cat r1 r2 => nullable r1 && nullable r2
  | Alt r1 r2 => nullable r1 || nullable r2
  | Star _ => true
  end.

Fixpoint deriv (c : char) (r : regex) : regex :=
  match r with
  | Void => Void
  | Eps => Void
  | Class p => if p c then Eps else Void
  | Cat r1 r2 =>
      if nullable r1
      then Alt (Cat (deriv c r1) r2) (deriv c r2)
      else Cat (deriv c r1) r2
  | Alt r1 r2 => Alt (deriv c r1) (deriv c r2)
  | Star r1 => Cat (deriv c r1) (Star r1)
  end.

(** [test r s]: does the anchored pattern [^r$] match [s]? *)
Fixpoint test (r : regex) (s : jsstring) : bool :=
  match s with
  | [] => nullable r
  | c :: s' => test (deriv c r) s'
  end.

(** The language of a pattern, as a relation. *)
Inductive lang : regex -> jsstring -> Prop :=
| L_eps : lang Eps []
| L_class : forall (p : char -> bool) c, p c = true -> lang (Class p) [c]
| L_cat : forall r1 r2 s1 s2,
    lang r1 s1 -> lang r2 s2 -> lang (Cat r1 r2) (s1 ++ s2)
| L_alt_l : forall r1 r2 s, lang r1 s -> lang (Alt r1 r2) s
| L_alt_r : forall r1 r2 s, lang r2 s -> lang (Alt r1 r2) s
| L_star_nil : forall r, lang (Star r) []
| L_star_app : forall r s1 s2,
    lang r s1 -> lang (Star r) s2 -> lang (Star r) (s1 ++ s2).

Create HintDb regex.
#[global] Hint Constructors lang : regex.

End Regex.
Export Regex.

(** ** The field validator *)

Module Validator.

(** The three kinds of form control the script queries
    ([input, textarea, select]).  [fieldType] and [tagName] are the DOM
    properties the script reads: a [textarea] always reports the type
    [textarea], a [select] reports [select-one]. *)
Inductive control : Type :=
| Input (type : string)
| Textarea
| Select.

Record field : Type := mkField {
  ctrl : control;
  name : string;
  value : jsstring;
  required : bool;          (* hasAttribute('required') *)
  checked : bool;
  defaultValue : jsstring;  (* what form.reset() restores *)
  defaultChecked : bool
}.

Definition fieldType (f : field) : string :=
  match ctrl f with
  | Input ty => ty
  | Textarea => "textarea"
  | Select => "select-one"
  end.

Definition tagName (f : field) : string :=
  match ctrl f with
  | Input _ => "INPUT"
  | Textarea => "TEXTAREA"
  | Select => "SELECT"
  end.

(** The user-facing texts. *)
Definition msgPrivacy : string := "Sie müssen der Datenschutzerklärung zustimmen.".
Definition msgNameRequired : string := "Bitte geben Sie Ihren Namen ein.".
Definition msgEmailRequired : string := "Bitte geben Sie Ihre E-Mail-Adresse ein.".
Definition msgMessageRequired : string := "Bitte geben Sie eine Nachricht ein.".
Definition msgRequired : string := "Dieses Feld ist erforderlich.".
Definition msgEmailInvalid : string := "Bitte geben Sie eine gültige E-Mail-Adresse ein.".
Definition msgPhoneInvalid : string := "Bitte geben Sie eine gültige Telefonnummer ein.".
Definition msgNameInvalid : string :=
  "Bitte geben Sie einen gültigen Namen ein (mindestens 2 Zeichen).".
Definition msgTooShort : string := "Ihre Nachricht sollte mindestens 10 Zeichen lang sein.".
Definition msgTooLong : string := "Ihre Nachricht ist zu lang (maximal 1000 Zeichen).".

Definition isChar (k : N) (c : char) : bool := (c =? k)%N.
Definition inRange (lo hi : N) (c : char) : bool := ((lo <=? c) && (c <=? hi))%N.

(** [[^\s@]] *)
Definition notSpaceAt (c : char) : bool := negb (isWhiteSpace c || isChar 64 c).

(** [/^[^\s@]+@[^\s@]+\.[^\s@]+$/] *)
Definition emailRegex : regex :=
  Cat (Plus (Class notSpaceAt))
    (Cat (Class (isChar 64))
       (Cat (Plus (Class notSpaceAt))
          (Cat (Class (isChar 46)) (Plus (Class notSpaceAt))))).

(** [[0-9\s\-\(\)\.]] *)
Definition phoneClass (c : char) : bool :=
  inRange 48 57 c || isWhiteSpace c || isChar 45 c || isChar 40 c
  || isChar 41 c || isChar 46 c.

(** [/^[\+]?[0-9\s\-\(\)\.]{8,}$/] *)
Definition phoneRegex : regex :=
  Cat (Opt (Class (isChar 43))) (AtLeast 8 (Class phoneClass)).

(** The letters of the name pattern: [a-zA-Z] and the German
    a-, o-, u-umlauts in both cases and the sharp s (U+00E4, U+00F6, U+00FC,
    U+00C4, U+00D6, U+00DC, U+00DF). *)
Definition isLetter (c : char) : bool :=
  inRange 97 122 c || inRange 65 90 c
  || isChar 0xE4 c || isChar 0xF6 c || isChar 0xFC c
  || isChar 0xC4 c || isChar 0xD6 c || isChar 0xDC c || isChar 0xDF c.

(** The class of the name pattern: a letter, [\s], [-] or [.]. *)
Definition nameClass (c : char) : bool :=
  isLetter c || isWhiteSpace c || isChar 45 c || isChar 46 c.

(** [/^[a-zA-Z...\s\-\.]{2,}$/] *)
Definition nameRegex : regex := AtLeast 2 (Class nameClass).

Record result : Type := mkResult { isValid : bool; errorMessage : string }.

(** [const value = field.value ? field.value.trim() : '';] *)
Definition trimmedValue (f : field) : jsstring :=
  if truthy (value f) then trim (value f) else [].

(** The message of the [switch (fieldName)] of the required check. *)
Definition requiredMessage (fieldName : string) : string :=
  if (fieldName =? "name")%string then msgNameRequired
  else if (fieldName =? "email")%string then msgEmailRequired
  else if (fieldName =? "message")%string then msgMessageRequired
  else msgRequired.

(** First phase: the required checkbox and the required empty field. *)
Definition requiredCheck (f : field) : result :=
  if (fieldType f =? "checkbox")%string && required f then
    if negb (checked f) then mkResult false msgPrivacy else mkResult true ""
  else if required f && negb (truthy (trimmedValue f)) then
    mkResult false (requiredMessage (name f))
  else mkResult true "".

(** Second phase, [switch (fieldType)], entered with a non-empty value and a
    result that is still valid. *)
Definition typeCheck (f : field) (r : result) : result :=
  let v := trimmedValue f in
  if (fieldType f =? "email")%string then
    if negb (test emailRegex v) then mkResult false msgEmailInvalid else r
  else if (fieldType f =? "tel")%string then
    if negb (test phoneRegex v) then mkResult false msgPhoneInvalid else r
  else if (fieldType f =? "text")%string then
    if (name f =? "name")%string then
      if negb (test nameRegex v) then mkResult false msgNameInvalid else r
    else r
  else r.

(** Third phase: the length of a [message] textarea. *)
Definition lengthCheck (f : field) (r : result) : result :=
  let v := trimmedValue f in
  if (toLowerCase (tagName f) =? "textarea")%string && (name f =? "message")%string then
    if (List.length v <? 10)%nat then mkResult false msgTooShort
    else if (1000 <? List.length v)%nat then mkResult false msgTooLong
    else r
  else r.

(** The pair [(isValid, errorMessage)] that [validateField] has computed
    when it reaches its [// Show error if invalid] step. *)
Definition fieldResult (f : field) : result :=
  let r := requiredCheck f in
  if truthy (trimmedValue f) && isValid r then lengthCheck f (typeCheck f r)
  else r.

End Validator.
Export Validator.

(** ** The document tree under the form *)

Module Dom.

(** What an element carries besides its class list and children: a form
    control, a button, or anything else with its markup. *)
Inductive payload : Type :=
| PField (f : field)
| PButton (type : string) (disabled : bool) (innerHTML : string)
| PElem (innerHTML : string).

(** An element.  [id] stands for the identity of the JavaScript object
    (the script keeps references to elements across calls and timers). *)
#[warnings="-register-all"]
Inductive node : Type :=
| Node (id : nat) (classList : list string) (data : payload) (kids : list node).

Definition nodeId (n : node) : nat := let 'Node i _ _ _ := n in i.
Definition classes (n : node) : list string := let 'Node _ c _ _ := n in c.
Definition payloadOf (n : node) : payload := let 'Node _ _ d _ := n in d.
Definition children (n : node) : list node := let 'Node _ _ _ ks := n in ks.

Definition hasClass (cls : string) (n : node) : bool :=
  existsb (String.eqb cls) (classes n).

Definition hasId (i : nat) (n : node) : bool := (nodeId n =? i)%nat.

(** [classList.remove(...)] and [classList.add(...)] on a token list. *)
Definition removeTokens (ts : list string) (c : list string) : list string :=
  filter (fun x => negb (existsb (String.eqb x) ts)) c.

Fixpoint addTokens (ts : list string) (c : list string) : list string :=
  match ts with
  | [] => c
  | t :: r => addTokens r (if existsb (String.eqb t) c then c else c ++ [t])
  end.

Definition setClasses (g : list string -> list string) (n : node) : node :=
  let 'Node i c d ks := n in Node i (g c) d ks.

Definition setPayload (g : payload -> payload) (n : node) : node :=
  let 'Node i c d ks := n in Node i c (g d) ks.

Section ListSearch.
Context {A B : Type}.
Variable f : A -> option B.

(** The first element on which [f] answers. *)
Fixpoint firstSome (l : list A) : option B :=
  match l with
  | [] => None
  | x :: r => match f x with Some b => Some b | None => firstSome r end
  end.
End ListSearch.

Section ListReplace.
Context {A : Type}.
Variable f : A -> option A.

(** Replace the first element on which [f] answers by the answer. *)
Fixpoint replaceFirst (l : list A) : option (list A) :=
  match l with
  | [] => None
  | x :: r =>
      match f x with
      | Some y => Some (y :: r)
      | None => option_map (cons x) (replaceFirst r)
      end
  end.
End ListReplace.

(** The element and its descendants, in document order. *)
Fixpoint nodes (n : node) : list node :=
  match n with
  | Node _ _ _ ks => n :: flat_map nodes ks
  end.

(** The proper descendants: what [querySelector] and [querySelectorAll]
    of an element range over. *)
Definition descendants (n : node) : list node := flat_map nodes (children n).

Definition querySelector (sel : node -> bool) (n : node) : option node :=
  find sel (descendants n).

Definition querySelectorAll (sel : node -> bool) (n : node) : list node :=
  filter sel (descendants n).

Definition countIn (sel : node -> bool) (ks : list node) : nat :=
  List.length (filter sel (flat_map nodes ks)).

(** Detach the first node of a forest, in document order, that [sel]
    selects ([querySelector(..)] followed by [.remove()]). *)
Section RemoveFirst.
Variable sel : node -> bool.
Variable under : node -> option node.

Fixpoint removeFirstIn (ks : list node) : option (list node) :=
  match ks with
  | [] => None
  | k :: r =>
      if sel k then Some r
      else match under k with
           | Some k' => Some (k' :: r)
           | None => option_map (cons k) (removeFirstIn r)
           end
  end.
End RemoveFirst.

Fixpoint removeFirstUnder (sel : node -> bool) (n : node) {struct n} : option node :=
  match n with
  | Node i c d ks => option_map (Node i c d) (removeFirstIn sel (removeFirstUnder sel) ks)
  end.

Definition removeFirst (sel : node -> bool) (ks : list node) : option (list node) :=
  removeFirstIn sel (removeFirstUnder sel) ks.

(** Detach every node that [sel] selects ([querySelectorAll(..)] followed
    by [.remove()] on each). *)
Section RemoveAll.
Variable sel : node -> bool.
Variable under : node -> node.

Fixpoint removeAllIn (ks : list node) : list node :=
  match ks with
  | [] => []
  | k :: r => if sel k then removeAllIn r else under k :: removeAllIn r
  end.
End RemoveAll.

Fixpoint removeAllUnder (sel : node -> bool) (n : node) {struct n} : node :=
  match n with
  | Node i c d ks => Node i c d (removeAllIn sel (removeAllUnder sel) ks)
  end.

Definition removeAll (sel : node -> bool) (ks : list node) : list node :=
  removeAllIn sel (removeAllUnder sel) ks.

(** Update class list and payload of every node of a subtree. *)
Fixpoint mapNodes (g : node -> node) (n : node) : node :=
  match n with
  | Node i c d ks =>
      let n' := g n in Node i (classes n') (payloadOf n') (map (mapNodes g) ks)
  end.

(** The same on the proper descendants only. *)
Definition mapDescendants (g : node -> node) (n : node) : node :=
  let 'Node i c d ks := n in Node i c d (map (mapNodes g) ks).

Definition hasKid (i : nat) (ks : list node) : bool := existsb (hasId i) ks.

(** [field.parentNode]: the children of the first element that has the
    node [i] among its children. *)
Fixpoint parentKids (i : nat) (n : node) : option (list node) :=
  match n with
  | Node _ _ _ ks => if hasKid i ks then Some ks else firstSome (parentKids i) ks
  end.

(** Give that element new children. *)
Fixpoint replaceParentKids (i : nat) (new : list node) (n : node) : option node :=
  match n with
  | Node j c d ks =>
      if hasKid i ks then Some (Node j c d new)
      else option_map (Node j c d) (replaceFirst (replaceParentKids i new) ks)
  end.

Definition setParentKids (i : nat) (new : list node) (n : node) : node :=
  match replaceParentKids i new n with
  | Some n' => n'
  | None => n
  end.

(** Update the children with identity [i] in a child list. *)
Definition updKid (i : nat) (g : node -> node) (ks : list node) : list node :=
  map (fun k => if hasId i k then g k else k) ks.

(** The form control with identity [i] in a child list. *)
Definition fieldOf (i : nat) (ks : list node) : option field :=
  match find (hasId i) ks with
  | Some (Node _ _ (PField f) _) => Some f
  | _ => None
  end.

End Dom.
Export Dom.

(** ** The contact form script *)

Module ContactForm.

(** The two kinds of closure the script hands to [setTimeout]: the simulated
    submission, which ends in [handleFormSuccess(contactForm, submitButton,
    originalButtonText)], and the removal of a form message. *)
Inductive callback : Type :=
| SubmitDone (submitButton : nat) (originalButtonText : string)
| RemoveMessage (message : nat).

(** The page as the script sees it: the form element with its subtree, the
    supply of fresh element identities for [document.createElement], the
    clock in milliseconds, and the pending timers with their due times. *)
Record page : Type := mkPage {
  form : node;
  nextId : nat;
  now : Z;
  timers : list (Z * callback)
}.

Definition setForm (n : node) (s : page) : page :=
  mkPage n (nextId s) (now s) (timers s).
Definition newId (s : page) : page :=
  mkPage (form s) (S (nextId s)) (now s) (timers s).
Definition setNow (t : Z) (s : page) : page :=
  mkPage (form s) (nextId s) t (timers s).
Definition setTimers (ts : list (Z * callback)) (s : page) : page :=
  mkPage (form s) (nextId s) (now s) ts.

(** [setTimeout(cb, delay)] *)
Definition setTimeout (cb : callback) (delay : Z) (s : page) : page :=
  setTimers (timers s ++ [((now s + delay)%Z, cb)]) s.

(** A computation of the script: it may throw ([None], a [TypeError] on a
    null reference) and leaves the page as it was at that moment. *)
Definition M (A : Type) : Type := page -> option A * page.

Definition ret {A : Type} (a : A) : M A := fun s => (Some a, s).

Definition bind {A B : Type} (m : M A) (k : A -> M B) : M B :=
  fun s => match m s with
           | (Some a, s') => k a s'
           | (None, s') => (None, s')
           end.

Notation "x <- m ;; k" := (bind m (fun x => k))
  (at level 61, m at next level, right associativity).

(** *** Selectors *)

(** [input, textarea, select] *)
Definition isControl (n : node) : bool :=
  match payloadOf n with PField _ => true | _ => false end.

(** [button[type=submit]] *)
Definition isSubmitButton (n : node) : bool :=
  match payloadOf n with
  | PButton ty _ _ => (ty =? "submit")%string
  | _ => false
  end.

Definition isFormMessage : node -> bool := hasClass "form-message".
Definition isErrorMessage : node -> bool := hasClass "error-message".
Definition isErrorStyled : node -> bool := hasClass "error".

Definition errorStyling : list string := ["error"; "border-red-500"].

(** *** Elements the script creates

    The payload of a created element is its text; the inline SVG icons of
    the templates carry none and are left out. *)

Definition errorElement (i : nat) (errorMessage : string) : node :=
  Node i ["error-message"; "text-red-600"; "text-sm"; "mt-2"; "flex"; "items-center"]
       (PElem errorMessage) [].

Definition successText : string :=
  "Nachricht erfolgreich gesendet! Vielen Dank für Ihr Interesse. Wir melden uns innerhalb von 24 Stunden bei Ihnen.".

Definition successMessage (i : nat) : node :=
  Node i ["form-message"; "bg-green-50"; "border"; "border-green-200";
          "text-green-800"; "px-6"; "py-4"; "rounded-lg"; "mb-6"]
       (PElem successText) [].


Definition errorBanner (i : nat) (errorMsg : string) : node :=
  Node i ["form-message"; "bg-red-50"; "border"; "border-red-200";
          "text-red-800"; "px-6"; "py-4"; "rounded-lg"; "mb-6"]
       (PElem ("Fehler beim Senden " ++ errorMsg)%string) [].

Definition loadingMarkup : string := "Wird gesendet...".

(** *** validateField *)

(** Lines [// Remove existing error styling]: the field loses the classes
    [error] and [border-red-500], and the first [.error-message] under its
    parent is detached. *)
Definition clearFieldError (i : nat) (ks : list node) : list node :=
  let ks1 := updKid i (setClasses (removeTokens errorStyling)) ks in
  match removeFirst isErrorMessage ks1 with
  | Some ks2 => ks2
  | None => ks1
  end.

(** Lines [// Show error if invalid], on the children of the parent. *)
Definition showFieldError (i : nat) (fresh : nat) (errorMessage : string)
    (ks : list node) : list node :=
  updKid i (setClasses (addTokens errorStyling)) ks ++ [errorElement fresh errorMessage].

Definition validateField (i : nat) : M bool := fun s =>
  match parentKids i (form s) with
  | None => (None, s)                      (* field.parentNode is null *)
  | Some ks =>
      match fieldOf i ks with
      | None => (None, s)                  (* not a form control *)
      | Some f =>
          let cleared := clearFieldError i ks in
          let r := fieldResult f in
          if isValid r then
            (Some true, setForm (setParentKids i cleared (form s)) s)
          else if hasKid i cleared then
            (Some false,
             newId (setForm (setParentKids i
                      (showFieldError i (nextId s) (errorMessage r) cleared)
                      (form s)) s))
          else                             (* the field itself was detached *)
            (None, setForm (setParentKids i cleared (form s)) s)
      end
  end.

(** *** validateForm *)

Fixpoint validateEach (fields : list nat) (isValid : bool) : M bool :=
  match fields with
  | [] => ret isValid
  | i :: rest =>
      ok <- validateField i ;;
      validateEach rest (if negb ok then false else isValid)
  end.

Definition validateForm : M bool := fun s =>
  validateEach (map nodeId (querySelectorAll isControl (form s))) true s.

(** *** The submit button *)

Definition buttonUpdate (disabled : bool) (innerHTML : string)
    (d : payload) : payload :=
  match d with
  | PButton ty _ _ => PButton ty disabled innerHTML
  | _ => d
  end.

Definition setButton (b : nat) (disabled : bool) (innerHTML : string)
    (n : node) : node :=
  mapDescendants
    (fun k => if hasId b k
              then setPayload (buttonUpdate disabled innerHTML) k
              else k) n.

Definition buttonText (n : node) : string :=
  match payloadOf n with
  | PButton _ _ h => h
  | PElem h => h
  | PField _ => ""
  end.

(** *** handleFormSuccess and handleFormError *)

Definition removeExistingMessage (n : node) : node :=
  match removeFirstUnder isFormMessage n with
  | Some n' => n'
  | None => n
  end.

(** [form.insertBefore(message, form.firstChild)] *)
Definition insertFirst (m : node) (n : node) : node :=
  let 'Node i c d ks := n in Node i c d (m :: ks).

(** [form.reset()] *)
Definition resetField (k : node) : node :=
  setPayload (fun d => match d with
                       | PField f =>
                           PField (mkField (ctrl f) (name f) (defaultValue f)
                                     (required f) (defaultChecked f)
                                     (defaultValue f) (defaultChecked f))
                       | _ => d
                       end) k.

Definition reset (n : node) : node := mapDescendants resetField n.

(** Lines [// Clear any validation errors]: every [.error] element loses
    the styling, every [.error-message] element is detached. *)
Definition condUnstyle (k : node) : node :=
  if isErrorStyled k then setClasses (removeTokens errorStyling) k else k.

Definition clearErrors (n : node) : node :=
  removeAllUnder isErrorMessage (mapDescendants condUnstyle n).

Definition handleFormSuccess (submitButton : nat) (originalButtonText : string)
    (s : page) : page :=
  let m := nextId s in
  let f1 := removeExistingMessage (form s) in
  let f2 := insertFirst (successMessage m) f1 in
  let f3 := reset f2 in
  let f4 := clearErrors f3 in
  let f5 := setButton submitButton false originalButtonText f4 in
  setTimeout (RemoveMessage m) 8000 (newId (setForm f5 s)).

Definition handleFormError (submitButton : nat) (originalButtonText : string)
    (errorMsg : string) (s : page) : page :=
  let m := nextId s in
  let f1 := removeExistingMessage (form s) in
  let f2 := insertFirst (errorBanner m errorMsg) f1 in
  let f3 := setButton submitButton false originalButtonText f2 in
  setTimeout (RemoveMessage m) 8000 (newId (setForm f3 s)).

(** The timer body [if (message.parentNode) message.remove()] *)
Definition removeMessage (m : nat) (s : page) : page :=
  setForm (removeAllUnder (hasId m) (form s)) s.

(** *** The submit listener of initContactForm *)

Definition onSubmit : M unit :=
  isFormValid <- validateForm ;;
  if negb isFormValid then ret tt
  else fun s =>
    match querySelector isSubmitButton (form s) with
    | None => (None, s)                    (* submitButton is null *)
    | Some b =>
        let originalButtonText := buttonText b in
        let s1 := setForm (setButton (nodeId b) true loadingMarkup (form s)) s in
        (Some tt, setTimeout (SubmitDone (nodeId b) originalButtonText) 2000 s1)
    end.

(** *** Events and timers *)

(** What the user can do to the form: submit it, leave a field, type into
    a field, toggle a checkbox ([change]), or edit a control's state. *)
Inductive event : Type :=
| Submit
| Blur (i : nat)
| InputEv (i : nat)
| Change (i : nat)
| Edit (i : nat) (g : field -> field).

Definition editField (i : nat) (g : field -> field) (n : node) : node :=
  match parentKids i n with
  | Some ks =>
      setParentKids i
        (updKid i (setPayload (fun d => match d with
                                        | PField f => PField (g f)
                                        | _ => d
                                        end)) ks) n
  | None => n
  end.

(** The user ticks a checkbox. *)
Definition tick (f : field) : field :=
  mkField (ctrl f) (name f) (value f) (required f) true
          (defaultValue f) (defaultChecked f).

Definition tickPayload (d : payload) : payload :=
  match d with
  | PField f => PField (tick f)
  | _ => d
  end.

Definition nodeById (i : nat) (n : node) : option node :=
  find (hasId i) (descendants n).

Definition handle (e : event) (s : page) : page :=
  match e with
  | Submit => snd (onSubmit s)
  | Blur i => snd (validateField i s)
  | InputEv i =>
      match nodeById i (form s) with
      | Some k => if isErrorStyled k then snd (validateField i s) else s
      | None => s
      end
  | Change i =>
      match nodeById i (form s) with
      | Some (Node _ _ (PField f) _) =>
          if (fieldType f =? "checkbox")%string then snd (validateField i s) else s
      | _ => s
      end
  | Edit i g => setForm (editField i g (form s)) s
  end.

Definition fire (cb : callback) (s : page) : page :=
  match cb with
  | SubmitDone b originalButtonText => handleFormSuccess b originalButtonText s
  | RemoveMessage m => removeMessage m s
  end.

(** The pending timer that is due first (the older one on a tie), and the
    others. *)
Fixpoint pickTimer (ts : list (Z * callback))
  : option ((Z * callback) * list (Z * callback)) :=
  match ts with
  | [] => None
  | x :: r =>
      match pickTimer r with
      | None => Some (x, [])
      | Some (y, r') =>
          if (fst x <=? fst y)%Z then Some (x, r) else Some (y, x :: r')
      end
  end.

(** A simulated submission schedules one more timer when it runs. *)
Definition timerWeight (cb : callback) : nat :=
  match cb with SubmitDone _ _ => 2 | RemoveMessage _ => 1 end.

Definition pending (ts : list (Z * callback)) : nat :=
  list_sum (map (fun x => timerWeight (snd x)) ts).

Fixpoint runTimers (fuel : nat) (t : Z) (s : page) : page :=
  match fuel with
  | O => s
  | S fuel' =>
      match pickTimer (timers s) with
      | Some ((d, cb), rest) =>
          if (d <=? t)%Z
          then runTimers fuel' t (fire cb (setTimers rest (setNow (Z.max (now s) d) s)))
          else s
      | None => s
      end
  end.

(** Let the clock reach [t]: every timer due by then runs, in order. *)
Definition advance (t : Z) (s : page) : page :=
  let s' := runTimers (pending (timers s)) t s in
  setNow (Z.max (now s') t) s'.

(** A history: user events with the times at which they happen. *)
Fixpoint run (h : list (Z * event)) (s : page) : page :=
  match h with
  | [] => s
  | (t, e) :: rest => run rest (handle e (advance t s))
  end.

End ContactForm.
Export ContactForm.

(** ** The form endpoints

    [netlify/functions/contact-form.js] and [api/contact.js]. *)

Module Endpoint.

(** A JSON value as [JSON.parse] yields it.  Numbers are the integers; a
    number with a fraction or an exponent is outside this model. *)
#[warnings="-register-all"]
Inductive json : Type :=
| JNull
| JBool (b : bool)
| JNum (z : Z)
| JStr (s : jsstring)
| JArr (items : list json)
| JObj (members : list (string * json)).

(** The member of an object for a key; the last one wins when a key is
    repeated. *)
Fixpoint member (k : string) (l : list (string * json)) : option json :=
  match l with
  | [] => None
  | (k', v) :: r =>
      match member k r with
      | Some w => Some w
      | None => if (k' =? k)%string then Some v else None
      end
  end.

(** [formData[field]] on a value that is not [null]: [None] is
    [undefined]. *)
Definition getProp (k : string) (j : json) : option json :=
  match j with
  | JObj l => member k l
  | _ => None
  end.

(** ToBoolean *)
Definition truthyJ (v : option json) : bool :=
  match v with
  | None => false
  | Some JNull => false
  | Some (JBool b) => b
  | Some (JNum z) => negb (z =? 0)%Z
  | Some (JStr s) => truthy s
  | Some (JArr _) => true
  | Some (JObj _) => true
  end.

Fixpoint joinComma (l : list jsstring) : jsstring :=
  match l with
  | [] => []
  | [x] => x
  | x :: r => x ++ 44%N :: joinComma r
  end.

(** ToString, as [RegExp.prototype.test] applies it to its argument. *)
Fixpoint toStringJ (j : json) : jsstring :=
  match j with
  | JNull => ustr "null"
  | JBool true => ustr "true"
  | JBool false => ustr "false"
  | JNum z => ustr (NilZero.string_of_int (Z.to_int z))
  | JStr s => s
  | JArr l =>
      joinComma (map (fun x => match x with JNull => [] | _ => toStringJ x end) l)
  | JObj _ => ustr "[object Object]"
  end.

Definition toStringOpt (v : option json) : jsstring :=
  match v with
  | None => ustr "undefined"
  | Some j => toStringJ j
  end.

(** A request: the method and the body.  [None] is a body from which no
    JSON value comes ([JSON.parse] throws, or the platform hands over no
    parsed body).  The request headers, which both platforms always
    supply, are read only into the lead that is logged; neither the
    status nor the response body depends on them, so they and the log
    are left out. *)
Record request : Type := mkRequest {
  httpMethod : string;
  body : option json
}.

(** What the handler reads from its surroundings to build the lead
    identifier [lead_${Date.now()}_${random}]. *)
Record env : Type := mkEnv {
  dateNow : string;
  randomPart : string
}.

Inductive responseBody : Type :=
| ErrorBody (error : string) (missingFields : option (list string))
| SuccessBody (success : bool) (message : string) (leadId : string)
| NoBody.

Record response : Type := mkResponse {
  statusCode : Z;
  respHeaders : list (string * string);
  respBody : responseBody
}.

Definition requiredFields : list string := ["name"; "email"; "courseInterest"].

(** [requiredFields.filter(field => !formData[field])] *)
Definition missingFields (formData : json) : list string :=
  filter (fun field => negb (truthyJ (getProp field formData))) requiredFields.

Definition leadIdOf (e : env) : string :=
  ("lead_" ++ dateNow e ++ "_" ++ randomPart e)%string.

Definition thanks : string :=
  "Vielen Dank für Ihre Anfrage! Wir werden uns bald bei Ihnen melden.".

Definition serverErrorText : string :=
  "Interner Serverfehler. Bitte versuchen Sie es später erneut.".

(** The body of the [try] block once [formData] is at hand; the two
    handlers differ in the headers they send. *)
Definition processForm (hs okHs : list (string * string)) (e : env)
    (formData : json) : response :=
  if (0 <? List.length (missingFields formData))%nat then
    mkResponse 400 hs
      (ErrorBody "Fehlende Pflichtfelder" (Some (missingFields formData)))
  else if negb (test emailRegex (toStringOpt (getProp "email" formData))) then
    mkResponse 400 hs (ErrorBody "Ungültige E-Mail-Adresse" None)
  else if truthyJ (getProp "website" formData) then
    mkResponse 400 hs (ErrorBody "Spam detected" None)
  else
    mkResponse 200 okHs (SuccessBody true thanks (leadIdOf e)).

(** [exports.handler] of the Netlify function. *)
Definition netlifyHandler (e : env) (event : request) : response :=
  if negb (httpMethod event =? "POST")%string then
    mkResponse 405 [] (ErrorBody "Method not allowed" None)
  else
    match body event with
    | None | Some JNull =>                      (* caught by the try block *)
        mkResponse 500 [] (ErrorBody serverErrorText None)
    | Some formData =>
        processForm []
          [("Content-Type", "application/json"); ("Access-Control-Allow-Origin", "*")]
          e formData
    end.

Definition corsHeaders : list (string * string) :=
  [("Access-Control-Allow-Credentials", "true");
   ("Access-Control-Allow-Origin", "*");
   ("Access-Control-Allow-Methods", "GET,OPTIONS,PATCH,DELETE,POST,PUT");
   ("Access-Control-Allow-Headers",
    "X-CSRF-Token, X-Requested-With, Accept, Accept-Version, Content-Length, Content-MD5, Content-Type, Date, X-Api-Version")].

(** [handler] of the Vercel function. *)
Definition vercelHandler (e : env) (req : request) : response :=
  if (httpMethod req =? "OPTIONS")%string then
    mkResponse 200 corsHeaders NoBody
  else if negb (httpMethod req =? "POST")%string then
    mkResponse 405 corsHeaders (ErrorBody "Method not allowed" None)
  else
    match body req with
    | None | Some JNull =>
        mkResponse 500 corsHeaders (ErrorBody serverErrorText None)
    | Some formData => processForm corsHeaders corsHeaders e formData
    end.

Inductive platform : Type := Netlify | Vercel.

Definition handler (p : platform) : env -> request -> response :=
  match p with
  | Netlify => netlifyHandler
  | Vercel => vercelHandler
  end.


End Endpoint.

(** ** Notions used to state the properties *)

Module Notions.

(** The strings of [emailRegex]: [local@domain.tld] with three non-empty
    parts free of white space and of [@]. *)
Definition emailShape (v : jsstring) : Prop :=
  exists l d t,
    v = l ++ 64%N :: d ++ 46%N :: t /\
    l <> [] /\ d <> [] /\ t <> [] /\
    forallb notSpaceAt l = true /\ forallb notSpaceAt d = true /\
    forallb notSpaceAt t = true.

(** The strings of [phoneRegex]: an optional [+], then eight or more
    characters of the class. *)
Definition phoneShape (v : jsstring) : Prop :=
  exists body,
    (v = body \/ v = 43%N :: body) /\
    8 <= List.length body /\ forallb phoneClass body = true.

(** Letters in a value, for the reading of C5 that asks for two letters. *)
Definition letterCount (v : jsstring) : nat := List.length (filter isLetter v).

(** The element [i] is a form control in state [f] attached under the form,
    and it does not itself carry the class [error-message]. *)
Definition controlAt (i : nat) (f : field) (s : page) : Prop :=
  exists ks,
    parentKids i (form s) = Some ks /\ fieldOf i ks = Some f /\
    forallb (fun k => negb (hasId i k && isErrorMessage k)) ks = true.

(** [validateField(field)] returns [true]. *)
Definition accepts (i : nat) (s : page) : Prop :=
  exists s', validateField i s = (Some true, s').

(** [validateField(field)] returns [false] and has put an error element
    with the text [msg] into the form. *)
Definition reports (i : nat) (msg : string) (s : page) : Prop :=
  exists s', validateField i s = (Some false, s') /\
             In (errorElement (nextId s) msg) (descendants (form s')).

(** Replacing the children of the parent of [i]. *)
Definition replaceSpec (i : nat) (n : node) : Prop :=
  forall new,
  (parentKids i n = None -> replaceParentKids i new n = None) /\
  (forall ks, parentKids i n = Some ks ->
     exists n', replaceParentKids i new n = Some n' /\ nodeId n' = nodeId n /\
                (hasKid i new = true ->
                 parentKids i n' = Some new /\
                 forall new2, replaceParentKids i new2 n' = replaceParentKids i new2 n)).

(** A selector that looks at the element itself, not at its children. *)
Definition shallow (sel : node -> bool) : Prop :=
  forall i c d ks ks', sel (Node i c d ks) = sel (Node i c d ks').

Definition count1 (sel : node -> bool) (k : node) : nat := if sel k then 1 else 0.

(** The children of the parent once the unchecked box was validated, and
    once it was ticked and validated again. *)
Definition flaggedKids (s : page) (i : nat) (ks : list node) : list node :=
  updKid i (setClasses (addTokens errorStyling))
    (updKid i (setClasses (removeTokens errorStyling)) ks)
  ++ [errorElement (nextId s) msgPrivacy].

Definition tickedKids (i : nat) (ks : list node) : list node :=
  updKid i (fun k => setClasses (removeTokens errorStyling) (setPayload tickPayload k)) ks.

Definition flaggedPage (s : page) (i : nat) (ks : list node) : page :=
  mkPage (setParentKids i (flaggedKids s i ks) (form s)) (S (nextId s)) (now s) (timers s).

Definition tickedPage (s : page) (i : nat) (ks : list node) : page :=
  mkPage (setParentKids i (tickedKids i ks) (form s)) (S (nextId s)) (now s) (timers s).

(** A form message of the error kind, as [handleFormError] builds it. *)
Definition isErrorBanner (n : node) : bool :=
  isFormMessage n && hasClass "bg-red-50" n.


(** A control whose value or checkedness differs from its default. *)
Definition isDirty (n : node) : bool :=
  match payloadOf n with
  | PField f =>
      negb ((if list_eq_dec N.eq_dec (value f) (defaultValue f) then true else false)
            && Bool.eqb (checked f) (defaultChecked f))
  | _ => false
  end.


(** The submit control of the form: the first [button[type=submit]], with
    its identity, its [disabled] flag and its label. *)
Definition submitControl (b : nat) (disabled : bool) (label : string)
    (n : node) : Prop :=
  exists k ty, querySelector isSubmitButton n = Some k /\ nodeId k = b /\
               payloadOf k = PButton ty disabled label.



End Notions.
Export Notions.

(** ** A sample form

    One wrapper per control, as the site's markup has it, and the submit
    button. *)

Module Sample.

Definition textInput (ty nm v : string) (req : bool) : field :=
  mkField (Input ty) nm (ustr v) req false [] false.

Definition checkbox (nm : string) (req chk : bool) : field :=
  mkField (Input "checkbox") nm (ustr "on") req chk (ustr "on") false.

Definition messageArea (v : jsstring) (req : bool) : field :=
  mkField Textarea "message" v req false [] false.

Definition div (i : nat) (ks : list node) : node := Node i [] (PElem "") ks.

(** A form with the single control [f] (identity 2) in a wrapper, and the
    submit button (identity 3). *)
Definition pageWith (f : field) : page :=
  mkPage (div 0 [div 1 [Node 2 [] (PField f) []];
                 Node 3 [] (PButton "submit" false "Senden") []])
         4 0 [].

Definition goodEmail : field := textInput "email" "email" " anna@example.de " true.
Definition badEmail : field := textInput "email" "email" "anna.example.de" true.
Definition blankEmail : field := textInput "email" "email" "   " true.
Definition shortMessage : field := messageArea (ustr "  Guten Tag ") true.
Definition tenMessage : field := messageArea (ustr "Guten Tag!") true.
Definition goodName : field := textInput "text" "name" "Anna Muster" true.
Definition badName : field := textInput "text" "name" "R2-D2" true.
Definition noLetterName : field := textInput "text" "name" "-." true.
Definition oneLetterName : field := textInput "text" "name" "a." true.
Definition goodPhone : field := textInput "tel" "phone" "+34 691 367 430" false.
Definition shortPhone : field := textInput "tel" "phone" "+1234567" false.
Definition blankCity : field := textInput "text" "city" "" true.

(** The consent checkbox alone in its wrapper. *)
Definition consentPage : page := pageWith (checkbox "privacy" true false).

(** The contact form filled in as in the specification's scenario: name,
    email, message and consent, one wrapper each, and the submit button. *)
Definition filledPage : page :=
  mkPage (div 0 [div 1 [Node 2 [] (PField (textInput "text" "name" "Anna Muster" true)) []];
                 div 3 [Node 4 [] (PField (textInput "email" "email" "anna@example.de" true)) []];
                 div 5 [Node 6 [] (PField (messageArea
                                             (ustr "Ich interessiere mich fuer den Kurs.")
                                             true)) []];
                 div 7 [Node 8 [] (PField (checkbox "privacy" true true)) []];
                 Node 9 [] (PButton "submit" false "Nachricht senden") []])
         10 0 [].



Definition submitButtonNode : node :=
  Node 9 [] (PButton "submit" false "Nachricht senden") [].

(** A form whose email field and consent checkbox share one wrapper. *)
Definition sharedPage : page :=
  mkPage (div 0 [div 1 [Node 2 [] (PField (textInput "email" "email" "x" true)) [];
                        Node 3 [] (PField (checkbox "privacy" true false)) []];
                 Node 4 [] (PButton "submit" false "Senden") []])
         5 0 [].

(** The unchecked box is validated, then the email field; then the box is
    ticked and validated again. *)
Definition sharedBefore : page := run [(0%Z, Change 3); (1%Z, Blur 2)] sharedPage.
Definition sharedAfter : page :=
  run [(2%Z, Edit 3 tick); (3%Z, Change 3)] sharedBefore.

(** The texts of the error messages in a form, and whether a control is
    styled as invalid. *)
Definition errorTexts (n : node) : list string :=
  map buttonText (querySelectorAll isErrorMessage n).

Definition styledInvalid (i : nat) (n : node) : bool :=
  existsb (fun k => hasId i k && isErrorStyled k) (descendants n).

End Sample.

(** ** The endpoints on sample requests *)

Module EndpointSample.

Import Endpoint.

Definition sampleEnv : env := mkEnv "1758869506165" "k3j9x2m1q".

Definition sampleLead : json :=
  JObj [("name", JStr (ustr "Anna Muster"));
        ("email", JStr (ustr "anna@example.de"));
        ("courseInterest", JStr (ustr "ppl"));
        ("website", JStr [])].

Definition postLead : request := mkRequest "POST" (Some sampleLead).

End EndpointSample.

(** ** Notions for the endpoints *)

Module EndpointNotions.

Import Endpoint EndpointSample.

(** The headers of the Netlify function's success answer. *)
Definition netlifyOkHeaders : list (string * string) :=
  [("Content-Type", "application/json"); ("Access-Control-Allow-Origin", "*")].



(** The properties of the body that the handlers read. *)
Definition readKeys : list string := ["name"; "email"; "courseInterest"; "website"].

(** The sample lead with further properties, with the honeypot filled in,
    and with its email wrapped in an array. *)
Definition longLead : json :=
  JObj [("phone", JStr (ustr "+34 691 367 430"));
        ("name", JStr (ustr "Anna Muster"));
        ("email", JStr (ustr "anna@example.de"));
        ("message", JStr (ustr "Guten Tag"));
        ("courseInterest", JStr (ustr "ppl"));
        ("website", JStr []);
        ("preferredContact", JStr (ustr "phone"))].

Definition spamLead : json :=
  JObj [("name", JStr (ustr "Anna Muster"));
        ("email", JStr (ustr "anna@example.de"));
        ("courseInterest", JStr (ustr "ppl"));
        ("website", JStr (ustr "http://spam.example"))].


Definition post (d : json) : request := mkRequest "POST" (Some d).

End EndpointNotions.

(** ** Notions for further properties of the field validator *)

Module ValidatorNotions.

(** The texts [validateField] can show. *)
Definition allMessages : list string :=
  [msgPrivacy; msgNameRequired; msgEmailRequired; msgMessageRequired; msgRequired;
   msgEmailInvalid; msgPhoneInvalid; msgNameInvalid; msgTooShort; msgTooLong].

(** The control [f] with the value [v]. *)
Definition withValue (v : jsstring) (f : field) : field :=
  mkField (ctrl f) (name f) v (required f) (checked f) (defaultValue f)
          (defaultChecked f).

Definition optionalPhone : field := Sample.textInput "tel" "phone" "  " false.
Definition cityField : field := Sample.textInput "text" "city" "Palma" true.

End ValidatorNotions.

(** ** Timers of the other scripts

    [setTimeout] on a virtual clock, shared by the models below: a state
    holds the time and the pending callbacks with their due times; letting
    the clock reach [t] runs every callback due by then, the one due first
    first and the older one on a tie, each at its due time. *)

Module Clock.

Section Engine.

Context {St Tk : Type}.
Variable timersOf : St -> list (Z * Tk).
Variable nowOf : St -> Z.
Variable setClock : Z -> list (Z * Tk) -> St -> St.
Variable fire : Tk -> St -> St.
(** A bound on the callbacks that running one callback takes in all,
    itself included. *)
Variable weight : Tk -> nat.

Fixpoint pickDue (ts : list (Z * Tk)) : option ((Z * Tk) * list (Z * Tk)) :=
  match ts with
  | [] => None
  | x :: r =>
      match pickDue r with
      | None => Some (x, [])
      | Some (y, r') =>
          if (fst x <=? fst y)%Z then Some (x, r) else Some (y, x :: r')
      end
  end.

Definition load (ts : list (Z * Tk)) : nat :=
  list_sum (map (fun x => weight (snd x)) ts).

Fixpoint runDue (fuel : nat) (t : Z) (s : St) : St :=
  match fuel with
  | O => s
  | S fuel' =>
      match pickDue (timersOf s) with
      | Some ((d, cb), rest) =>
          if (d <=? t)%Z
          then runDue fuel' t (fire cb (setClock (Z.max (nowOf s) d) rest s))
          else s
      | None => s
      end
  end.

Definition advanceTo (t : Z) (s : St) : St :=
  let s' := runDue (load (timersOf s)) t s in
  setClock (Z.max (nowOf s') t) (timersOf s') s'.

End Engine.

End Clock.

(** ** The charter inquiry form and the notifications

    [showNotification] and the submit listener of [initCharterInquiry].
    The document is the charter form with its subtree and, beside it, the
    other elements under [document.body]; the form is taken not to carry
    the class [notification] and not to lie inside an element that does.
    The listener's [data] is the object that
    [Object.fromEntries(new FormData(this).entries())] yields, with string
    values; [console.log] and the optional [gtag] call touch nothing of
    the document and are left out, as are the click listeners of the
    charter buttons (scrolling and focus). *)

Module Charter.

(** The closures handed to [setTimeout]. *)
Inductive task : Type :=
| SlideIn (notification : nat)    (* style.transform = 'translateX(0)' *)
| SlideOut (notification : nat)   (* 'translateX(full)', then the removal *)
| Detach (notification : nat)     (* if (notification.parentNode) remove *)
| CharterDone (submitButton : nat) (originalText : string).

Record doc : Type := mkDoc {
  charterForm : node;
  elsewhere : list node;              (* the rest of [document.body] *)
  transforms : list (nat * string);   (* inline [style.transform], newest first *)
  fresh : nat;
  clock : Z;
  queue : list (Z * task)
}.

Definition onForm (g : node -> node) (s : doc) : doc :=
  mkDoc (g (charterForm s)) (elsewhere s) (transforms s) (fresh s) (clock s) (queue s).

Definition setClock (t : Z) (q : list (Z * task)) (s : doc) : doc :=
  mkDoc (charterForm s) (elsewhere s) (transforms s) (fresh s) t q.

(** [setTimeout(k, delay)] *)
Definition schedule (k : task) (delay : Z) (s : doc) : doc :=
  setClock (clock s) (queue s ++ [((clock s + delay)%Z, k)]) s.

Definition setTransform (n : nat) (v : string) (s : doc) : doc :=
  mkDoc (charterForm s) (elsewhere s) ((n, v) :: transforms s) (fresh s)
        (clock s) (queue s).

Fixpoint transformOf (n : nat) (l : list (nat * string)) : option string :=
  match l with
  | [] => None
  | (m, v) :: r => if (m =? n)%nat then Some v else transformOf n r
  end.

Definition isNotification : node -> bool := hasClass "notification".

(** The elements [document.querySelectorAll('.notification')] finds. *)
Definition notifications (s : doc) : list node :=
  filter isNotification (descendants (charterForm s) ++ flat_map nodes (elsewhere s)).

Definition kindClasses (type : string) : list string :=
  if (type =? "success")%string then ["bg-green-500"; "text-white"]
  else if (type =? "error")%string then ["bg-red-500"; "text-white"]
  else ["bg-blue-500"; "text-white"].

(** The element [showNotification] creates; its payload is the message. *)
Definition notificationElement (i : nat) (message type : string) : node :=
  Node i
    (["notification"; "fixed"; "top-4"; "right-4"; "z-50"; "max-w-sm"; "p-4";
      "rounded-lg"; "shadow-lg"; "transform"; "translate-x-full";
      "transition-transform"; "duration-300"] ++ kindClasses type)
    (PElem message) [].

(** [element.remove()] on the element with identity [n], if attached. *)
Definition detach (n : nat) (s : doc) : doc :=
  mkDoc (removeAllUnder (hasId n) (charterForm s)) (removeAll (hasId n) (elsewhere s))
        (transforms s) (fresh s) (clock s) (queue s).

Definition showNotification (message type : string) (s : doc) : doc :=
  let n := fresh s in
  let s1 := mkDoc (removeAllUnder isNotification (charterForm s))
                  (removeAll isNotification (elsewhere s)
                   ++ [notificationElement n message type])
                  (transforms s) (S n) (clock s) (queue s) in
  schedule (SlideOut n) 5000 (schedule (SlideIn n) 100 s1).

(** *** The submit listener *)

Definition msgFillRequired : string := "Bitte füllen Sie alle Pflichtfelder aus.".
Definition msgAgree : string := "Bitte stimmen Sie der Datenschutzerklärung zu.".
Definition charterThanks : string :=
  "Ihre Charter-Anfrage wurde erfolgreich gesendet. Wir melden uns in Kürze bei Ihnen!".

(** [data[k]]: the last entry for the name wins; [None] is [undefined]. *)
Fixpoint entry (k : string) (data : list (string * jsstring)) : option jsstring :=
  match data with
  | [] => None
  | (k', v) :: r =>
      match entry k r with
      | Some w => Some w
      | None => if (k' =? k)%string then Some v else None
      end
  end.

Definition filled (v : option jsstring) : bool :=
  match v with Some s => truthy s | None => false end.

Definition textOf (v : option jsstring) : jsstring :=
  match v with Some s => s | None => ustr "undefined" end.

(** The body of the timer that stands for the submission. *)
Definition charterDone (submitButton : nat) (originalText : string) (s : doc) : doc :=
  let s1 := onForm (setButton submitButton false originalText) s in
  let s2 := showNotification charterThanks "success" s1 in
  onForm reset s2.

Definition onSubmit (data : list (string * jsstring)) : doc -> option unit * doc :=
  fun s =>
    if negb (filled (entry "name" data)) || negb (filled (entry "email" data)) then
      (Some tt, showNotification msgFillRequired "error" s)
    else if negb (test emailRegex (textOf (entry "email" data))) then
      (Some tt, showNotification msgEmailInvalid "error" s)
    else if negb (filled (entry "privacy" data)) then
      (Some tt, showNotification msgAgree "error" s)
    else
      match querySelector isSubmitButton (charterForm s) with
      | None => (None, s)                  (* submitButton is null *)
      | Some b =>
          let originalText := buttonText b in
          (Some tt,
           schedule (CharterDone (nodeId b) originalText) 2000
             (onForm (setButton (nodeId b) true loadingMarkup) s))
      end.

(** *** Events and timers *)

(** The user submits the form, clicks the close button of a notification,
    or edits a control of the form. *)
Inductive event : Type :=
| Submit (data : list (string * jsstring))
| Dismiss (notification : nat)
| Edit (i : nat) (g : field -> field).

Definition handle (e : event) (s : doc) : doc :=
  match e with
  | Submit data => snd (onSubmit data s)
  | Dismiss n => if existsb (hasId n) (notifications s) then detach n s else s
  | Edit i g => onForm (editField i g) s
  end.

Definition fire (k : task) (s : doc) : doc :=
  match k with
  | SlideIn n => setTransform n "translateX(0)" s
  | SlideOut n => schedule (Detach n) 300 (setTransform n "translateX(full)" s)
  | Detach n => detach n s
  | CharterDone b originalText => charterDone b originalText s
  end.

Definition weight (k : task) : nat :=
  match k with
  | SlideIn _ => 1
  | SlideOut _ => 2
  | Detach _ => 1
  | CharterDone _ _ => 4
  end.

Definition runDue : nat -> Z -> doc -> doc :=
  Clock.runDue queue clock setClock fire.

Definition advance : Z -> doc -> doc :=
  Clock.advanceTo queue clock setClock fire weight.

Fixpoint run (h : list (Z * event)) (s : doc) : doc :=
  match h with
  | [] => s
  | (t, e) :: rest => run rest (handle e (advance t s))
  end.

End Charter.

(** ** Notions for the charter form and the notifications *)

Module CharterNotions.

Import Charter.

(** How many elements of class [notification] the document holds. *)
Definition shown (s : doc) : nat :=
  countIn isNotification (children (charterForm s)) + countIn isNotification (elsewhere s).

(** The checks of the submit listener: a name, an email of the shape
    [local@domain.tld] and the consent, each as the form data has it. *)
Definition complete (data : list (string * jsstring)) : Prop :=
  filled (entry "name" data) = true /\ filled (entry "email" data) = true /\
  emailShape (textOf (entry "email" data)) /\ filled (entry "privacy" data) = true.

(** The text the listener shows for data that fail a check, the first
    failing check deciding. *)
Definition complaint (data : list (string * jsstring)) : string :=
  if negb (filled (entry "name" data)) || negb (filled (entry "email" data))
  then msgFillRequired
  else if negb (test emailRegex (textOf (entry "email" data))) then msgEmailInvalid
  else msgAgree.

(** The document once the listener has started the simulated submission
    with the submit button [b]. *)
Definition submitted (b : node) (s : doc) : doc :=
  schedule (CharterDone (nodeId b) (buttonText b)) 2000
    (onForm (setButton (nodeId b) true loadingMarkup) s).

(** The task works on the notification [n]. *)
Definition concerns (n : nat) (k : task) : bool :=
  match k with
  | SlideIn m | SlideOut m | Detach m => (m =? n)%nat
  | CharterDone _ _ => false
  end.

(** Every pending task belongs to a notification made before [n]. *)
Definition olderThan (n : nat) (k : task) : Prop :=
  match k with
  | SlideIn m | SlideOut m | Detach m => m < n
  | CharterDone _ _ => False
  end.

Definition onlyOlder (s : doc) : Prop :=
  Forall (fun x => olderThan (fresh s) (snd x)) (queue s).

(** The life of a notification [n] shown at time [t0]. *)
Inductive stage : Type := Entering | Resting | Leaving | Gone.

Definition ownTasks (n : nat) (t0 : Z) (g : stage) : list (Z * task) :=
  match g with
  | Entering => [((t0 + 100)%Z, SlideIn n); ((t0 + 5000)%Z, SlideOut n)]
  | Resting => [((t0 + 5000)%Z, SlideOut n)]
  | Leaving => [((t0 + 5300)%Z, Detach n)]
  | Gone => []
  end.

Definition ownTransform (g : stage) : option string :=
  match g with
  | Entering => None
  | Resting => Some "translateX(0)"
  | Leaving | Gone => Some "translateX(full)"
  end.

(** When the stage begins, after [t0]. *)
Definition since (g : stage) : Z :=
  match g with
  | Entering => 0
  | Resting => 100
  | Leaving => 5000
  | Gone => 5300
  end.

Definition inStage (e : node) (t0 : Z) (g : stage) (s : doc) : Prop :=
  filter (fun x => concerns (nodeId e) (snd x)) (queue s) = ownTasks (nodeId e) t0 g /\
  Forall (fun x => concerns (nodeId e) (snd x) = false ->
                   olderThan (nodeId e) (snd x)) (queue s) /\
  Forall (fun x => (clock s <= fst x)%Z) (ownTasks (nodeId e) t0 g) /\
  transformOf (nodeId e) (transforms s) = ownTransform g /\
  match g with
  | Gone => notifications s = []
  | _ => In e (elsewhere s) /\ notifications s = [e]
  end.

(** A charter form with a name and an email field, the consent box and
    the submit button; beside it an older notification with its pending
    tasks. *)
Definition charterPage : doc :=
  mkDoc (Sample.div 0
           [Node 1 [] (PField (Sample.textInput "text" "name" "Anna Muster" true)) [];
            Node 2 [] (PField (Sample.textInput "email" "email" "anna@example.de" true)) [];
            Node 3 [] (PField (Sample.checkbox "privacy" true true)) [];
            Node 4 [] (PButton "submit" false "Anfrage senden") []])
        [] [] 5 0 [].

Definition charterData : list (string * jsstring) :=
  [("name", ustr "Anna Muster"); ("email", ustr "anna@example.de");
   ("privacy", ustr "on")].

Definition noConsent : list (string * jsstring) :=
  [("name", ustr "Anna Muster"); ("email", ustr "anna@example.de")].


End CharterNotions.

(** ** The statistics counters

    [initStatisticsCounters].  [animateCounter] works on floating point
    time stamps; the model records that it is called, for which counter
    and when, and the style writes of the entrance effect, in a trace.
    Whether the stats section is in view is the browser's to say: it
    comes with the observer's entries and with each animation frame. *)

Module Counters.

(** What the timers do to the counter element [index]. *)
Inductive effect : Type :=
| Prepare (index : nat)   (* transform translateY(20px), opacity 0, transition *)
| Reveal (index : nat)    (* transform translateY(0), opacity 1 *)
| Animate (index : nat).  (* animateCounter(element, target) *)

(** The closures handed to [setTimeout]: the outer and the inner one of
    the observer's callback, and the one of the scroll fallback. *)
Inductive task : Type :=
| Outer (index : nat)
| Inner (index : nat)
| Direct (index : nat).

(** Nothing is set up (no counter on the page), the observer is, or the
    scroll listener is. *)
Inductive mode : Type := Off | Observer | Scrolling.

Record state : Type := mkState {
  statNumbers : nat;              (* statNumbers.length *)
  statsSection : bool;            (* document.querySelector('.stats-grid') *)
  how : mode;
  hasAnimated : bool;
  observing : bool;               (* the observer is connected *)
  ticking : bool;
  trace : list (Z * effect);      (* oldest first *)
  now : Z;
  timers : list (Z * task)
}.

Definition setClock (t : Z) (q : list (Z * task)) (s : state) : state :=
  mkState (statNumbers s) (statsSection s) (how s) (hasAnimated s) (observing s)
          (ticking s) (trace s) t q.

Definition record (e : effect) (s : state) : state :=
  mkState (statNumbers s) (statsSection s) (how s) (hasAnimated s) (observing s)
          (ticking s) (trace s ++ [(now s, e)]) (now s) (timers s).

Definition setTicking (b : bool) (s : state) : state :=
  mkState (statNumbers s) (statsSection s) (how s) (hasAnimated s) (observing s)
          b (trace s) (now s) (timers s).

(** [statNumbers.forEach((element, index) => setTimeout(.., index * 200))] *)
Definition stagger (mk : nat -> task) (n : nat) (t : Z) : list (Z * task) :=
  map (fun i => ((t + Z.of_nat i * 200)%Z, mk i)) (seq 0 n).

(** The body of [if (entry.isIntersecting && !hasAnimated)]. *)
Definition onEntry (isIntersecting : bool) (s : state) : state :=
  if isIntersecting && negb (hasAnimated s) then
    mkState (statNumbers s) (statsSection s) (how s) true false (ticking s)
            (trace s) (now s) (timers s ++ stagger Outer (statNumbers s) (now s))
  else s.

(** The observer's callback. *)
Definition onIntersection (entries : list bool) (s : state) : state :=
  fold_left (fun s' isIntersecting => onEntry isIntersecting s') entries s.

Definition checkStatisticsInView (isInView : bool) (s : state) : state :=
  if hasAnimated s then s
  else if negb (statsSection s) then s
  else if isInView then
    mkState (statNumbers s) (statsSection s) (how s) true (observing s) (ticking s)
            (trace s) (now s) (timers s ++ stagger Direct (statNumbers s) (now s))
  else s.

Definition handleScroll (s : state) : state :=
  if negb (ticking s) then setTicking true s else s.

Definition initStatisticsCounters (n : nat) (hasObserver section isInView : bool)
    (t : Z) : state :=
  if (0 <? n)%nat then
    if hasObserver then mkState n section Observer false section false [] t []
    else checkStatisticsInView isInView
           (mkState n section Scrolling false false false [] t [])
  else mkState n section Off false false false [] t [].

(** The observer reports entries, the page is scrolled, or an animation
    frame comes, with the answer of the geometry test at that time. *)
Inductive event : Type :=
| Intersection (entries : list bool)
| Scroll
| Frame (isInView : bool).

Definition handle (e : event) (s : state) : state :=
  match e, how s with
  | Intersection entries, Observer =>
      if observing s then onIntersection entries s else s
  | Scroll, Scrolling => handleScroll s
  | Frame isInView, Scrolling =>
      if ticking s then setTicking false (checkStatisticsInView isInView s) else s
  | _, _ => s
  end.

Definition fire (k : task) (s : state) : state :=
  match k with
  | Outer i =>
      let s1 := record (Prepare i) s in
      setClock (now s1) (timers s1 ++ [((now s1 + 100)%Z, Inner i)]) s1
  | Inner i => record (Animate i) (record (Reveal i) s)
  | Direct i => record (Animate i) s
  end.

Definition weight (k : task) : nat :=
  match k with Outer _ => 2 | Inner _ => 1 | Direct _ => 1 end.

Definition advance : Z -> state -> state :=
  Clock.advanceTo timers now setClock fire weight.

Fixpoint run (h : list (Z * event)) (s : state) : state :=
  match h with
  | [] => s
  | (t, e) :: rest => run rest (handle e (advance t s))
  end.

(** The task and the effect belong to the counter [i]. *)
Definition taskFor (i : nat) (k : task) : bool :=
  match k with Outer j | Inner j | Direct j => (j =? i)%nat end.

Definition isAnimate (i : nat) (e : effect) : bool :=
  match e with Animate j => (j =? i)%nat | _ => false end.

(** How often [animateCounter] was called for the counter [i], and how
    many timers are pending for it. *)
Definition animations (i : nat) (s : state) : nat :=
  List.length (filter (fun x => isAnimate i (snd x)) (trace s)).

Definition waiting (i : nat) (s : state) : nat :=
  List.length (filter (fun x => taskFor i (snd x)) (timers s)).

(** Each counter has at most one thing to its name, a pending timer or a
    call of [animateCounter], and none before the trigger. *)
Definition once (s : state) : Prop :=
  forall i, animations i s + waiting i s <= (if hasAnimated s then 1 else 0).

(** Where the counter [i] stands at a time up to [t], after a trigger at
    [t0]: its timer is pending, or [animateCounter] was called at the time
    the stagger gives.  [direct] is the scroll fallback. *)
Definition onSchedule (direct : bool) (t0 t : Z) (i : nat) (s : state) : Prop :=
  if direct then
    In ((t0 + Z.of_nat i * 200)%Z, Direct i) (timers s) \/
    (In ((t0 + Z.of_nat i * 200)%Z, Animate i) (trace s) /\
     (t0 + Z.of_nat i * 200 <= t)%Z)
  else
    In ((t0 + Z.of_nat i * 200)%Z, Outer i) (timers s) \/
    In ((t0 + Z.of_nat i * 200 + 100)%Z, Inner i) (timers s) \/
    (In ((t0 + Z.of_nat i * 200 + 100)%Z, Animate i) (trace s) /\
     (t0 + Z.of_nat i * 200 + 100 <= t)%Z).

(** The event sets the counters off in the state [s]: the observer
    reports an intersecting entry, or, with the scroll fallback, a
    requested animation frame finds the stats section in view. *)
Definition triggers (direct : bool) (e : event) (s : state) : Prop :=
  if direct then
    how s = Scrolling /\ ticking s = true /\ statsSection s = true /\ e = Frame true
  else
    how s = Observer /\ observing s = true /\
    exists entries, e = Intersection entries /\ existsb (fun b => b) entries = true.

(** When [animateCounter] is due for the counter [i] after a trigger at
    [t0]. *)
Definition startOf (direct : bool) (t0 : Z) (i : nat) : Z :=
  (t0 + Z.of_nat i * 200 + (if direct then 0 else 100))%Z.

(** A page with three counters in a browser that has the observer. *)
Definition threeCounters : state := initStatisticsCounters 3 true true false 0.

End Counters.

(** ** Notions for the validation of the whole form *)

Module FormNotions.

Definition control_eq_dec (a b : control) : {a = b} + {a <> b}.
Proof. decide equality. apply string_dec. Defined.

Definition field_eq_dec (a b : field) : {a = b} + {a <> b}.
Proof.
  decide equality; try apply Bool.bool_dec; try apply (list_eq_dec N.eq_dec);
    try apply string_dec; apply control_eq_dec.
Defined.

Definition holdsField (f : field) (k : node) : bool :=
  match payloadOf k with
  | PField f' => if field_eq_dec f' f then true else false
  | _ => false
  end.

(** The element [k] is the control [i] in the state [f], and does not
    carry the class [error-message]. *)
Definition isControlOf (i : nat) (f : field) (k : node) : bool :=
  hasId i k && negb (isErrorMessage k) && holdsField f k.

(** The same, styled as invalid or not as [styled] says. *)
Definition isMarkedControl (i : nat) (f : field) (styled : bool) (k : node) : bool :=
  isControlOf i f k && Bool.eqb (isErrorStyled k) styled.

(** What [validateField] returns for a control. *)
Definition passes (k : node) : bool :=
  match payloadOf k with
  | PField f => isValid (fieldResult f)
  | _ => true
  end.

(** A node of the tree after a step comes from a node before it: same
    identity and payload, an error message if it was one, and childless
    if it was. *)
Definition comesFrom (k k' : node) : Prop :=
  nodeId k' = nodeId k /\ payloadOf k' = payloadOf k /\
  isErrorMessage k' = isErrorMessage k /\ (children k = [] -> children k' = []).

(** Error messages are leaves and no form controls. *)
Definition leafMessages (ks : list node) : Prop :=
  forall k, In k (flat_map nodes ks) -> isErrorMessage k = true ->
            children k = [] /\ isControl k = false.

(** The forms the script is written for: the elements of the form are
    distinct objects made before now, and the error messages in it are
    childless elements that are no controls (as those the script creates
    are). *)
Definition wellFormed (s : page) : Prop :=
  NoDup (map nodeId (descendants (form s))) /\
  (forall k, In k (descendants (form s)) -> nodeId k < nextId s) /\
  leafMessages (children (form s)).

(** [sel] does not see the error styling of the element [j]. *)
Definition ignores (j : nat) (sel : node -> bool) : Prop :=
  forall k, hasId j k = true ->
            sel (setClasses (removeTokens errorStyling) k) = sel k /\
            sel (setClasses (addTokens errorStyling) k) = sel k.

Definition payload_eq_dec (a b : payload) : {a = b} + {a <> b}.
Proof.
  decide equality; try apply Bool.bool_dec; try apply string_dec; apply field_eq_dec.
Defined.

(** The element [k] has the identity, the class list and the payload of
    [k0]. *)
Definition sameLabel (k0 k : node) : bool :=
  hasId (nodeId k0) k
  && (if list_eq_dec string_dec (classes k) (classes k0) then true else false)
  && (if payload_eq_dec (payloadOf k) (payloadOf k0) then true else false).

(** The error styling of the control [k] once its listener for the event
    has run: [blur] validates; [input] validates when the control is
    styled as invalid; [change] validates a checkbox. *)
Definition marked (e : event) (k : node) : bool :=
  match e with
  | Blur _ => negb (passes k)
  | InputEv _ => isErrorStyled k && negb (passes k)
  | Change _ =>
      match payloadOf k with
      | PField f =>
          if (fieldType f =? "checkbox")%string then negb (passes k)
          else isErrorStyled k
      | _ => isErrorStyled k
      end
  | _ => isErrorStyled k
  end.

(** The event is one a control listens to, on the control [i]. *)
Definition onControl (i : nat) (e : event) : bool :=
  match e with
  | Blur j | InputEv j | Change j => (j =? i)%nat
  | _ => false
  end.

(** What the script can see of an element itself: identity, class list
    and state. *)
Definition labelOf (k : node) : nat * list string * payload :=
  (nodeId k, classes k, payloadOf k).

(** The scenario of the specification: no name, a fine email, a message
    that is too short. *)
Definition scenarioPage : page :=
  mkPage (Sample.div 0
            [Sample.div 1 [Node 2 [] (PField (Sample.textInput "text" "name" "" true)) []];
             Sample.div 3 [Node 4 [] (PField (Sample.textInput "email" "email" "a@b.com" true)) []];
             Sample.div 5 [Node 6 [] (PField (Sample.messageArea (ustr "short") true)) []];
             Node 7 [] (PButton "submit" false "Nachricht senden") []])
         8 0 [].

End FormNotions.

(** ** The mobile menu

    [initMobileMenu], for a page that has the button and the menu.  The
    state holds what the script writes: the class [hidden] of the menu,
    the label and the markup of the button, the inline styles of button,
    menu and menu items (the elements [a, .mobile-menu-link] of the
    menu, in document order), the overflow of the body, and the flag
    [isAnimating] of the closure.  Callbacks handed to
    [requestAnimationFrame] wait for the next frame, which is an event. *)

Module MobileMenu.

Record style : Type := mkStyle {
  opacity : string;
  transform : string;
  transition : string
}.

(** The markup of the button: as the page has it, the X icon, the
    hamburger icon. *)
Inductive markup : Type := Authored | Cross | Bars.

(** The closures handed to [setTimeout]. *)
Inductive task : Type :=
| ShowIcon (isOpen : bool)   (* animateButtonIcon, 100 ms *)
| ItemIn (index : nat)       (* openMobileMenu, 100 + index * 50 ms *)
| ItemOut (index : nat)      (* closeMobileMenu, index * 30 ms *)
| Unlock                     (* openMobileMenu, 400 ms *)
| Hide                       (* closeMobileMenu, 300 ms *)
| LinkDone (index : nat).    (* the click listener of a link, 150 ms *)

Record state : Type := mkState {
  hidden : bool;               (* mobileMenu.classList.contains('hidden') *)
  ariaLabel : string;
  innerHTML : markup;
  buttonStyle : style;
  menuStyle : style;
  itemStyles : list style;
  overflow : string;           (* document.body.style.overflow *)
  isAnimating : bool;
  frames : nat;                (* callbacks waiting for the next frame *)
  now : Z;
  timers : list (Z * task)
}.

Definition setClock (t : Z) (q : list (Z * task)) (s : state) : state :=
  mkState (hidden s) (ariaLabel s) (innerHTML s) (buttonStyle s) (menuStyle s)
          (itemStyles s) (overflow s) (isAnimating s) (frames s) t q.

Definition setHidden (b : bool) (s : state) : state :=
  mkState b (ariaLabel s) (innerHTML s) (buttonStyle s) (menuStyle s)
          (itemStyles s) (overflow s) (isAnimating s) (frames s) (now s) (timers s).

Definition setLabel (l : string) (s : state) : state :=
  mkState (hidden s) l (innerHTML s) (buttonStyle s) (menuStyle s)
          (itemStyles s) (overflow s) (isAnimating s) (frames s) (now s) (timers s).

Definition setMarkup (m : markup) (s : state) : state :=
  mkState (hidden s) (ariaLabel s) m (buttonStyle s) (menuStyle s)
          (itemStyles s) (overflow s) (isAnimating s) (frames s) (now s) (timers s).

Definition setButtonStyle (y : style) (s : state) : state :=
  mkState (hidden s) (ariaLabel s) (innerHTML s) y (menuStyle s)
          (itemStyles s) (overflow s) (isAnimating s) (frames s) (now s) (timers s).

Definition setMenuStyle (y : style) (s : state) : state :=
  mkState (hidden s) (ariaLabel s) (innerHTML s) (buttonStyle s) y
          (itemStyles s) (overflow s) (isAnimating s) (frames s) (now s) (timers s).

Definition setItems (ys : list style) (s : state) : state :=
  mkState (hidden s) (ariaLabel s) (innerHTML s) (buttonStyle s) (menuStyle s)
          ys (overflow s) (isAnimating s) (frames s) (now s) (timers s).

Definition setOverflow (v : string) (s : state) : state :=
  mkState (hidden s) (ariaLabel s) (innerHTML s) (buttonStyle s) (menuStyle s)
          (itemStyles s) v (isAnimating s) (frames s) (now s) (timers s).

Definition setAnimating (b : bool) (s : state) : state :=
  mkState (hidden s) (ariaLabel s) (innerHTML s) (buttonStyle s) (menuStyle s)
          (itemStyles s) (overflow s) b (frames s) (now s) (timers s).

Definition setFrames (n : nat) (s : state) : state :=
  mkState (hidden s) (ariaLabel s) (innerHTML s) (buttonStyle s) (menuStyle s)
          (itemStyles s) (overflow s) (isAnimating s) n (now s) (timers s).

(** [setTimeout(k, delay)] *)
Definition schedule (k : task) (delay : Z) (s : state) : state :=
  setClock (now s) (timers s ++ [((now s + delay)%Z, k)]) s.

(** [menuItems.forEach((item, index) => setTimeout(.., due index))] *)
Definition scheduleEach (mk : nat -> task) (due : nat -> Z) (s : state) : state :=
  setClock (now s)
    (timers s ++ map (fun i => ((now s + due i)%Z, mk i))
                     (seq 0 (List.length (itemStyles s)))) s.

(** A write to the style of the menu item [index]. *)
Fixpoint updItem (index : nat) (g : style -> style) (ys : list style) : list style :=
  match ys, index with
  | [], _ => []
  | y :: r, O => g y :: r
  | y :: r, S i => y :: updItem i g r
  end.

Definition setOpacity (v : string) (y : style) : style :=
  mkStyle v (transform y) (transition y).
Definition setTransform (v : string) (y : style) : style :=
  mkStyle (opacity y) v (transition y).
Definition setTransition (v : string) (y : style) : style :=
  mkStyle (opacity y) (transform y) v.

Definition labelClose : string := "Menü schließen".
Definition labelOpen : string := "Menü öffnen".
Definition fade : string := "opacity 0.3s ease, transform 0.3s ease".

Definition animateButtonIcon (isOpen : bool) (s : state) : state :=
  schedule (ShowIcon isOpen) 100
    (setButtonStyle
       (setTransition "transform 0.2s ease"
          (setTransform "scale(0.8)" (buttonStyle s))) s).

Definition openMobileMenu (s : state) : state :=
  let s1 := setLabel labelClose (setHidden false s) in
  let s2 := animateButtonIcon true s1 in
  let s3 := setMenuStyle
              (setTransition fade
                 (setTransform "translateY(-10px)" (setOpacity "0" (menuStyle s2)))) s2 in
  let s4 := setFrames (S (frames s3)) s3 in
  let s5 := setItems
              (map (fun y => setTransition fade
                               (setTransform "translateX(-20px)" (setOpacity "0" y)))
                   (itemStyles s4)) s4 in
  let s6 := scheduleEach ItemIn (fun i => (100 + Z.of_nat i * 50)%Z) s5 in
  let s7 := setOverflow "hidden" s6 in
  schedule Unlock 400 s7.

Definition closeMobileMenu (s : state) : state :=
  let s1 := setLabel labelOpen s in
  let s2 := animateButtonIcon false s1 in
  let s3 := setMenuStyle
              (setTransform "translateY(-10px)" (setOpacity "0" (menuStyle s2))) s2 in
  let s4 := scheduleEach ItemOut (fun i => (Z.of_nat i * 30)%Z) s3 in
  let s5 := schedule Hide 300 s4 in
  setOverflow "" s5.

Definition toggleMobileMenu (s : state) : state :=
  if isAnimating s then s
  else
    let isOpen := negb (hidden s) in
    let s1 := setAnimating true s in
    if isOpen then closeMobileMenu s1 else openMobileMenu s1.

(** What the user and the browser do: a click on the button, on the link
    [index] of the menu, or outside of button and menu; a key; a resize to
    the given inner width; an animation frame.  (A click inside the menu
    that hits no link reaches no listener that acts.) *)
Inductive event : Type :=
| ClickButton
| ClickLink (index : nat)
| ClickOutside
| Keydown (key : string)
| Resize (innerWidth : Z)
| Frame.

Definition closeIfShown (s : state) : state :=
  if negb (hidden s) then closeMobileMenu s else s.

Definition handle (e : event) (s : state) : state :=
  match e with
  | ClickButton => toggleMobileMenu s
  | ClickLink i =>
      if (i <? List.length (itemStyles s))%nat then
        schedule (LinkDone i) 150
          (setItems (updItem i (setTransform "scale(0.95)") (itemStyles s)) s)
      else s
  | ClickOutside => closeIfShown s
  | Keydown key => if (key =? "Escape")%string then closeIfShown s else s
  | Resize w => if (768 <=? w)%Z then closeIfShown s else s
  | Frame =>
      if (0 <? frames s)%nat then
        setFrames 0
          (setMenuStyle
             (setTransform "translateY(0)" (setOpacity "1" (menuStyle s))) s)
      else s
  end.

Definition fire (k : task) (s : state) : state :=
  match k with
  | ShowIcon isOpen =>
      setButtonStyle (setTransform "scale(1)" (buttonStyle s))
        (setMarkup (if isOpen then Cross else Bars) s)
  | ItemIn i =>
      setItems (updItem i (fun y => setTransform "translateX(0)" (setOpacity "1" y))
                  (itemStyles s)) s
  | ItemOut i =>
      setItems (updItem i (fun y => setTransform "translateX(-20px)" (setOpacity "0" y))
                  (itemStyles s)) s
  | Unlock => setAnimating false s
  | Hide =>
      setAnimating false
        (setItems (map (fun _ => mkStyle "" "" "") (itemStyles s))
           (setMenuStyle (setTransform "" (setOpacity "" (menuStyle s)))
              (setHidden true s)))
  | LinkDone i =>
      closeMobileMenu (setItems (updItem i (setTransform "") (itemStyles s)) s)
  end.

(** A link's timer closes the menu, which sets a timer for the icon, one
    for each of the [items] menu items, and one to hide the menu. *)
Definition weight (items : nat) (k : task) : nat :=
  match k with
  | LinkDone _ => items + 3
  | _ => 1
  end.

Definition advance (t : Z) (s : state) : state :=
  Clock.advanceTo timers now setClock fire (weight (List.length (itemStyles s))) t s.

Fixpoint run (h : list (Z * event)) (s : state) : state :=
  match h with
  | [] => s
  | (t, e) :: rest => run rest (handle e (advance t s))
  end.

(** *** Notions *)

(** The timers of the menu items write styles only. *)
Definition steers (k : task) : bool :=
  match k with
  | ItemIn _ | ItemOut _ => false
  | _ => true
  end.

(** The menu is at rest: no animation is under way and no timer is
    pending but those of the menu items. *)
Definition idle (s : state) : Prop :=
  isAnimating s = false /\ forall x, In x (timers s) -> steers (snd x) = false.

(** What a user, or a screen reader, gets of the menu. *)
Definition facts (s : state) : bool * string * markup * string :=
  (hidden s, ariaLabel s, innerHTML s, overflow s).

Definition opened : bool * string * markup * string :=
  (false, labelClose, Cross, "hidden"%string).
Definition closed : bool * string * markup * string :=
  (true, labelOpen, Bars, ""%string).

(** The event makes the script act, and it makes the script open the
    menu. *)
Definition acts (e : event) (s : state) : bool :=
  match e with
  | ClickButton => true
  | ClickLink i => (i <? List.length (itemStyles s))%nat
  | ClickOutside => negb (hidden s)
  | Keydown key => (key =? "Escape")%string && negb (hidden s)
  | Resize w => (768 <=? w)%Z && negb (hidden s)
  | Frame => false
  end.

Definition opens (e : event) (s : state) : bool :=
  match e with
  | ClickButton => hidden s
  | _ => false
  end.


(** Where the menu stands after an event at [t0]: opening, with the icon
    and the unlocking to come; waiting for the timer of a clicked link;
    closing since [c], with the icon and the hiding to come. *)
Inductive phase : Type :=
| Opening1 | Opening2 | Open
| Linking (i : nat)
| Closing1 (c : Z) | Closing2 (c : Z) | Closed.

Definition pendingOf (t0 : Z) (p : phase) : list (Z * task) :=
  match p with
  | Opening1 => [((t0 + 100)%Z, ShowIcon true); ((t0 + 400)%Z, Unlock)]
  | Opening2 => [((t0 + 400)%Z, Unlock)]
  | Open => []
  | Linking i => [((t0 + 150)%Z, LinkDone i)]
  | Closing1 c => [((c + 100)%Z, ShowIcon false); ((c + 300)%Z, Hide)]
  | Closing2 c => [((c + 300)%Z, Hide)]
  | Closed => []
  end.

Definition fieldsOf (t0 : Z) (p : phase) (s : state) : Prop :=
  match p with
  | Opening1 => hidden s = false /\ ariaLabel s = labelClose /\ overflow s = "hidden"%string
  | Opening2 =>
      hidden s = false /\ ariaLabel s = labelClose /\ overflow s = "hidden"%string /\
      innerHTML s = Cross
  | Open => facts s = opened /\ isAnimating s = false
  | Linking _ => True
  | Closing1 c =>
      ariaLabel s = labelOpen /\ overflow s = ""%string /\ (c <= t0 + 150)%Z
  | Closing2 c =>
      ariaLabel s = labelOpen /\ overflow s = ""%string /\ innerHTML s = Bars /\
      (c <= t0 + 150)%Z
  | Closed => facts s = closed /\ isAnimating s = false
  end.

Definition isOpening (p : phase) : bool :=
  match p with
  | Opening1 | Opening2 | Open => true
  | _ => false
  end.

Definition inPhase (t0 : Z) (p : phase) (s : state) : Prop :=
  filter (fun x => steers (snd x)) (timers s) = pendingOf t0 p /\
  Forall (fun x => (now s <= fst x)%Z) (pendingOf t0 p) /\
  fieldsOf t0 p s.

(** The first phase after an event that makes the script act. *)
Definition firstPhase (e : event) (s : state) : phase :=
  match e with
  | ClickButton => if hidden s then Opening1 else Closing1 (now s)
  | ClickLink i => Linking i
  | _ => Closing1 (now s)
  end.

(** The timer that ends the animation a click on the button at [t0] has
    begun. *)
Definition unlocking (wasHidden : bool) (t0 : Z) : Z * task :=
  if wasHidden then ((t0 + 400)%Z, Unlock) else ((t0 + 300)%Z, Hide).

(** A page with three links in the menu, the menu closed. *)
Definition closedMenu : state :=
  mkState true labelOpen Authored (mkStyle "" "" "") (mkStyle "" "" "")
          [mkStyle "" "" ""; mkStyle "" "" ""; mkStyle "" "" ""] "" false 0 0 [].

End MobileMenu.

(** * Part II: the proofs *)

(** *** Correctness of the matcher *)

Section RegexFacts.

Lemma lang_cat_inv (r1 r2 : regex) (s : jsstring) :
  lang (Cat r1 r2) s ->
  exists s1 s2, s = s1 ++ s2 /\ lang r1 s1 /\ lang r2 s2.
Proof. intro H. inversion H; subst. eauto. Qed.

Lemma lang_alt_inv (r1 r2 : regex) (s : jsstring) :
  lang (Alt r1 r2) s -> lang r1 s \/ lang r2 s.
Proof. intro H. inversion H; subst; auto. Qed.

Lemma lang_class_inv (p : char -> bool) (s : jsstring) :
  lang (Class p) s -> exists c, s = [c] /\ p c = true.
Proof. intro H. inversion H; subst. eauto. Qed.

Lemma lang_eps_inv (s : jsstring) : lang Eps s -> s = [].
Proof. intro H. inversion H; subst. reflexivity. Qed.

Lemma lang_void_inv (s : jsstring) : ~ lang Void s.
Proof. intro H. inversion H. Qed.

Lemma nullable_lang (r : regex) : nullable r = true <-> lang r [].
Proof.
  induction r as [| | p | r1 IH1 r2 IH2 | r1 IH1 r2 IH2 | r1 IH1]; simpl.
  - split; intro H; [discriminate | now apply lang_void_inv in H].
  - split; auto with regex.
  - split; intro H; [discriminate |].
    apply lang_class_inv in H as (c & E & _). discriminate.
  - split; intro H.
    + apply andb_prop in H as [H1 H2].
      change (@nil char) with (@nil char ++ []).
      constructor; [apply IH1 | apply IH2]; assumption.
    + apply lang_cat_inv in H as (s1 & s2 & E & A & B).
      symmetry in E. apply app_eq_nil in E as [-> ->].
      apply andb_true_intro; split; [apply IH1 | apply IH2]; assumption.
  - split; intro H.
    + apply orb_prop in H as [H | H];
        [apply L_alt_l, IH1 | apply L_alt_r, IH2]; assumption.
    + apply orb_true_intro.
      apply lang_alt_inv in H as [H | H];
        [left; apply IH1 | right; apply IH2]; assumption.
  - split; auto with regex.
Qed.

Lemma lang_cons_star (r : regex) (c : char) (s : jsstring) :
  lang (Star r) (c :: s) ->
  exists s1 s2, s = s1 ++ s2 /\ lang r (c :: s1) /\ lang (Star r) s2.
Proof.
  intro H. remember (Star r) as q eqn:Eq. remember (c :: s) as w eqn:Ew.
  induction H as [| | | | | | r0 s1 s2 H1 _ H2 IH2]; try discriminate.
  injection Eq as ->.
  destruct s1 as [| c1 s1].
  - simpl in Ew. apply IH2; auto.
  - simpl in Ew. injection Ew as -> <-.
    exists s1, s2. auto.
Qed.

Lemma lang_cat_cons (r1 r2 : regex) (c : char) (s1 s2 : jsstring) :
  lang r1 (c :: s1) -> lang r2 s2 -> lang (Cat r1 r2) (c :: s1 ++ s2).
Proof.
  intros A B. change (c :: s1 ++ s2) with ((c :: s1) ++ s2).
  constructor; assumption.
Qed.

Lemma deriv_lang (r : regex) :
  forall c s, lang (deriv c r) s <-> lang r (c :: s).
Proof.
  induction r as [| | p | r1 IH1 r2 IH2 | r1 IH1 r2 IH2 | r1 IH1];
    intros c s; simpl.
  - split; intro H; now apply lang_void_inv in H.
  - split; intro H; [now apply lang_void_inv in H |].
    apply lang_eps_inv in H. discriminate.
  - destruct (p c) eqn:Ep; split; intro H.
    + apply lang_eps_inv in H as ->. constructor; assumption.
    + apply lang_class_inv in H as (c' & E & _).
      injection E as _ ->. constructor.
    + now apply lang_void_inv in H.
    + apply lang_class_inv in H as (c' & E & Hp).
      injection E as <- _. congruence.
  - destruct (nullable r1) eqn:En; split; intro H.
    + apply lang_alt_inv in H as [H | H].
      * apply lang_cat_inv in H as (s1 & s2 & -> & A & B).
        apply lang_cat_cons; [apply IH1 |]; assumption.
      * apply IH2 in H. apply nullable_lang in En.
        change (c :: s) with ([] ++ c :: s). constructor; assumption.
    + apply lang_cat_inv in H as (s1 & s2 & E & A & B).
      destruct s1 as [| c1 s1]; simpl in E.
      * subst s2. apply L_alt_r, IH2. assumption.
      * injection E as <- ->.
        apply L_alt_l. constructor; [apply IH1 |]; assumption.
    + apply lang_cat_inv in H as (s1 & s2 & -> & A & B).
      apply lang_cat_cons; [apply IH1 |]; assumption.
    + apply lang_cat_inv in H as (s1 & s2 & E & A & B).
      destruct s1 as [| c1 s1]; simpl in E.
      * apply nullable_lang in A. congruence.
      * injection E as <- ->.
        constructor; [apply IH1 |]; assumption.
  - split; intro H; apply lang_alt_inv in H as [H | H];
      solve [apply L_alt_l, IH1; assumption | apply L_alt_r, IH2; assumption].
  - split; intro H.
    + apply lang_cat_inv in H as (s1 & s2 & -> & A & B).
      change (c :: s1 ++ s2) with ((c :: s1) ++ s2).
      apply L_star_app; [apply IH1 |]; assumption.
    + apply lang_cons_star in H as (s1 & s2 & -> & A & B).
      constructor; [apply IH1 |]; assumption.
Qed.

(** [test] decides the language. *)
Lemma test_lang (s : jsstring) : forall r, test r s = true <-> lang r s.
Proof.
  induction s as [| c s IH]; intro r; simpl.
  - apply nullable_lang.
  - rewrite IH. apply deriv_lang.
Qed.

End RegexFacts.

(** *** Patterns built from one character class *)

Section ClassPatterns.

Variable p : char -> bool.

Lemma lang_star_class (s : jsstring) :
  lang (Star (Class p)) s <-> forallb p s = true.
Proof.
  split.
  - intro H. remember (Star (Class p)) as q eqn:Eq.
    induction H as [| | | | | | r s1 s2 H1 _ H2 IH2]; try discriminate.
    + reflexivity.
    + injection Eq as ->.
      apply lang_class_inv in H1 as (c & -> & Hc).
      simpl. rewrite Hc. apply IH2. reflexivity.
  - induction s as [| c s IH]; simpl; intro H.
    + constructor.
    + apply andb_prop in H as [Hc Hs].
      change (c :: s) with ([c] ++ s).
      apply L_star_app; [constructor; assumption | apply IH; assumption].
Qed.

Lemma lang_atleast_class (n : nat) :
  forall s, lang (AtLeast n (Class p)) s <-> n <= List.length s /\ forallb p s = true.
Proof.
  induction n as [| n IH]; intro s; simpl.
  - rewrite lang_star_class. split; [intro H; split; [lia | exact H] | tauto].
  - split.
    + intro H. apply lang_cat_inv in H as (s1 & s2 & -> & A & B).
      apply lang_class_inv in A as (c & -> & Hc).
      apply IH in B as [Hl Hs]. simpl. rewrite Hc. split; [lia | exact Hs].
    + intros [Hl Hs]. destruct s as [| c s]; simpl in *; [lia |].
      apply andb_prop in Hs as [Hc Hs].
      change (c :: s) with ([c] ++ s).
      constructor; [constructor; assumption | apply IH; split; [lia | assumption]].
Qed.

Lemma lang_plus_class (s : jsstring) :
  lang (Plus (Class p)) s <-> s <> [] /\ forallb p s = true.
Proof.
  change (Plus (Class p)) with (AtLeast 1 (Class p)).
  rewrite lang_atleast_class.
  destruct s; simpl; split; intros [A B]; split;
    try lia; try assumption; try congruence.
Qed.

End ClassPatterns.

(** ** Facts about the tree operations *)

Section TreeFacts.

(** An induction principle that reaches the children. *)
Lemma node_ind' (P : node -> Prop) :
  (forall i c d ks, Forall P ks -> P (Node i c d ks)) -> forall n, P n.
Proof.
  intro H. fix IH 1. intros [i c d ks]. apply H.
  induction ks as [| k ks IHks]; constructor; [apply IH | exact IHks].
Qed.

Lemma nodes_self (n : node) : In n (nodes n).
Proof. destruct n; simpl; auto. Qed.

Lemma descendants_nodes (n : node) : nodes n = n :: descendants n.
Proof. destruct n; reflexivity. Qed.

Lemma kid_descendant (n k : node) : In k (children n) -> In k (descendants n).
Proof.
  intro H. unfold descendants. apply in_flat_map. exists k. split; [exact H |].
  apply nodes_self.
Qed.

Lemma hasKid_In (i : nat) (ks : list node) :
  hasKid i ks = true <-> exists k, In k ks /\ nodeId k = i.
Proof.
  unfold hasKid, hasId. rewrite existsb_exists.
  split; intros (k & Hk & E); exists k; split; auto;
    apply Nat.eqb_eq; assumption.
Qed.

Lemma firstSome_some {A B : Type} (f : A -> option B) (l : list A) (b : B) :
  firstSome f l = Some b -> exists x, In x l /\ f x = Some b.
Proof.
  induction l as [| x l IH]; simpl; [discriminate |].
  destruct (f x) as [b' |] eqn:E.
  - intros [= <-]. exists x. auto.
  - intro H. destruct (IH H) as (y & Hy & Ey). exists y. auto.
Qed.

Lemma firstSome_none {A B : Type} (f : A -> option B) (l : list A) :
  firstSome f l = None <-> forall x, In x l -> f x = None.
Proof.
  induction l as [| x l IH]; simpl.
  - split; [intros _ y [] | reflexivity].
  - destruct (f x) as [b |] eqn:E.
    + split; [discriminate |]. intro H. rewrite <- E. apply H. auto.
    + rewrite IH. split.
      * intros H y [<- | Hy]; auto.
      * intros H y Hy. apply H. auto.
Qed.

(** The parent of a node is found among the nodes of the tree. *)
Lemma parentKids_found (i : nat) (n : node) :
  forall ks, parentKids i n = Some ks ->
             hasKid i ks = true /\ exists p, In p (nodes n) /\ children p = ks.
Proof.
  induction n as [j c d kids IH] using node_ind'. intros ks H. simpl in H.
  destruct (hasKid i kids) eqn:Ek.
  - injection H as <-. split; [exact Ek |].
    exists (Node j c d kids). split; [apply nodes_self | reflexivity].
  - apply firstSome_some in H as (k & Hk & Ep).
    rewrite Forall_forall in IH.
    destruct (IH k Hk ks Ep) as (Hh & p & Hp & Hc).
    split; [exact Hh |]. exists p. split; [| exact Hc].
    simpl. right. apply in_flat_map. exists k. auto.
Qed.

Lemma nodes_trans (n p k : node) : In p (nodes n) -> In k (nodes p) -> In k (nodes n).
Proof.
  revert p k. induction n as [j c d kids IH] using node_ind'. intros p k Hp Hk.
  simpl in Hp. destruct Hp as [<- | Hp]; [exact Hk |].
  simpl. right. apply in_flat_map in Hp as (q & Hq & Hpq).
  apply in_flat_map. exists q. split; [exact Hq |].
  rewrite Forall_forall in IH. exact (IH q Hq p k Hpq Hk).
Qed.

Lemma descendants_trans (n p k : node) :
  In p (nodes n) -> In k (descendants p) -> In k (descendants n).
Proof.
  intros Hp Hk. rewrite descendants_nodes in Hp. destruct Hp as [<- | Hp]; [exact Hk |].
  unfold descendants in Hp. apply in_flat_map in Hp as (q & Hq & Hpq).
  unfold descendants at 1. apply in_flat_map. exists q. split; [exact Hq |].
  apply nodes_trans with p; [exact Hpq |].
  rewrite descendants_nodes. right. exact Hk.
Qed.

(** The children of the parent of [i] are descendants of the form. *)
Lemma parentKids_descendants (i : nat) (n : node) (ks : list node) (k : node) :
  parentKids i n = Some ks -> In k ks -> In k (descendants n).
Proof.
  intros H Hk. apply parentKids_found in H as (_ & p & Hp & <-).
  apply descendants_trans with p; [exact Hp |]. apply kid_descendant. exact Hk.
Qed.

Lemma replace_in_kids (i : nat) (kids : list node) :
  Forall (replaceSpec i) kids ->
  forall new,
  (firstSome (parentKids i) kids = None ->
   replaceFirst (replaceParentKids i new) kids = None) /\
  (forall ks, firstSome (parentKids i) kids = Some ks ->
     exists kids', replaceFirst (replaceParentKids i new) kids = Some kids' /\
                   hasKid i kids' = hasKid i kids /\
                   (hasKid i new = true ->
                    firstSome (parentKids i) kids' = Some new /\
                    forall new2, replaceFirst (replaceParentKids i new2) kids' =
                                 replaceFirst (replaceParentKids i new2) kids)).
Proof.
  induction 1 as [| k kids Hk _ IH]; intro new; simpl.
  - split; [reflexivity | discriminate].
  - destruct (Hk new) as [Hn Hs]. destruct (IH new) as [IHn IHs].
    destruct (parentKids i k) as [ks0 |] eqn:Ep.
    + split; [discriminate |]. intros ks [= <-].
      destruct (Hs _ eq_refl) as (k' & Er & Ei & Hp). rewrite Er.
      exists (k' :: kids). split; [reflexivity |]. split.
      * simpl. unfold hasId. rewrite Ei. reflexivity.
      * intro Hnew. destruct (Hp Hnew) as [Hp1 Hp2]. simpl. rewrite Hp1.
        split; [reflexivity |]. intro new2. rewrite Hp2.
        destruct (Hk new2) as [_ Hs2].
        destruct (Hs2 _ Ep) as (k2 & Er2 & _). rewrite Er2. reflexivity.
    + rewrite (Hn eq_refl). split.
      * intro H. rewrite (IHn H). reflexivity.
      * intros ks H. destruct (IHs _ H) as (kids' & Er & Eh & Hp). rewrite Er.
        exists (k :: kids'). split; [reflexivity |]. split.
        -- simpl. rewrite Eh. reflexivity.
        -- intro Hnew. destruct (Hp Hnew) as [Hp1 Hp2]. simpl. rewrite Ep.
           split; [exact Hp1 |]. intro new2.
           destruct (Hk new2) as [Hn2 _]. rewrite (Hn2 Ep), Hp2. reflexivity.
Qed.

Lemma replaceParentKids_spec (i : nat) (n : node) : replaceSpec i n.
Proof.
  induction n as [j c d kids IH] using node_ind'. intro new. simpl.
  destruct (hasKid i kids) eqn:Ek.
  - split; [discriminate |]. intros ks [= <-].
    exists (Node j c d new). split; [reflexivity |]. split; [reflexivity |].
    intro Hnew. simpl. rewrite Hnew. split; reflexivity.
  - destruct (replace_in_kids IH new) as [Hn Hs]. split.
    + intro H. rewrite (Hn H). reflexivity.
    + intros ks H. destruct (Hs _ H) as (kids' & Er & Eh & Hp). rewrite Er.
      exists (Node j c d kids'). split; [reflexivity |]. split; [reflexivity |].
      intro Hnew. destruct (Hp Hnew) as [Hp1 Hp2]. simpl. rewrite Eh, Ek.
      split; [exact Hp1 |]. intro new2. rewrite Hp2. reflexivity.
Qed.

(** After the children of the parent of [i] were replaced by a list that
    still holds [i], the parent of [i] has exactly those children. *)
Lemma parentKids_setParentKids (i : nat) (new ks : list node) (n : node) :
  parentKids i n = Some ks -> hasKid i new = true ->
  parentKids i (setParentKids i new n) = Some new.
Proof.
  intros H Hnew. destruct (replaceParentKids_spec i n new) as [_ Hs].
  destruct (Hs _ H) as (n' & Er & _ & Hp).
  unfold setParentKids. rewrite Er. apply (Hp Hnew).
Qed.

(** Replacing them a second time forgets the first replacement. *)
Lemma setParentKids_twice (i : nat) (new new2 ks : list node) (n : node) :
  parentKids i n = Some ks -> hasKid i new = true ->
  setParentKids i new2 (setParentKids i new n) = setParentKids i new2 n.
Proof.
  intros H Hnew. destruct (replaceParentKids_spec i n new) as [_ Hs].
  destruct (Hs _ H) as (n' & Er & _ & Hp). destruct (Hp Hnew) as [_ Hp2].
  unfold setParentKids at 2. rewrite Er.
  unfold setParentKids. rewrite Hp2.
  destruct (replaceParentKids_spec i n new2) as [_ Hs2].
  destruct (Hs2 _ H) as (n2 & Er2 & _). rewrite Er2. reflexivity.
Qed.

End TreeFacts.

(** ** What the patterns accept *)

Section PatternShapes.

Lemma isChar_eq (k : N) (c : char) : isChar k c = true <-> c = k.
Proof. unfold isChar. apply N.eqb_eq. Qed.

Lemma notSpaceAt_not_at (l : jsstring) : forallb notSpaceAt l = true -> ~ In 64%N l.
Proof.
  intros H Hin. rewrite forallb_forall in H. specialize (H _ Hin).
  unfold notSpaceAt, isChar in H. rewrite N.eqb_refl, orb_true_r in H. discriminate.
Qed.

Lemma emailRegex_shape (v : jsstring) : test emailRegex v = true <-> emailShape v.
Proof.
  rewrite test_lang. unfold emailRegex, emailShape. split.
  - intro H.
    apply lang_cat_inv in H as (l & r1 & -> & Hl & H).
    apply lang_cat_inv in H as (a & r2 & -> & Ha & H).
    apply lang_cat_inv in H as (d & r3 & -> & Hd & H).
    apply lang_cat_inv in H as (b & t & -> & Hb & Ht).
    apply lang_class_inv in Ha as (ca & -> & Ea). apply isChar_eq in Ea as ->.
    apply lang_class_inv in Hb as (cb & -> & Eb). apply isChar_eq in Eb as ->.
    apply lang_plus_class in Hl as [Hl1 Hl2].
    apply lang_plus_class in Hd as [Hd1 Hd2].
    apply lang_plus_class in Ht as [Ht1 Ht2].
    exists l, d, t. simpl. auto 10.
  - intros (l & d & t & -> & Hl & Hd & Ht & Fl & Fd & Ft).
    constructor; [apply lang_plus_class; auto |].
    change (64%N :: d ++ 46%N :: t) with ([64%N] ++ d ++ [46%N] ++ t).
    constructor; [constructor; reflexivity |].
    constructor; [apply lang_plus_class; auto |].
    constructor; [constructor; reflexivity |].
    apply lang_plus_class; auto.
Qed.

Lemma split_at_unique (x : char) (l L d R : jsstring) :
  ~ In x L -> ~ In x R -> l ++ x :: d = L ++ x :: R -> l = L /\ d = R.
Proof.
  revert L. induction l as [| a l IH]; intros [| b L] HL HR E; simpl in E.
  - injection E as ->. auto.
  - injection E as <- _. exfalso. apply HL. left. reflexivity.
  - injection E as -> <-. exfalso. apply HR. apply in_or_app. right. left. reflexivity.
  - injection E as -> E. destruct (IH L) as [-> ->]; auto.
    intro Hin. apply HL. right. exact Hin.
Qed.

Lemma emailShape_at (v : jsstring) : emailShape v -> In 64%N v.
Proof.
  intros (l & d & t & -> & _). apply in_or_app. right. left. reflexivity.
Qed.

Lemma emailShape_domain_dot (v l d : jsstring) :
  emailShape v -> v = l ++ 64%N :: d -> In 46%N d.
Proof.
  intros (L & D & T & -> & _ & _ & _ & FL & FD & FT) E.
  symmetry in E. apply split_at_unique in E as [_ ->].
  - apply in_or_app. right. left. reflexivity.
  - apply notSpaceAt_not_at. exact FL.
  - intro Hin. apply in_app_or in Hin as [Hin | [Hin | Hin]].
    + revert Hin. apply notSpaceAt_not_at. exact FD.
    + discriminate.
    + revert Hin. apply notSpaceAt_not_at. exact FT.
Qed.

Lemma phoneRegex_shape (v : jsstring) : test phoneRegex v = true <-> phoneShape v.
Proof.
  rewrite test_lang. unfold phoneRegex, phoneShape, Opt. split.
  - intro H. apply lang_cat_inv in H as (a & body & -> & Ha & Hb).
    apply lang_atleast_class in Hb. exists body. split; [| exact Hb].
    apply lang_alt_inv in Ha as [Ha | Ha].
    + apply lang_class_inv in Ha as (c & -> & Ec). apply isChar_eq in Ec as ->.
      right. reflexivity.
    + apply lang_eps_inv in Ha as ->. left. reflexivity.
  - intros (body & [-> | ->] & Hb); apply lang_atleast_class in Hb.
    + change body with ([] ++ body). constructor; [| exact Hb].
      apply L_alt_r. constructor.
    + change (43%N :: body) with ([43%N] ++ body). constructor; [| exact Hb].
      apply L_alt_l. constructor. reflexivity.
Qed.

(** The strings of [nameRegex]: two or more characters of the class. *)
Lemma nameRegex_shape (v : jsstring) :
  test nameRegex v = true <-> 2 <= List.length v /\ forallb nameClass v = true.
Proof. rewrite test_lang. apply lang_atleast_class. Qed.

End PatternShapes.

(** ** Class lists *)

Section ClassFacts.

Lemma existsb_eqb_In (x : string) (l : list string) :
  existsb (String.eqb x) l = true <-> In x l.
Proof.
  rewrite existsb_exists. split.
  - intros (y & Hy & E). apply String.eqb_eq in E. subst. exact Hy.
  - intro H. exists x. split; [exact H | apply String.eqb_refl].
Qed.

Lemma In_removeTokens (x : string) (ts c : list string) :
  In x (removeTokens ts c) <-> In x c /\ ~ In x ts.
Proof.
  unfold removeTokens. rewrite filter_In, negb_true_iff.
  rewrite <- not_true_iff_false, existsb_eqb_In. tauto.
Qed.

Lemma In_addTokens (x : string) (ts : list string) :
  forall c, In x (addTokens ts c) <-> In x c \/ In x ts.
Proof.
  induction ts as [| t ts IH]; intro c; simpl.
  - tauto.
  - rewrite IH. destruct (existsb (String.eqb t) c) eqn:E.
    + apply existsb_eqb_In in E. split; [tauto |].
      intros [H | [<- | H]]; auto.
    + rewrite in_app_iff. simpl. tauto.
Qed.

Lemma hasClass_In (cls : string) (n : node) :
  hasClass cls n = true <-> In cls (classes n).
Proof. apply existsb_eqb_In. Qed.

Lemma hasClass_ext (cls : string) (n n' : node) :
  (In cls (classes n) <-> In cls (classes n')) -> hasClass cls n = hasClass cls n'.
Proof.
  intro H. apply eq_true_iff_eq. rewrite !hasClass_In. exact H.
Qed.

Lemma classes_setClasses (g : list string -> list string) (n : node) :
  classes (setClasses g n) = g (classes n).
Proof. destruct n; reflexivity. Qed.

(** Removing or adding the error styling does not touch another class. *)
Lemma hasClass_unstyle (cls : string) (n : node) :
  ~ In cls errorStyling ->
  hasClass cls (setClasses (removeTokens errorStyling) n) = hasClass cls n.
Proof.
  intro H. apply hasClass_ext. rewrite classes_setClasses, In_removeTokens. tauto.
Qed.

Lemma hasClass_style (cls : string) (n : node) :
  ~ In cls errorStyling ->
  hasClass cls (setClasses (addTokens errorStyling) n) = hasClass cls n.
Proof.
  intro H. apply hasClass_ext. rewrite classes_setClasses, In_addTokens. tauto.
Qed.

Lemma not_styling_error_message : ~ In "error-message" errorStyling.
Proof. simpl. intros [H | [H | []]]; discriminate. Qed.

Lemma not_styling_form_message : ~ In "form-message" errorStyling.
Proof. simpl. intros [H | [H | []]]; discriminate. Qed.

Lemma nodeId_setClasses (g : list string -> list string) (n : node) :
  nodeId (setClasses g n) = nodeId n.
Proof. destruct n; reflexivity. Qed.

Lemma nodeId_setPayload (g : payload -> payload) (n : node) :
  nodeId (setPayload g n) = nodeId n.
Proof. destruct n; reflexivity. Qed.

End ClassFacts.

(** ** validateField returns *)

Section ValidateFieldReturns.

Lemma hasKid_updKid (i : nat) (g : node -> node) (ks : list node) :
  (forall k, nodeId (g k) = nodeId k) -> hasKid i (updKid i g ks) = hasKid i ks.
Proof.
  intro Hg. unfold hasKid, updKid. induction ks as [| k ks IH]; simpl; [reflexivity |].
  rewrite IH. f_equal. destruct (hasId i k) eqn:E; [| exact E].
  unfold hasId in *. rewrite Hg. exact E.
Qed.

Lemma removeFirstUnder_id (sel : node -> bool) (n n' : node) :
  removeFirstUnder sel n = Some n' -> nodeId n' = nodeId n.
Proof.
  destruct n as [j c d ks]. simpl.
  destruct (removeFirstIn sel (removeFirstUnder sel) ks); simpl; [| discriminate].
  intros [= <-]. reflexivity.
Qed.

Lemma removeFirst_hasKid (sel : node -> bool) (i : nat) (ks : list node) :
  forall ks', removeFirst sel ks = Some ks' ->
  forallb (fun k => negb (hasId i k && sel k)) ks = true ->
  hasKid i ks' = hasKid i ks.
Proof.
  unfold removeFirst, hasKid.
  induction ks as [| k ks IH]; simpl; intros ks' H F; [discriminate |].
  apply andb_prop in F as [Fk F].
  destruct (sel k) eqn:Es.
  - injection H as <-. rewrite andb_true_r in Fk.
    apply negb_true_iff in Fk. rewrite Fk. reflexivity.
  - destruct (removeFirstUnder sel k) as [k' |] eqn:Eu.
    + injection H as <-. simpl. unfold hasId.
      rewrite (removeFirstUnder_id _ _ Eu). reflexivity.
    + destruct (removeFirstIn sel (removeFirstUnder sel) ks) as [r |] eqn:Er;
        simpl in H; [| discriminate].
      injection H as <-. simpl. rewrite (IH r eq_refl F). reflexivity.
Qed.

Lemma clearFieldError_hasKid (i : nat) (ks : list node) :
  hasKid i ks = true ->
  forallb (fun k => negb (hasId i k && isErrorMessage k)) ks = true ->
  hasKid i (clearFieldError i ks) = true.
Proof.
  intros Hk F. unfold clearFieldError.
  set (ks1 := updKid i (setClasses (removeTokens errorStyling)) ks).
  assert (H1 : hasKid i ks1 = true).
  { unfold ks1. rewrite hasKid_updKid; [exact Hk | apply nodeId_setClasses]. }
  destruct (removeFirst isErrorMessage ks1) as [ks2 |] eqn:Er; [| exact H1].
  rewrite (removeFirst_hasKid _ i _ Er); [exact H1 |].
  unfold ks1, updKid. clear -F. induction ks as [| k ks IH]; simpl; [reflexivity |].
  simpl in F. apply andb_prop in F as [Fk F]. rewrite (IH F), andb_true_r.
  destruct (hasId i k) eqn:E; [| rewrite E; reflexivity].
  unfold hasId in *. rewrite nodeId_setClasses, E. simpl in *.
  unfold isErrorMessage in *.
  rewrite hasClass_unstyle; [exact Fk | apply not_styling_error_message].
Qed.

Lemma showFieldError_hasKid (i fresh : nat) (msg : string) (ks : list node) :
  hasKid i ks = true -> hasKid i (showFieldError i fresh msg ks) = true.
Proof.
  intro H. unfold showFieldError, hasKid. rewrite existsb_app.
  fold (hasKid i (updKid i (setClasses (addTokens errorStyling)) ks)).
  rewrite hasKid_updKid; [rewrite H; reflexivity | apply nodeId_setClasses].
Qed.

Lemma validateField_valid (i : nat) (f : field) (s : page) :
  controlAt i f s -> isValid (fieldResult f) = true -> accepts i s.
Proof.
  intros (ks & Hp & Hf & _) Hv. unfold accepts, validateField.
  rewrite Hp, Hf, Hv. eexists. reflexivity.
Qed.

Lemma validateField_invalid (i : nat) (f : field) (s : page) :
  controlAt i f s -> isValid (fieldResult f) = false ->
  reports i (errorMessage (fieldResult f)) s.
Proof.
  intros (ks & Hp & Hf & F) Hv. unfold reports, validateField.
  rewrite Hp, Hf, Hv.
  assert (Hk : hasKid i ks = true) by (apply (parentKids_found _ _ Hp)).
  rewrite (clearFieldError_hasKid _ _ Hk F).
  eexists. split; [reflexivity |]. simpl.
  eapply parentKids_descendants.
  - eapply parentKids_setParentKids; [exact Hp |].
    apply showFieldError_hasKid, clearFieldError_hasKid; assumption.
  - unfold showFieldError. apply in_or_app. right. left. reflexivity.
Qed.

(** [validateField] is a function: it cannot both accept and report. *)
Lemma accepts_not_reports (i : nat) (msg : string) (s : page) :
  accepts i s -> ~ reports i msg s.
Proof. intros (s1 & E1) (s2 & E2 & _). rewrite E1 in E2. discriminate. Qed.

End ValidateFieldReturns.

(** ** The result computed for each kind of field *)

Section FieldResults.

Lemma truthy_nonempty (v : jsstring) : v <> [] -> truthy v = true.
Proof. destruct v; [congruence | reflexivity]. Qed.

Lemma trimStart_whitespace (v : jsstring) :
  forallb isWhiteSpace v = true -> trimStart v = [].
Proof.
  induction v as [| c v IH]; simpl; [reflexivity |].
  intro H. apply andb_prop in H as [Hc Hv]. rewrite Hc. exact (IH Hv).
Qed.

(** An empty or white-space-only value is empty once trimmed. *)
Lemma trimmedValue_whitespace (f : field) :
  forallb isWhiteSpace (value f) = true -> trimmedValue f = [].
Proof.
  intro H. unfold trimmedValue. destruct (truthy (value f)); [| reflexivity].
  unfold trim. rewrite (trimStart_whitespace _ H). reflexivity.
Qed.

(** An [input] is the only control whose type is neither [textarea] nor
    [select-one]. *)
Lemma fieldType_input (f : field) (ty : string) :
  fieldType f = ty -> ty <> "textarea" -> ty <> "select-one" -> tagName f = "INPUT".
Proof.
  unfold fieldType, tagName. destruct (ctrl f); intros <- H1 H2; congruence.
Qed.

Ltac field_result H Hv :=
  unfold fieldResult, requiredCheck, typeCheck, lengthCheck;
  rewrite ?H, ?(truthy_nonempty Hv); cbn [String.eqb Ascii.eqb Bool.eqb andb negb];
  rewrite ?andb_false_r; cbn [isValid andb].

Lemma fieldResult_email (f : field) :
  fieldType f = "email" -> trimmedValue f <> [] ->
  fieldResult f =
    if test emailRegex (trimmedValue f) then mkResult true ""
    else mkResult false msgEmailInvalid.
Proof.
  intros H Hv. field_result H Hv.
  rewrite (fieldType_input f H) by discriminate.
  destruct (test emailRegex (trimmedValue f)); reflexivity.
Qed.

Lemma fieldResult_tel (f : field) :
  fieldType f = "tel" -> trimmedValue f <> [] ->
  fieldResult f =
    if test phoneRegex (trimmedValue f) then mkResult true ""
    else mkResult false msgPhoneInvalid.
Proof.
  intros H Hv. field_result H Hv.
  rewrite (fieldType_input f H) by discriminate.
  destruct (test phoneRegex (trimmedValue f)); reflexivity.
Qed.

Lemma fieldResult_name (f : field) :
  fieldType f = "text" -> name f = "name" -> trimmedValue f <> [] ->
  fieldResult f =
    if test nameRegex (trimmedValue f) then mkResult true ""
    else mkResult false msgNameInvalid.
Proof.
  intros H Hn Hv. field_result H Hv.
  rewrite (fieldType_input f H) by discriminate. rewrite Hn.
  destruct (test nameRegex (trimmedValue f)); reflexivity.
Qed.

Lemma fieldResult_message (f : field) :
  ctrl f = Textarea -> name f = "message" -> trimmedValue f <> [] ->
  fieldResult f =
    if (List.length (trimmedValue f) <? 10)%nat then mkResult false msgTooShort
    else if (1000 <? List.length (trimmedValue f))%nat then mkResult false msgTooLong
    else mkResult true "".
Proof.
  intros H Hn Hv.
  assert (Ht : fieldType f = "textarea") by (unfold fieldType; rewrite H; reflexivity).
  field_result Ht Hv. unfold tagName. rewrite H, Hn. reflexivity.
Qed.

Lemma fieldResult_required_empty (f : field) :
  required f = true -> fieldType f <> "checkbox" -> trimmedValue f = [] ->
  fieldResult f = mkResult false (requiredMessage (name f)).
Proof.
  intros Hr Ht Hv. unfold fieldResult, requiredCheck. rewrite Hr, Hv.
  apply String.eqb_neq in Ht. rewrite Ht. reflexivity.
Qed.

Lemma fieldResult_checkbox (f : field) :
  fieldType f = "checkbox" -> required f = true ->
  fieldResult f =
    if checked f then mkResult true "" else mkResult false msgPrivacy.
Proof.
  intros Ht Hr. unfold fieldResult, requiredCheck. rewrite Ht, Hr. simpl.
  destruct (checked f); simpl; [| rewrite andb_false_r; reflexivity].
  destruct (truthy (trimmedValue f)); simpl; [| reflexivity].
  unfold typeCheck, lengthCheck. rewrite Ht. simpl.
  rewrite (fieldType_input f Ht) by discriminate. reflexivity.
Qed.

End FieldResults.

(** ** Properties of the field validator *)

Lemma pageWith_controlAt (f : field) : controlAt 2 f (Sample.pageWith f).
Proof. exists [Node 2 [] (PField f) []]. repeat split. Qed.

Section ValidatorProperties.

Variable s : page.
Variable i : nat.
Variable f : field.
Hypothesis attached : controlAt i f s.

(** C1. A non-empty trimmed value of an [email] field is reported as an
    invalid address when it has no [@], or when no dot follows its [@];
    it is accepted when it has the shape [local@domain.tld] (three
    non-empty parts without white space or [@]); and it is reported
    whenever it has not that shape. *)
Theorem validateField_email :
  fieldType f = "email" -> trimmedValue f <> [] ->
  (~ In 64%N (trimmedValue f) -> reports i msgEmailInvalid s) /\
  (forall l d, trimmedValue f = l ++ 64%N :: d -> ~ In 46%N d ->
               reports i msgEmailInvalid s) /\
  (emailShape (trimmedValue f) -> accepts i s) /\
  (~ emailShape (trimmedValue f) -> reports i msgEmailInvalid s).
Proof.
  intros Ht Hv.
  assert (Hno : ~ emailShape (trimmedValue f) -> reports i msgEmailInvalid s).
  { intro Hn. rewrite <- emailRegex_shape in Hn. apply not_true_is_false in Hn.
    pose proof (validateField_invalid attached) as R.
    rewrite (fieldResult_email f Ht Hv), Hn in R. apply R. reflexivity. }
  repeat split.
  - intro H. apply Hno. intro Sh. apply H, emailShape_at, Sh.
  - intros l d E H. apply Hno. intro Sh. apply H.
    eapply emailShape_domain_dot; [exact Sh | exact E].
  - intro Sh. apply emailRegex_shape in Sh.
    apply (validateField_valid attached).
    rewrite (fieldResult_email f Ht Hv), Sh. reflexivity.
  - exact Hno.
Qed.

(** C2. For the [message] textarea with a non-empty trimmed value:
    fewer than 10 characters are reported as too short, more than 1000 as
    too long, and any length from 10 to 1000 is accepted; in particular 9
    fails, 10 and 1000 pass, 1001 fails. *)
Theorem validateField_message_length :
  ctrl f = Textarea -> name f = "message" -> trimmedValue f <> [] ->
  (List.length (trimmedValue f) < 10 -> reports i msgTooShort s) /\
  (10 <= List.length (trimmedValue f) <= 1000 -> accepts i s) /\
  (1000 < List.length (trimmedValue f) -> reports i msgTooLong s) /\
  (List.length (trimmedValue f) = 9 -> reports i msgTooShort s) /\
  (List.length (trimmedValue f) = 10 -> accepts i s) /\
  (List.length (trimmedValue f) = 1000 -> accepts i s) /\
  (List.length (trimmedValue f) = 1001 -> reports i msgTooLong s).
Proof.
  intros Hc Hn Hv. set (n := List.length (trimmedValue f)).
  pose proof (fieldResult_message f Hc Hn Hv) as E. fold n in E.
  assert (Short : n < 10 -> reports i msgTooShort s).
  { intro H. apply Nat.ltb_lt in H. rewrite H in E.
    pose proof (validateField_invalid attached) as R. rewrite E in R.
    apply R. reflexivity. }
  assert (Ok : 10 <= n <= 1000 -> accepts i s).
  { intros [H1 H2]. apply Nat.ltb_ge in H1, H2. rewrite H1, H2 in E.
    apply (validateField_valid attached). rewrite E. reflexivity. }
  assert (Long : 1000 < n -> reports i msgTooLong s).
  { intro H. assert (H1 : (n <? 10)%nat = false) by (apply Nat.ltb_ge; lia).
    apply Nat.ltb_lt in H. rewrite H1, H in E.
    pose proof (validateField_invalid attached) as R. rewrite E in R.
    apply R. reflexivity. }
  repeat split; auto; intro H; [apply Short | apply Ok | apply Ok | apply Long]; lia.
Qed.

(** C5, as the code has it.  A non-empty trimmed value of the text field
    [name] is accepted exactly when it is two or more characters long and
    each character is a Latin letter, one of the German letters, white
    space, a hyphen or a period; any other value is reported as an invalid
    name. *)
Theorem validateField_name :
  fieldType f = "text" -> name f = "name" -> trimmedValue f <> [] ->
  (2 <= List.length (trimmedValue f) /\
   forallb nameClass (trimmedValue f) = true -> accepts i s) /\
  (~ (2 <= List.length (trimmedValue f) /\
      forallb nameClass (trimmedValue f) = true) ->
   reports i msgNameInvalid s).
Proof.
  intros Ht Hn Hv. set (v := trimmedValue f). pose proof (fieldResult_name f Ht Hn Hv) as E. split.
  - intro Sh. apply nameRegex_shape in Sh. fold v in E. rewrite Sh in E.
    apply (validateField_valid attached). rewrite E. reflexivity.
  - intro Sh. rewrite <- nameRegex_shape in Sh. apply not_true_is_false in Sh.
    fold v in E. rewrite Sh in E.
    pose proof (validateField_invalid attached) as R. rewrite E in R.
    apply R. reflexivity.
Qed.

(** C6. A non-empty trimmed value of a [tel] field is accepted exactly
    when it is an optional leading [+] followed by eight or more characters
    that are digits, white space, hyphens, parentheses or dots; any other
    value is reported as an invalid phone number. *)
Theorem validateField_tel :
  fieldType f = "tel" -> trimmedValue f <> [] ->
  ((exists body,
       (trimmedValue f = body \/ trimmedValue f = 43%N :: body) /\
       8 <= List.length body /\ forallb phoneClass body = true) ->
   accepts i s) /\
  (~ (exists body,
         (trimmedValue f = body \/ trimmedValue f = 43%N :: body) /\
         8 <= List.length body /\ forallb phoneClass body = true) ->
   reports i msgPhoneInvalid s).
Proof.
  intros Ht Hv. set (v := trimmedValue f). pose proof (fieldResult_tel f Ht Hv) as E. fold v in E. split.
  - intro Sh. apply phoneRegex_shape in Sh. rewrite Sh in E.
    apply (validateField_valid attached). rewrite E. reflexivity.
  - intro Sh. change (~ phoneShape v) in Sh.
    rewrite <- phoneRegex_shape in Sh. apply not_true_is_false in Sh.
    rewrite Sh in E.
    pose proof (validateField_invalid attached) as R. rewrite E in R.
    apply R. reflexivity.
Qed.

(** C8. A required control other than a checkbox whose value is empty or
    consists of white space only is reported: with the text of its own for
    the names [name], [email] and [message], with the general text for any
    other name. *)
Theorem validateField_required_empty :
  required f = true -> fieldType f <> "checkbox" ->
  forallb isWhiteSpace (value f) = true ->
  (name f = "name" -> reports i msgNameRequired s) /\
  (name f = "email" -> reports i msgEmailRequired s) /\
  (name f = "message" -> reports i msgMessageRequired s) /\
  (name f <> "name" -> name f <> "email" -> name f <> "message" ->
   reports i msgRequired s).
Proof.
  intros Hr Ht Hw.
  pose proof (fieldResult_required_empty f Hr Ht (trimmedValue_whitespace f Hw)) as E.
  pose proof (validateField_invalid attached) as R. rewrite E in R.
  specialize (R eq_refl). simpl in R. unfold requiredMessage in R.
  repeat split.
  - intro H. rewrite H in R. exact R.
  - intro H. rewrite H in R. exact R.
  - intro H. rewrite H in R. exact R.
  - intros H1 H2 H3. apply String.eqb_neq in H1, H2, H3.
    rewrite H1, H2, H3 in R. exact R.
Qed.

End ValidatorProperties.

(** ** The validator on the sample form *)

Section ValidatorSamples.

Import Sample.

Lemma validateField_email_witness :
  controlAt 2 goodEmail (pageWith goodEmail) /\ fieldType goodEmail = "email" /\
  trimmedValue goodEmail <> [] /\
  accepts 2 (pageWith goodEmail) /\ reports 2 msgEmailInvalid (pageWith badEmail).
Proof.
  assert (Vg : trimmedValue goodEmail <> []) by (vm_compute; discriminate).
  assert (Vb : trimmedValue badEmail <> []) by (vm_compute; discriminate).
  destruct (validateField_email (pageWith_controlAt goodEmail) eq_refl Vg)
    as (_ & _ & Acc & _).
  destruct (validateField_email (pageWith_controlAt badEmail) eq_refl Vb)
    as (NoAt & _).
  repeat split; [apply pageWith_controlAt | exact Vg | |].
  - apply Acc. exists (ustr "anna"), (ustr "example"), (ustr "de").
    repeat split; try reflexivity; discriminate.
  - apply NoAt. vm_compute. intuition discriminate.
Defined.

Lemma validateField_message_length_witness :
  controlAt 2 shortMessage (pageWith shortMessage) /\
  ctrl shortMessage = Textarea /\ name shortMessage = "message" /\
  trimmedValue shortMessage <> [] /\
  reports 2 msgTooShort (pageWith shortMessage) /\
  accepts 2 (pageWith tenMessage).
Proof.
  assert (V : trimmedValue shortMessage <> []) by (vm_compute; discriminate).
  assert (V' : trimmedValue tenMessage <> []) by (vm_compute; discriminate).
  destruct (validateField_message_length (pageWith_controlAt shortMessage)
              eq_refl eq_refl V) as (_ & _ & _ & Nine & _).
  destruct (validateField_message_length (pageWith_controlAt tenMessage)
              eq_refl eq_refl V') as (_ & _ & _ & _ & Ten & _).
  repeat split; [apply pageWith_controlAt | exact V | |].
  - apply Nine. reflexivity.
  - apply Ten. reflexivity.
Defined.

Lemma validateField_name_witness :
  controlAt 2 badName (pageWith badName) /\ fieldType badName = "text" /\
  name badName = "name" /\ trimmedValue badName <> [] /\
  reports 2 msgNameInvalid (pageWith badName) /\
  accepts 2 (pageWith goodName).
Proof.
  assert (V : trimmedValue badName <> []) by (vm_compute; discriminate).
  assert (V' : trimmedValue goodName <> []) by (vm_compute; discriminate).
  destruct (validateField_name (pageWith_controlAt badName) eq_refl eq_refl V)
    as (_ & Rej).
  destruct (validateField_name (pageWith_controlAt goodName) eq_refl eq_refl V')
    as (Acc & _).
  repeat split; [apply pageWith_controlAt | exact V | |].
  - apply Rej. vm_compute. intros [_ H]. discriminate.
  - apply Acc. vm_compute. split; [lia | reflexivity].
Defined.

(** C5, as stated, fails: the value [-.] holds no letter at all and
    [validateField] returns [true] for it; so does [a.] with one letter. *)
Lemma validateField_name_counterexample :
  validateField 2 (pageWith noLetterName) = (Some true, pageWith noLetterName) /\
  letterCount (trimmedValue noLetterName) = 0 /\
  validateField 2 (pageWith oneLetterName) = (Some true, pageWith oneLetterName) /\
  letterCount (trimmedValue oneLetterName) = 1.
Proof. vm_compute. repeat split. Qed.

Lemma validateField_tel_witness :
  controlAt 2 goodPhone (pageWith goodPhone) /\ fieldType goodPhone = "tel" /\
  trimmedValue goodPhone <> [] /\
  accepts 2 (pageWith goodPhone) /\ reports 2 msgPhoneInvalid (pageWith shortPhone).
Proof.
  assert (V : trimmedValue goodPhone <> []) by (vm_compute; discriminate).
  assert (V' : trimmedValue shortPhone <> []) by (vm_compute; discriminate).
  destruct (validateField_tel (pageWith_controlAt goodPhone) eq_refl V) as (Acc & _).
  destruct (validateField_tel (pageWith_controlAt shortPhone) eq_refl V') as (_ & Rej).
  repeat split; [apply pageWith_controlAt | exact V | |].
  - apply Acc. exists (ustr "34 691 367 430"). vm_compute.
    split; [right; reflexivity | split; [lia | reflexivity]].
  - apply Rej. vm_compute. intros (body & [E | E] & L & F).
    + subst body. discriminate.
    + injection E as <-. simpl in L. lia.
Defined.

Lemma validateField_required_empty_witness :
  controlAt 2 blankEmail (pageWith blankEmail) /\ required blankEmail = true /\
  fieldType blankEmail <> "checkbox" /\
  forallb isWhiteSpace (value blankEmail) = true /\
  reports 2 msgEmailRequired (pageWith blankEmail) /\
  reports 2 msgRequired (pageWith blankCity).
Proof.
  assert (T : fieldType blankEmail <> "checkbox") by discriminate.
  assert (T' : fieldType blankCity <> "checkbox") by discriminate.
  destruct (validateField_required_empty (pageWith_controlAt blankEmail)
              eq_refl T eq_refl) as (_ & Em & _).
  destruct (validateField_required_empty (pageWith_controlAt blankCity)
              eq_refl T' eq_refl) as (_ & _ & _ & Gen).
  repeat split; [apply pageWith_controlAt | exact T | |].
  - apply Em. reflexivity.
  - apply Gen; discriminate.
Defined.

End ValidatorSamples.

(** ** Answers of the form endpoints *)

Section EndpointProperties.

Import Endpoint.





End EndpointProperties.

Section EndpointSamples.

Import Endpoint EndpointSample.



End EndpointSamples.

(** ** Counting selected nodes *)

Section Counting.

Variable sel : node -> bool.
Hypothesis sel_shallow : shallow sel.

Lemma countIn_nil : countIn sel [] = 0.
Proof. reflexivity. Qed.

Lemma countIn_app (l1 l2 : list node) :
  countIn sel (l1 ++ l2) = countIn sel l1 + countIn sel l2.
Proof.
  unfold countIn. rewrite flat_map_app, filter_app, length_app. reflexivity.
Qed.

Lemma countIn_node (k : node) :
  countIn sel [k] = count1 sel k + countIn sel (children k).
Proof.
  unfold countIn, count1. destruct k as [i c d ks]. simpl. rewrite app_nil_r.
  destruct (sel (Node i c d ks)); reflexivity.
Qed.

Lemma countIn_cons (k : node) (ks : list node) :
  countIn sel (k :: ks) = count1 sel k + countIn sel (children k) + countIn sel ks.
Proof.
  change (k :: ks) with ([k] ++ ks). rewrite countIn_app, countIn_node. reflexivity.
Qed.

Lemma countIn_zero (ks : list node) :
  countIn sel ks = 0 <-> forall k, In k (flat_map nodes ks) -> sel k = false.
Proof.
  unfold countIn. rewrite length_zero_iff_nil. split.
  - intros H k Hk. destruct (sel k) eqn:E; [| reflexivity].
    assert (Hin : In k (filter sel (flat_map nodes ks))) by (apply filter_In; auto).
    rewrite H in Hin. destruct Hin.
  - intro H. induction (flat_map nodes ks) as [| x l IH]; simpl; [reflexivity |].
    rewrite (H x) by (left; reflexivity). apply IH. intros k Hk. apply H. right. exact Hk.
Qed.

Lemma count1_shallow (i : nat) (c : list string) (d : payload) (ks ks' : list node) :
  count1 sel (Node i c d ks) = count1 sel (Node i c d ks').
Proof. unfold count1. rewrite (sel_shallow i c d ks ks'). reflexivity. Qed.

(** *** Detaching nodes never adds a selected node *)

Variable q : node -> bool.

Lemma removeFirstIn_count (ks : list node) :
  Forall (fun k => forall k', removeFirstUnder q k = Some k' ->
                              countIn sel [k'] <= countIn sel [k]) ks ->
  forall ks', removeFirstIn q (removeFirstUnder q) ks = Some ks' ->
              countIn sel ks' <= countIn sel ks.
Proof.
  induction 1 as [| k ks Hk _ IH]; simpl; intros ks' H; [discriminate |].
  destruct (q k).
  - injection H as <-. rewrite (countIn_cons k ks). lia.
  - destruct (removeFirstUnder q k) as [k' |] eqn:Eu.
    + injection H as <-. specialize (Hk _ eq_refl).
      change (k' :: ks) with ([k'] ++ ks). change (k :: ks) with ([k] ++ ks).
      rewrite !countIn_app. lia.
    + destruct (removeFirstIn q (removeFirstUnder q) ks) as [r |]; simpl in H;
        [| discriminate].
      injection H as <-. specialize (IH _ eq_refl).
      change (k :: r) with ([k] ++ r). change (k :: ks) with ([k] ++ ks).
      rewrite !countIn_app. lia.
Qed.

Lemma removeFirstUnder_count (n : node) :
  forall n', removeFirstUnder q n = Some n' -> countIn sel [n'] <= countIn sel [n].
Proof.
  induction n as [i c d ks IH] using node_ind'. intros n' H. simpl in H.
  destruct (removeFirstIn q (removeFirstUnder q) ks) as [ks' |] eqn:E;
    simpl in H; [| discriminate].
  injection H as <-. rewrite !countIn_node. simpl.
  rewrite (count1_shallow i c d ks' ks).
  pose proof (removeFirstIn_count IH E). lia.
Qed.

Lemma removeFirst_count (ks ks' : list node) :
  removeFirst q ks = Some ks' -> countIn sel ks' <= countIn sel ks.
Proof.
  apply removeFirstIn_count. apply Forall_forall. intros k _.
  apply removeFirstUnder_count.
Qed.

Lemma removeAllIn_count (ks : list node) :
  Forall (fun k => countIn sel [removeAllUnder q k] <= countIn sel [k]) ks ->
  countIn sel (removeAllIn q (removeAllUnder q) ks) <= countIn sel ks.
Proof.
  induction 1 as [| k ks Hk _ IH]; simpl; [lia |].
  change (k :: ks) with ([k] ++ ks). rewrite countIn_app.
  destruct (q k); [lia |].
  change (removeAllUnder q k :: ?r) with ([removeAllUnder q k] ++ r).
  rewrite countIn_app. lia.
Qed.

Lemma removeAllUnder_count (n : node) :
  countIn sel [removeAllUnder q n] <= countIn sel [n].
Proof.
  induction n as [i c d ks IH] using node_ind'. simpl.
  rewrite !countIn_node. simpl.
  rewrite (count1_shallow i c d (removeAllIn q (removeAllUnder q) ks) ks).
  pose proof (removeAllIn_count IH). lia.
Qed.

Lemma removeAll_count (ks : list node) :
  countIn sel (removeAll q ks) <= countIn sel ks.
Proof.
  apply removeAllIn_count. apply Forall_forall. intros k _.
  apply removeAllUnder_count.
Qed.

End Counting.

Section CountingMore.

Variable sel : node -> bool.
Hypothesis sel_shallow : shallow sel.

(** *** Detaching the first selected node *)

Lemma removeFirstIn_strict (ks : list node) :
  Forall (fun k =>
            (countIn sel (children k) = 0 <-> removeFirstUnder sel k = None) /\
            (forall k', removeFirstUnder sel k = Some k' ->
                        countIn sel [k'] < countIn sel [k])) ks ->
  (countIn sel ks = 0 <-> removeFirstIn sel (removeFirstUnder sel) ks = None) /\
  (forall ks', removeFirstIn sel (removeFirstUnder sel) ks = Some ks' ->
               countIn sel ks' < countIn sel ks).
Proof.
  induction 1 as [| k ks [Hz Hs] _ [IHz IHs]]; simpl.
  - split; [split; reflexivity | discriminate].
  - rewrite (countIn_cons sel k ks). unfold count1. destruct (sel k) eqn:Es.
    + split; [split; [lia | discriminate] |]. intros ks' [= <-]. lia.
    + split.
      * split.
        -- intro H0. destruct Hz as [Hz _]. destruct IHz as [IHz _].
           rewrite Hz by lia. rewrite IHz by lia. reflexivity.
        -- intro H. destruct (removeFirstUnder sel k) as [k' |] eqn:Eu;
             [discriminate |].
           destruct (removeFirstIn sel (removeFirstUnder sel) ks) as [r |] eqn:Er;
             [discriminate |].
           destruct Hz as [_ Hz]. destruct IHz as [_ IHz].
           rewrite (Hz eq_refl), (IHz eq_refl). reflexivity.
      * intros ks' H. destruct (removeFirstUnder sel k) as [k' |] eqn:Eu.
        -- injection H as <-. specialize (Hs _ eq_refl).
           rewrite (countIn_node sel k) in Hs. unfold count1 in Hs. rewrite Es in Hs.
           change (k' :: ks) with ([k'] ++ ks). rewrite countIn_app. simpl in *. lia.
        -- destruct (removeFirstIn sel (removeFirstUnder sel) ks) as [r |];
             simpl in H; [| discriminate].
           injection H as <-. specialize (IHs _ eq_refl).
           rewrite (countIn_cons sel k r). unfold count1. rewrite Es. simpl. lia.
Qed.

Lemma removeFirstUnder_strict (n : node) :
  (countIn sel (children n) = 0 <-> removeFirstUnder sel n = None) /\
  (forall n', removeFirstUnder sel n = Some n' -> countIn sel [n'] < countIn sel [n]).
Proof.
  induction n as [i c d ks IH] using node_ind'.
  destruct (removeFirstIn_strict IH) as [Hz Hs]. simpl. split.
  - rewrite Hz.
    destruct (removeFirstIn sel (removeFirstUnder sel) ks); simpl;
      split; intro H; reflexivity || discriminate.
  - intros n' H.
    destruct (removeFirstIn sel (removeFirstUnder sel) ks) as [ks' |]; simpl in H;
      [| discriminate].
    injection H as <-. specialize (Hs _ eq_refl).
    rewrite !(countIn_node sel). simpl.
    rewrite (count1_shallow sel_shallow i c d ks' ks). lia.
Qed.

(** Without a selected node nothing is detached; with one, the count
    drops. *)
Lemma removeFirst_none (ks : list node) :
  countIn sel ks = 0 -> removeFirst sel ks = None.
Proof.
  apply removeFirstIn_strict. apply Forall_forall. intros k _.
  apply removeFirstUnder_strict.
Qed.



(** *** Detaching all selected nodes *)

Lemma removeAllIn_none_left (ks : list node) :
  Forall (fun k => countIn sel (children (removeAllUnder sel k)) = 0) ks ->
  countIn sel (removeAllIn sel (removeAllUnder sel) ks) = 0.
Proof.
  induction 1 as [| k ks Hk _ IH]; simpl; [reflexivity |].
  destruct (sel k) eqn:Es; [exact IH |].
  rewrite (countIn_cons sel). rewrite Hk, IH.
  unfold count1. destruct k as [i c d kk]. simpl.
  rewrite (sel_shallow i c d _ kk), Es. reflexivity.
Qed.

Lemma removeAllUnder_none_left (n : node) :
  countIn sel (children (removeAllUnder sel n)) = 0.
Proof.
  induction n as [i c d ks IH] using node_ind'. simpl.
  apply removeAllIn_none_left. exact IH.
Qed.

Lemma removeAllIn_same (ks : list node) :
  Forall (fun k => countIn sel (children k) = 0 -> removeAllUnder sel k = k) ks ->
  countIn sel ks = 0 -> removeAllIn sel (removeAllUnder sel) ks = ks.
Proof.
  induction 1 as [| k ks Hk _ IH]; simpl; [reflexivity |].
  rewrite (countIn_cons sel). unfold count1. destruct (sel k); [lia |].
  intro H0. rewrite Hk by lia. rewrite IH by lia. reflexivity.
Qed.

Lemma removeAllUnder_same (n : node) :
  countIn sel (children n) = 0 -> removeAllUnder sel n = n.
Proof.
  induction n as [i c d ks IH] using node_ind'. simpl. intro H0.
  rewrite (removeAllIn_same IH H0). reflexivity.
Qed.

(** *** Relabelling nodes *)

Variable g : node -> node.

Lemma mapNodes_count_le (ks : list node) :
  (forall n, count1 sel (mapNodes g n) <= count1 sel n) ->
  countIn sel (map (mapNodes g) ks) <= countIn sel ks.
Proof.
  intro Hg. induction ks as [| k ks IH]; [simpl; lia |].
  assert (Hk : countIn sel [mapNodes g k] <= countIn sel [k]).
  { clear IH. induction k as [i c d kk IHk] using node_ind'.
    rewrite !(countIn_node sel). specialize (Hg (Node i c d kk)).
    simpl in *. enough (countIn sel (map (mapNodes g) kk) <= countIn sel kk) by lia.
    clear Hg. induction IHk as [| x l Hx _ IHl]; [simpl; lia |].
    simpl map. change (mapNodes g x :: ?r) with ([mapNodes g x] ++ r).
    change (x :: l) with ([x] ++ l). rewrite !countIn_app. lia. }
  simpl map. change (mapNodes g k :: ?r) with ([mapNodes g k] ++ r).
  change (k :: ks) with ([k] ++ ks). rewrite !countIn_app. lia.
Qed.

Lemma mapNodes_count_zero (ks : list node) :
  (forall n, sel (mapNodes g n) = false) -> countIn sel (map (mapNodes g) ks) = 0.
Proof.
  intro Hg. apply countIn_zero. intros k Hk.
  apply in_flat_map in Hk as (x & Hx & Hkx).
  apply in_map_iff in Hx as (y & <- & _). clear ks.
  revert k Hkx. induction y as [i c d kk IH] using node_ind'. intros k Hk.
  destruct Hk as [<- | Hk]; [apply (Hg (Node i c d kk)) |].
  apply in_flat_map in Hk as (x & Hx & Hkx).
  apply in_map_iff in Hx as (z & <- & Hz).
  rewrite Forall_forall in IH. exact (IH z Hz k Hkx).
Qed.

End CountingMore.

(** ** Updating the children of one parent *)

Section KidFacts.

Lemma removeTokens_idem (ts c : list string) :
  removeTokens ts (removeTokens ts c) = removeTokens ts c.
Proof.
  unfold removeTokens. induction c as [| x c IH]; simpl; [reflexivity |].
  destruct (negb (existsb (String.eqb x) ts)) eqn:E; simpl; rewrite ?E, IH; reflexivity.
Qed.

Lemma removeTokens_app (ts c1 c2 : list string) :
  removeTokens ts (c1 ++ c2) = removeTokens ts c1 ++ removeTokens ts c2.
Proof. apply filter_app. Qed.

Lemma removeTokens_addTokens (ts ts' : list string) :
  (forall x, In x ts' -> In x ts) ->
  forall c, removeTokens ts (addTokens ts' c) = removeTokens ts c.
Proof.
  induction ts' as [| t r IH]; intros Hsub c; simpl; [reflexivity |].
  rewrite IH by (intros x Hx; apply Hsub; right; exact Hx).
  destruct (existsb (String.eqb t) c); [reflexivity |].
  rewrite removeTokens_app. simpl.
  assert (E : existsb (String.eqb t) ts = true).
  { apply existsb_eqb_In, Hsub. left. reflexivity. }
  rewrite E. simpl. apply app_nil_r.
Qed.

(** Styling a field as invalid and unstyling it again leaves it unstyled. *)
Lemma unstyle_style_unstyle (c : list string) :
  removeTokens errorStyling (addTokens errorStyling (removeTokens errorStyling c))
  = removeTokens errorStyling c.
Proof.
  rewrite removeTokens_addTokens by auto. apply removeTokens_idem.
Qed.

Lemma updKid_app (i : nat) (g : node -> node) (l1 l2 : list node) :
  updKid i g (l1 ++ l2) = updKid i g l1 ++ updKid i g l2.
Proof. apply map_app. Qed.

Lemma updKid_other (i : nat) (g : node -> node) (ks : list node) :
  hasKid i ks = false -> updKid i g ks = ks.
Proof.
  unfold hasKid, updKid. induction ks as [| k ks IH]; simpl; [reflexivity |].
  intro H. apply orb_false_iff in H as [Hk Hr]. rewrite Hk, (IH Hr). reflexivity.
Qed.

Lemma updKid_updKid (i : nat) (g h : node -> node) (ks : list node) :
  (forall k, nodeId (h k) = nodeId k) ->
  updKid i g (updKid i h ks) = updKid i (fun k => g (h k)) ks.
Proof.
  intro Hh. unfold updKid. rewrite map_map. apply map_ext. intro k.
  destruct (hasId i k) eqn:E; [| rewrite E; reflexivity].
  unfold hasId in *. rewrite Hh, E. reflexivity.
Qed.

Lemma updKid_ext (i : nat) (g h : node -> node) (ks : list node) :
  (forall k, g k = h k) -> updKid i g ks = updKid i h ks.
Proof.
  intro H. unfold updKid. apply map_ext. intro k. rewrite H. reflexivity.
Qed.

Lemma find_updKid (i : nat) (g : node -> node) (ks : list node) :
  (forall k, nodeId (g k) = nodeId k) ->
  find (hasId i) (updKid i g ks) = option_map g (find (hasId i) ks).
Proof.
  intro Hg. unfold updKid. induction ks as [| k ks IH]; simpl; [reflexivity |].
  destruct (hasId i k) eqn:E.
  - unfold hasId in *. rewrite Hg, E. reflexivity.
  - rewrite E. exact IH.
Qed.

Lemma fieldOf_setClasses (i : nat) (g : list string -> list string) (ks : list node) :
  fieldOf i (updKid i (setClasses g) ks) = fieldOf i ks.
Proof.
  unfold fieldOf. rewrite find_updKid by apply nodeId_setClasses.
  destruct (find (hasId i) ks) as [[j c d kk] |]; reflexivity.
Qed.

Lemma fieldOf_setPayload (i : nat) (h : field -> field) (ks : list node) (f : field) :
  fieldOf i ks = Some f ->
  fieldOf i (updKid i (setPayload (fun d => match d with
                                            | PField f0 => PField (h f0)
                                            | _ => d
                                            end)) ks) = Some (h f).
Proof.
  unfold fieldOf. rewrite find_updKid by apply nodeId_setPayload.
  destruct (find (hasId i) ks) as [[j c [f0 | |] kk] |]; simpl; try discriminate.
  intros [= <-]. reflexivity.
Qed.

Lemma fieldOf_app (i : nat) (l1 l2 : list node) (f : field) :
  fieldOf i l1 = Some f -> fieldOf i (l1 ++ l2) = Some f.
Proof.
  unfold fieldOf. intro H.
  destruct (find (hasId i) l1) as [k |] eqn:E; [| discriminate].
  assert (E' : find (hasId i) (l1 ++ l2) = Some k).
  { clear H. induction l1 as [| x l1 IH]; simpl in *; [discriminate |].
    destruct (hasId i x); [exact E | apply IH, E]. }
  rewrite E'. exact H.
Qed.

Variable sel : node -> bool.
Hypothesis sel_shallow : shallow sel.

(** Relabelling children that [sel] treats alike keeps the count. *)
Lemma updKid_count (i : nat) (g : node -> node) (ks : list node) :
  (forall k, children (g k) = children k) ->
  (forall k, sel (g k) = sel k) ->
  countIn sel (updKid i g ks) = countIn sel ks.
Proof.
  intros Hc Hs. unfold updKid. induction ks as [| k ks IH]; [reflexivity |].
  simpl map. rewrite !(countIn_cons sel), IH.
  destruct (hasId i k); [| reflexivity].
  unfold count1. rewrite Hc, Hs. reflexivity.
Qed.

Lemma removeFirst_last (l : list node) (e : node) :
  countIn sel l = 0 -> sel e = true -> removeFirst sel (l ++ [e]) = Some l.
Proof.
  intros H0 He. unfold removeFirst.
  induction l as [| k l IH]; simpl.
  - rewrite He. reflexivity.
  - rewrite (countIn_cons sel) in H0. unfold count1 in H0.
    destruct (sel k); [lia |].
    destruct (removeFirstUnder_strict sel_shallow k) as [[Hz _] _].
    rewrite Hz by lia. rewrite IH by lia. reflexivity.
Qed.

End KidFacts.

(** ** Re-validating a ticked checkbox *)

Section CheckboxToggle.

Lemma hasClass_shallow (cls : string) : shallow (hasClass cls).
Proof. intros i c d ks ks'. reflexivity. Qed.

Lemma isErrorMessage_setClasses_unstyle (k : node) :
  isErrorMessage (setClasses (removeTokens errorStyling) k) = isErrorMessage k.
Proof. apply hasClass_unstyle, not_styling_error_message. Qed.

Lemma isErrorMessage_setClasses_style (k : node) :
  isErrorMessage (setClasses (addTokens errorStyling) k) = isErrorMessage k.
Proof. apply hasClass_style, not_styling_error_message. Qed.

Lemma children_setClasses (g : list string -> list string) (k : node) :
  children (setClasses g k) = children k.
Proof. destruct k; reflexivity. Qed.

Lemma children_setPayload (g : payload -> payload) (k : node) :
  children (setPayload g k) = children k.
Proof. destruct k; reflexivity. Qed.

Lemma isErrorMessage_setPayload (g : payload -> payload) (k : node) :
  isErrorMessage (setPayload g k) = isErrorMessage k.
Proof. destruct k; reflexivity. Qed.

Variable s : page.
Variable i : nat.
Variable f : field.
Variable ks : list node.

Hypothesis parent : parentKids i (form s) = Some ks.
Hypothesis control : fieldOf i ks = Some f.
Hypothesis is_checkbox : fieldType f = "checkbox".
Hypothesis is_required : required f = true.
Hypothesis unchecked : checked f = false.
Hypothesis no_message : countIn isErrorMessage ks = 0.
Hypothesis known : i < nextId s.

Lemma hasKid_ks : hasKid i ks = true.
Proof. apply (parentKids_found _ _ parent). Qed.

Lemma clearFieldError_no_message :
  clearFieldError i ks = updKid i (setClasses (removeTokens errorStyling)) ks.
Proof.
  unfold clearFieldError. rewrite removeFirst_none; [reflexivity | |].
  - apply hasClass_shallow.
  - rewrite (updKid_count isErrorMessage);
      [exact no_message | apply children_setClasses |
       apply isErrorMessage_setClasses_unstyle].
Qed.

Lemma hasKid_flaggedKids : hasKid i (flaggedKids s i ks) = true.
Proof.
  unfold flaggedKids, hasKid. rewrite existsb_app.
  fold (hasKid i (updKid i (setClasses (addTokens errorStyling))
                    (updKid i (setClasses (removeTokens errorStyling)) ks))).
  rewrite !hasKid_updKid by apply nodeId_setClasses. rewrite hasKid_ks. reflexivity.
Qed.

Lemma validate_unchecked : validateField i s = (Some false, (flaggedPage s i ks)).
Proof.
  unfold validateField. rewrite parent, control.
  rewrite (fieldResult_checkbox f is_checkbox is_required), unchecked. simpl.
  rewrite clearFieldError_no_message.
  rewrite hasKid_updKid by apply nodeId_setClasses. rewrite hasKid_ks.
  reflexivity.
Qed.

Lemma tick_flaggedPage :
  handle (Edit i tick) (flaggedPage s i ks) =
  mkPage (setParentKids i (updKid i (setPayload tickPayload) (flaggedKids s i ks)) (form s))
         (S (nextId s)) (now s) (timers s).
Proof.
  unfold handle, editField, flaggedPage, setForm. simpl.
  rewrite (@parentKids_setParentKids i (flaggedKids s i ks) ks (form s) parent hasKid_flaggedKids).
  rewrite (@setParentKids_twice i (flaggedKids s i ks) _ ks (form s) parent hasKid_flaggedKids). reflexivity.
Qed.

Lemma clear_ticked :
  clearFieldError i (updKid i (setPayload tickPayload) (flaggedKids s i ks)) = (tickedKids i ks).
Proof.
  unfold clearFieldError, flaggedKids.
  rewrite !updKid_app.
  rewrite (updKid_other i (setPayload tickPayload) [errorElement (nextId s) msgPrivacy]).
  2:{ simpl. unfold hasId. simpl. rewrite orb_false_r. apply Nat.eqb_neq. lia. }
  rewrite (updKid_other i _ [errorElement (nextId s) msgPrivacy]).
  2:{ simpl. unfold hasId. simpl. rewrite orb_false_r. apply Nat.eqb_neq. lia. }
  rewrite (removeFirst_last (hasClass_shallow "error-message")); [| | reflexivity].
  - rewrite !updKid_updKid by
      (intro k; rewrite ?nodeId_setClasses, ?nodeId_setPayload; reflexivity).
    unfold tickedKids. apply updKid_ext. intros [j c d kk].
    unfold setClasses, setPayload. rewrite unstyle_style_unstyle. reflexivity.
  - rewrite !(updKid_count isErrorMessage);
      try exact no_message; intro k;
      rewrite ?children_setClasses, ?children_setPayload; try reflexivity.
    + apply isErrorMessage_setClasses_unstyle.
    + apply isErrorMessage_setClasses_style.
    + apply isErrorMessage_setPayload.
    + apply isErrorMessage_setClasses_unstyle.
Qed.

Lemma validate_ticked :
  validateField i (handle (Edit i tick) (flaggedPage s i ks)) = (Some true, (tickedPage s i ks)).
Proof.
  rewrite tick_flaggedPage. unfold validateField. simpl.
  assert (Hk : hasKid i (updKid i (setPayload tickPayload) (flaggedKids s i ks)) = true).
  { rewrite hasKid_updKid by apply nodeId_setPayload. apply hasKid_flaggedKids. }
  rewrite (@parentKids_setParentKids i _ ks (form s) parent Hk).
  assert (Hf : fieldOf i (updKid i (setPayload tickPayload) (flaggedKids s i ks)) = Some (tick f)).
  { apply (fieldOf_setPayload i tick). unfold flaggedKids. apply fieldOf_app.
    rewrite !fieldOf_setClasses. exact control. }
  rewrite Hf.
  rewrite (fieldResult_checkbox (tick f) is_checkbox is_required). simpl.
  rewrite clear_ticked, (@setParentKids_twice i _ _ ks (form s) parent Hk). reflexivity.
Qed.

End CheckboxToggle.

(** ** Counting through the script's steps *)

Section CountingSteps.

Variable sel : node -> bool.
Hypothesis sel_shallow : shallow sel.

Lemma replaceFirst_count (i : nat) (new : list node) (kids : list node) :
  Forall (fun k => forall ks k', parentKids i k = Some ks ->
                                 replaceParentKids i new k = Some k' ->
                                 countIn sel [k'] + countIn sel ks
                                 = countIn sel [k] + countIn sel new) kids ->
  forall ks kids', firstSome (parentKids i) kids = Some ks ->
                   replaceFirst (replaceParentKids i new) kids = Some kids' ->
                   countIn sel kids' + countIn sel ks = countIn sel kids + countIn sel new.
Proof.
  induction 1 as [| k kids Hk _ IH]; simpl; intros ks kids' Hp Hr; [discriminate |].
  destruct (replaceParentKids_spec i k new) as [Hn Hs].
  destruct (parentKids i k) as [ks0 |] eqn:Ep.
  - injection Hp as <-. destruct (Hs _ eq_refl) as (k' & Er & _).
    rewrite Er in Hr. injection Hr as <-.
    specialize (Hk _ _ eq_refl Er).
    change (k' :: kids) with ([k'] ++ kids). change (k :: kids) with ([k] ++ kids).
    rewrite !countIn_app. lia.
  - rewrite (Hn eq_refl) in Hr.
    destruct (replaceFirst (replaceParentKids i new) kids) as [r |]; simpl in Hr;
      [| discriminate].
    injection Hr as <-. specialize (IH _ _ Hp eq_refl).
    change (k :: r) with ([k] ++ r). change (k :: kids) with ([k] ++ kids).
    rewrite !countIn_app. lia.
Qed.

Lemma replaceParentKids_count (i : nat) (new : list node) (n : node) :
  forall ks n', parentKids i n = Some ks -> replaceParentKids i new n = Some n' ->
                countIn sel [n'] + countIn sel ks = countIn sel [n] + countIn sel new.
Proof.
  induction n as [j c d kids IH] using node_ind'. intros ks n' Hp Hr. simpl in *.
  destruct (hasKid i kids).
  - injection Hp as <-. injection Hr as <-. rewrite !(countIn_node sel). simpl.
    rewrite (count1_shallow sel_shallow j c d new kids). lia.
  - destruct (replaceFirst (replaceParentKids i new) kids) as [kids' |] eqn:Er;
      simpl in Hr; [| discriminate].
    injection Hr as <-. rewrite !(countIn_node sel). simpl.
    rewrite (count1_shallow sel_shallow j c d kids' kids).
    pose proof (@replaceFirst_count i new kids IH ks kids' Hp Er). lia.
Qed.

(** New children for the parent of [i]: the count changes by theirs. *)
Lemma setParentKids_count (i : nat) (new ks : list node) (n : node) :
  parentKids i n = Some ks ->
  countIn sel (children (setParentKids i new n)) + countIn sel ks
  = countIn sel (children n) + countIn sel new.
Proof.
  intro Hp. destruct (replaceParentKids_spec i n new) as [_ Hs].
  destruct (Hs _ Hp) as (n' & Er & _). unfold setParentKids. rewrite Er.
  pose proof (@replaceParentKids_count i new n ks n' Hp Er) as H.
  rewrite !(countIn_node sel) in H.
  assert (E : count1 sel n' = count1 sel n).
  { destruct n as [j c d kids]. simpl in Er.
    destruct (hasKid i kids).
    - injection Er as <-. apply (count1_shallow sel_shallow).
    - destruct (replaceFirst (replaceParentKids i new) kids); simpl in Er;
        [| discriminate].
      injection Er as <-. apply (count1_shallow sel_shallow). }
  lia.
Qed.

Lemma setParentKids_count_le (i : nat) (new ks : list node) (n : node) :
  parentKids i n = Some ks -> countIn sel new <= countIn sel ks ->
  countIn sel (children (setParentKids i new n)) <= countIn sel (children n).
Proof. intros Hp Hle. pose proof (@setParentKids_count i new ks n Hp). lia. Qed.

(** [sel] does not look at the error styling, at the payload, and does
    not select the error element of a field. *)
Hypothesis sel_unstyle :
  forall k, sel (setClasses (removeTokens errorStyling) k) = sel k.
Hypothesis sel_style :
  forall k, sel (setClasses (addTokens errorStyling) k) = sel k.
Hypothesis sel_payload : forall g k, sel (setPayload g k) = sel k.
Hypothesis sel_error_element : forall i msg, sel (errorElement i msg) = false.

Lemma mapNodes_sel (g : node -> node) (k : node) :
  nodeId (g k) = nodeId k -> sel (mapNodes g k) = sel (g k).
Proof.
  destruct k as [j c d kk]. simpl. intro Hid.
  destruct (g (Node j c d kk)) as [j' c' d' kk'] eqn:E. simpl in *. subst j'.
  apply sel_shallow.
Qed.

(** Relabelling every node in a way [sel] does not see keeps the count
    from growing. *)
Lemma relabel_count (g : node -> node) (ks : list node) :
  (forall k, nodeId (g k) = nodeId k) -> (forall k, sel (g k) = sel k) ->
  countIn sel (map (mapNodes g) ks) <= countIn sel ks.
Proof.
  intros Hid Hs. apply mapNodes_count_le. intro k. unfold count1.
  rewrite (mapNodes_sel g k (Hid k)), Hs. lia.
Qed.

Lemma clearFieldError_count (i : nat) (ks : list node) :
  countIn sel (clearFieldError i ks) <= countIn sel ks.
Proof.
  unfold clearFieldError.
  assert (E : countIn sel (updKid i (setClasses (removeTokens errorStyling)) ks)
              = countIn sel ks).
  { apply updKid_count; [apply children_setClasses | apply sel_unstyle]. }
  destruct (removeFirst isErrorMessage _) as [ks2 |] eqn:Er; [| lia].
  pose proof (removeFirst_count sel_shallow _ _ Er). lia.
Qed.

Lemma showFieldError_count (i fresh : nat) (msg : string) (ks : list node) :
  countIn sel (showFieldError i fresh msg ks) = countIn sel ks.
Proof.
  unfold showFieldError. rewrite countIn_app, (countIn_node sel). unfold count1.
  rewrite sel_error_element.
  change (children (errorElement fresh msg)) with (@nil node).
  rewrite countIn_nil.
  rewrite updKid_count; [lia | apply children_setClasses | apply sel_style].
Qed.

(** [validateField] never adds a selected node. *)
Lemma validateField_count (i : nat) (s : page) :
  countIn sel (children (form (snd (validateField i s))))
  <= countIn sel (children (form s)).
Proof.
  unfold validateField.
  destruct (parentKids i (form s)) as [ks |] eqn:Hp; [| simpl; lia].
  destruct (fieldOf i ks) as [f |]; [| simpl; lia].
  pose proof (clearFieldError_count i ks) as Hc.
  destruct (isValid (fieldResult f)).
  - simpl. eapply setParentKids_count_le; [exact Hp | exact Hc].
  - destruct (hasKid i (clearFieldError i ks)); simpl.
    + eapply setParentKids_count_le; [exact Hp |]. rewrite showFieldError_count. exact Hc.
    + eapply setParentKids_count_le; [exact Hp | exact Hc].
Qed.

Lemma validateEach_count (fields : list nat) :
  forall ok s,
    countIn sel (children (form (snd (validateEach fields ok s))))
    <= countIn sel (children (form s)).
Proof.
  induction fields as [| i rest IH]; intros ok s; simpl; [lia |].
  unfold bind. pose proof (validateField_count i s) as H.
  destruct (validateField i s) as [[b |] s']; simpl in *; [| exact H].
  etransitivity; [apply IH | exact H].
Qed.

Lemma validateForm_count (s : page) :
  countIn sel (children (form (snd (validateForm s))))
  <= countIn sel (children (form s)).
Proof. apply validateEach_count. Qed.

Lemma mapDescendants_payload_count (h : node -> payload -> payload)
    (p : node -> bool) (n : node) :
  countIn sel (children (mapDescendants
                           (fun k => if p k then setPayload (h k) k else k) n))
  <= countIn sel (children n).
Proof.
  destruct n as [j c d kids]. simpl. apply relabel_count; intro k;
    destruct (p k); try reflexivity; [apply nodeId_setPayload | apply sel_payload].
Qed.

Lemma setButton_count (b : nat) (dis : bool) (h : string) (n : node) :
  countIn sel (children (setButton b dis h n)) <= countIn sel (children n).
Proof.
  unfold setButton.
  apply (mapDescendants_payload_count (fun _ => buttonUpdate dis h) (hasId b)).
Qed.

Lemma editField_count (i : nat) (g : field -> field) (n : node) :
  countIn sel (children (editField i g n)) <= countIn sel (children n).
Proof.
  unfold editField. destruct (parentKids i n) as [ks |] eqn:Hp; [| lia].
  eapply setParentKids_count_le; [exact Hp |].
  rewrite updKid_count; [lia | apply children_setPayload | intro k; apply sel_payload].
Qed.

Lemma onSubmit_count (s : page) :
  countIn sel (children (form (snd (onSubmit s))))
  <= countIn sel (children (form s)).
Proof.
  unfold onSubmit, bind. pose proof (validateForm_count s) as H.
  destruct (validateForm s) as [[ok |] s1]; simpl in *; [| exact H].
  destruct ok; simpl; [| exact H].
  destruct (querySelector isSubmitButton (form s1)); simpl; [| exact H].
  etransitivity; [apply setButton_count | exact H].
Qed.

Lemma handle_count (e : event) (s : page) :
  countIn sel (children (form (handle e s))) <= countIn sel (children (form s)).
Proof.
  destruct e as [| i | i | i | i g]; simpl.
  - apply onSubmit_count.
  - apply validateField_count.
  - destruct (nodeById i (form s)) as [k |]; [| lia].
    destruct (isErrorStyled k); [apply validateField_count | lia].
  - destruct (nodeById i (form s)) as [[j c [f | |] kk] |]; try lia.
    destruct (fieldType f =? "checkbox")%string; [apply validateField_count | lia].
  - apply editField_count.
Qed.

Lemma removeMessage_count (m : nat) (s : page) :
  countIn sel (children (form (removeMessage m s))) <= countIn sel (children (form s)).
Proof.
  unfold removeMessage. simpl. destruct (form s) as [j c d kids]. simpl.
  apply (removeAll_count sel_shallow).
Qed.

Lemma removeExistingMessage_count (n : node) :
  countIn sel (children (removeExistingMessage n)) <= countIn sel (children n).
Proof.
  unfold removeExistingMessage.
  destruct (removeFirstUnder isFormMessage n) as [n' |] eqn:E; [| lia].
  pose proof (removeFirstUnder_count sel_shallow _ _ E) as H.
  rewrite !(countIn_node sel) in H.
  destruct n as [j c d kids]. simpl in E.
  destruct (removeFirstIn isFormMessage (removeFirstUnder isFormMessage) kids);
    simpl in E; [| discriminate].
  injection E as <-. rewrite (count1_shallow sel_shallow j c d l kids) in H.
  simpl in *. lia.
Qed.

Lemma clearErrors_count (n : node) :
  countIn sel (children (clearErrors n)) <= countIn sel (children n).
Proof.
  unfold clearErrors. destruct n as [j c d kids]. simpl.
  etransitivity; [apply (removeAll_count sel_shallow) |].
  apply relabel_count; intro k; unfold condUnstyle; destruct (isErrorStyled k);
    try reflexivity; [apply nodeId_setClasses | apply sel_unstyle].
Qed.

Lemma reset_count (n : node) :
  countIn sel (children (reset n)) <= countIn sel (children n).
Proof.
  unfold reset. destruct n as [j c d kids]. simpl.
  apply relabel_count; intro k; [apply nodeId_setPayload | apply sel_payload].
Qed.

(** A message goes in as first child after the old one went out. *)
Lemma insertMessage_count (msg : node) (b : nat) (h : string) (n : node) :
  children msg = [] ->
  countIn sel (children (setButton b false h (clearErrors (reset (insertFirst msg n)))))
  <= count1 sel msg + countIn sel (children n).
Proof.
  intro Hm.
  etransitivity; [apply setButton_count |].
  etransitivity; [apply clearErrors_count |].
  etransitivity; [apply reset_count |].
  destruct n as [j c d kids]. simpl. rewrite (countIn_cons sel), Hm, countIn_nil. lia.
Qed.

Lemma handleFormSuccess_count (b : nat) (h : string) (s : page) :
  countIn sel (children (form (handleFormSuccess b h s)))
  <= count1 sel (successMessage (nextId s))
     + countIn sel (children (removeExistingMessage (form s))).
Proof. unfold handleFormSuccess. simpl. apply insertMessage_count. reflexivity. Qed.


End CountingSteps.

(** ** Form messages over the life of the page *)

Section MessageInvariants.


Lemma isFormMessage_unstyle (k : node) :
  isFormMessage (setClasses (removeTokens errorStyling) k) = isFormMessage k.
Proof. apply hasClass_unstyle, not_styling_form_message. Qed.

Lemma isFormMessage_style (k : node) :
  isFormMessage (setClasses (addTokens errorStyling) k) = isFormMessage k.
Proof. apply hasClass_style, not_styling_form_message. Qed.

Lemma not_styling_red : ~ In "bg-red-50" errorStyling.
Proof. simpl. intros [H | [H | []]]; discriminate. Qed.

Lemma isErrorBanner_shallow : shallow isErrorBanner.
Proof. intros i c d ks ks'. reflexivity. Qed.

Lemma isErrorBanner_payload (g : payload -> payload) (k : node) :
  isErrorBanner (setPayload g k) = isErrorBanner k.
Proof. destruct k; reflexivity. Qed.

Lemma isErrorBanner_unstyle (k : node) :
  isErrorBanner (setClasses (removeTokens errorStyling) k) = isErrorBanner k.
Proof.
  unfold isErrorBanner. rewrite isFormMessage_unstyle.
  rewrite (hasClass_unstyle _ not_styling_red). reflexivity.
Qed.

Lemma isErrorBanner_style (k : node) :
  isErrorBanner (setClasses (addTokens errorStyling) k) = isErrorBanner k.
Proof.
  unfold isErrorBanner. rewrite isFormMessage_style.
  rewrite (hasClass_style _ not_styling_red). reflexivity.
Qed.



End MessageInvariants.

Section Lifting.

(** A property of the form that every listener and every timer keeps holds
    throughout any history. *)
Variable I : node -> Prop.
Hypothesis I_handle : forall e s, I (form s) -> I (form (handle e s)).
Hypothesis I_fire : forall cb s, I (form s) -> I (form (fire cb s)).

Lemma runTimers_inv (fuel : nat) (t : Z) :
  forall s, I (form s) -> I (form (runTimers fuel t s)).
Proof.
  induction fuel as [| fuel IH]; intros s H; simpl; [exact H |].
  destruct (pickTimer (timers s)) as [[[d cb] rest] |]; [| exact H].
  destruct (d <=? t)%Z; [| exact H].
  apply IH, I_fire. exact H.
Qed.

Lemma advance_inv (t : Z) (s : page) : I (form s) -> I (form (advance t s)).
Proof. intro H. unfold advance. simpl. apply runTimers_inv, H. Qed.

Lemma run_inv (h : list (Z * event)) :
  forall s, I (form s) -> I (form (run h s)).
Proof.
  induction h as [| [t e] rest IH]; intros s H; simpl; [exact H |].
  apply IH, I_handle, advance_inv, H.
Qed.

End Lifting.

Section FormMessageCount.


Ltac error_banner_facts :=
  first [ apply isErrorBanner_shallow
        | apply isErrorBanner_unstyle
        | apply isErrorBanner_style
        | intros; apply isErrorBanner_payload
        | intros; reflexivity ].





Lemma handle_error_banner (e : event) (s : page) :
  countIn isErrorBanner (children (form s)) = 0 ->
  countIn isErrorBanner (children (form (handle e s))) = 0.
Proof.
  intro H. apply Nat.le_0_r. rewrite <- H.
  apply handle_count; error_banner_facts.
Qed.

Lemma fire_error_banner (cb : callback) (s : page) :
  countIn isErrorBanner (children (form s)) = 0 ->
  countIn isErrorBanner (children (form (fire cb s))) = 0.
Proof.
  intro H. apply Nat.le_0_r. destruct cb as [b h | m]; cbn [fire].
  - etransitivity; [apply handleFormSuccess_count; error_banner_facts |].
    unfold count1. simpl. rewrite <- H.
    apply removeExistingMessage_count; error_banner_facts.
  - rewrite <- H. apply removeMessage_count; error_banner_facts.
Qed.

End FormMessageCount.

(** ** validateField clears before it computes *)

Section ClearFirst.

Lemma removeFirstUnder_label (sel : node -> bool) (n n' : node) :
  removeFirstUnder sel n = Some n' ->
  nodeId n' = nodeId n /\ classes n' = classes n /\ payloadOf n' = payloadOf n.
Proof.
  destruct n as [j c d ks]. simpl.
  destruct (removeFirstIn sel (removeFirstUnder sel) ks); simpl; [| discriminate].
  intros [= <-]. auto.
Qed.

Lemma removeFirst_kid (sel : node -> bool) (ks : list node) :
  forall ks' k', removeFirst sel ks = Some ks' -> In k' ks' ->
                 exists k, In k ks /\ nodeId k' = nodeId k /\ classes k' = classes k.
Proof.
  unfold removeFirst. induction ks as [| x ks IH]; simpl; intros ks' k' H Hin;
    [discriminate |].
  destruct (sel x).
  - injection H as <-. exists k'. auto.
  - destruct (removeFirstUnder sel x) as [x' |] eqn:Eu.
    + injection H as <-. destruct Hin as [<- | Hin].
      * exists x. destruct (removeFirstUnder_label _ _ Eu) as (A & B & _). auto.
      * exists k'. auto.
    + destruct (removeFirstIn sel (removeFirstUnder sel) ks) as [r |]; simpl in H;
        [| discriminate].
      injection H as <-. destruct Hin as [<- | Hin].
      * exists x. auto.
      * destruct (IH _ _ eq_refl Hin) as (k & Hk & A & B). exists k. auto.
Qed.

Lemma unstyled_classes (c : list string) :
  existsb (String.eqb "error") (removeTokens errorStyling c) = false /\
  existsb (String.eqb "border-red-500") (removeTokens errorStyling c) = false.
Proof.
  split; apply not_true_is_false; rewrite existsb_eqb_In, In_removeTokens;
    intros [_ H]; apply H; simpl; auto.
Qed.

(** After the clearing step the field carries no error styling. *)
Lemma clearFieldError_unstyled (i : nat) (ks : list node) (k : node) :
  In k (clearFieldError i ks) -> nodeId k = i ->
  hasClass "error" k = false /\ hasClass "border-red-500" k = false.
Proof.
  intros Hin Hid. unfold clearFieldError in Hin.
  set (ks1 := updKid i (setClasses (removeTokens errorStyling)) ks) in *.
  assert (H1 : forall x, In x ks1 -> nodeId x = i ->
                         hasClass "error" x = false /\ hasClass "border-red-500" x = false).
  { intros x Hx Ex. unfold ks1, updKid in Hx. apply in_map_iff in Hx as (y & <- & _).
    destruct (hasId i y) eqn:E.
    - unfold hasClass. rewrite classes_setClasses. apply unstyled_classes.
    - unfold hasId in E. apply Nat.eqb_neq in E. congruence. }
  destruct (removeFirst isErrorMessage ks1) as [ks2 |] eqn:Er; [| auto].
  destruct (@removeFirst_kid isErrorMessage ks1 ks2 k Er Hin) as (x & Hx & A & B).
  unfold hasClass. rewrite B. apply H1; [exact Hx | congruence].
Qed.



End ClearFirst.

(** ** The invariants of the specification *)

Section Invariants.


(** C10. No listener and no timer of the contact form ever puts an error
    banner into the form: a form without one stays without one through
    every history of events and timers.  A submission that passes
    [validateForm] schedules the simulated submission 2000 ms ahead, and
    that timer runs [handleFormSuccess].  ([handleFormError], which no
    listener and no timer calls, would put one in.) *)
Theorem failure_unreachable :
  (forall hist t s,
      countIn isErrorBanner (children (form s)) = 0 ->
      countIn isErrorBanner (children (form (advance t (run hist s)))) = 0) /\
  (forall s s1 b,
      validateForm s = (Some true, s1) ->
      querySelector isSubmitButton (form s1) = Some b ->
      exists s2,
        onSubmit s = (Some tt, s2) /\
        timers s2 = timers s1 ++ [((now s1 + 2000)%Z,
                                   SubmitDone (nodeId b) (buttonText b))]) /\
  (forall b h s, fire (SubmitDone b h) s = handleFormSuccess b h s) /\
  (forall b h msg s,
      countIn isErrorBanner (children (form (handleFormError b h msg s))) <> 0).
Proof.
  repeat split.
  - intros hist t s H.
    apply (advance_inv (fun n => countIn isErrorBanner (children n) = 0)
                       fire_error_banner).
    apply (run_inv (fun n => countIn isErrorBanner (children n) = 0)
                   handle_error_banner fire_error_banner).
    exact H.
  - intros s s1 b Hv Hb. unfold onSubmit, bind. rewrite Hv. simpl. rewrite Hb.
    eexists. split; reflexivity.
  - intros b h msg s. unfold handleFormError. simpl.
    destruct (removeExistingMessage (form s)) as [j c d kids]. simpl.
    rewrite (countIn_cons isErrorBanner). unfold count1, hasId. simpl.
    destruct (nextId s =? b)%nat; simpl; lia.
Qed.

End Invariants.

(** ** The life of one submission *)

Section SubmitFacts.

Lemma validateField_frame (i : nat) (s : page) :
  timers (snd (validateField i s)) = timers s /\
  now (snd (validateField i s)) = now s.
Proof.
  unfold validateField.
  destruct (parentKids i (form s)) as [ks |]; [| auto].
  destruct (fieldOf i ks) as [f |]; [| auto].
  destruct (isValid (fieldResult f)); [auto |].
  destruct (hasKid i (clearFieldError i ks)); auto.
Qed.

Lemma validateEach_frame (fields : list nat) :
  forall ok s, timers (snd (validateEach fields ok s)) = timers s /\
               now (snd (validateEach fields ok s)) = now s.
Proof.
  induction fields as [| i rest IH]; intros ok s; simpl; [auto |].
  unfold bind. destruct (validateField_frame i s) as [Ht Hn].
  destruct (validateField i s) as [[b |] s']; simpl in *; [| auto].
  destruct (IH (if negb b then false else ok) s') as [Ht' Hn'].
  split; congruence.
Qed.

Lemma validateForm_frame (s : page) :
  timers (snd (validateForm s)) = timers s /\ now (snd (validateForm s)) = now s.
Proof. apply validateEach_frame. Qed.

Lemma nodes_mapNodes (g : node -> node) (n : node) :
  nodes (mapNodes g n) = map (mapNodes g) (nodes n).
Proof.
  induction n as [j c d ks IH] using node_ind'. simpl. f_equal.
  induction IH as [| k ks Hk _ IHks]; simpl; [reflexivity |].
  rewrite map_app, Hk, IHks. reflexivity.
Qed.

Lemma descendants_mapDescendants (g : node -> node) (n : node) :
  descendants (mapDescendants g n) = map (mapNodes g) (descendants n).
Proof.
  destruct n as [j c d ks]. unfold descendants. simpl.
  induction ks as [| k ks IH]; simpl; [reflexivity |].
  rewrite map_app, nodes_mapNodes, IH. reflexivity.
Qed.

Lemma find_map_same {A : Type} (sel : A -> bool) (h : A -> A) (l : list A) :
  (forall x, sel (h x) = sel x) -> find sel (map h l) = option_map h (find sel l).
Proof.
  intro H. induction l as [| x l IH]; simpl; [reflexivity |].
  rewrite H. destruct (sel x); [reflexivity | exact IH].
Qed.

Lemma querySelector_mapDescendants (sel : node -> bool) (g : node -> node) (n : node) :
  (forall k, sel (mapNodes g k) = sel k) ->
  querySelector sel (mapDescendants g n) = option_map (mapNodes g) (querySelector sel n).
Proof.
  intro H. unfold querySelector. rewrite descendants_mapDescendants.
  apply find_map_same, H.
Qed.

(** The relabelling steps keep a submit button a submit button. *)
Lemma isSubmitButton_setButton (b : nat) (dis : bool) (h : string) (k : node) :
  isSubmitButton
    (mapNodes (fun k => if hasId b k then setPayload (buttonUpdate dis h) k else k) k)
  = isSubmitButton k.
Proof.
  destruct k as [j c d kk]. unfold isSubmitButton. simpl.
  destruct (hasId b (Node j c d kk)); [| reflexivity].
  destruct d; reflexivity.
Qed.

Lemma isSubmitButton_reset (k : node) :
  isSubmitButton (mapNodes resetField k) = isSubmitButton k.
Proof. destruct k as [j c [f | ty dis h | h] kk]; reflexivity. Qed.


Lemma submitControl_setButton (b : nat) (dis dis0 : bool) (h h0 : string) (n : node) :
  submitControl b dis0 h0 n -> submitControl b dis h (setButton b dis h n).
Proof.
  intros (k & ty & Hq & Hid & Hp). unfold submitControl, setButton.
  rewrite querySelector_mapDescendants by apply isSubmitButton_setButton.
  rewrite Hq. simpl. destruct k as [j c d kk]. simpl in *. subst j d.
  eexists. exists ty. unfold hasId. simpl. rewrite Nat.eqb_refl. simpl. auto.
Qed.

Lemma submitControl_reset (b : nat) (dis : bool) (h : string) (n : node) :
  submitControl b dis h n -> submitControl b dis h (reset n).
Proof.
  intros (k & ty & Hq & Hid & Hp). unfold submitControl, reset.
  rewrite querySelector_mapDescendants by apply isSubmitButton_reset.
  rewrite Hq. simpl. destruct k as [j c d kk]. simpl in *. subst j d.
  eexists. exists ty. simpl. auto.
Qed.

End SubmitFacts.

Section Tidy.








Lemma isDirty_reset (n : node) : isDirty (mapNodes resetField n) = false.
Proof.
  destruct n as [j c [f | ty dis h | h] kk]; unfold isDirty; simpl; try reflexivity.
  destruct (list_eq_dec N.eq_dec (defaultValue f) (defaultValue f)); [| congruence].
  rewrite Bool.eqb_reflx. reflexivity.
Qed.



Lemma reset_clean (n : node) : countIn isDirty (children (reset n)) = 0.
Proof.
  unfold reset. destruct n as [j c d kids]. simpl.
  apply mapNodes_count_zero, isDirty_reset.
Qed.



End Tidy.

Section SubmitTimers.

Lemma runTimers_S (fuel : nat) (t : Z) (s : page) :
  runTimers (S fuel) t s =
  match pickTimer (timers s) with
  | Some ((d, cb), rest) =>
      if (d <=? t)%Z
      then runTimers fuel t (fire cb (setTimers rest (setNow (Z.max (now s) d) s)))
      else s
  | None => s
  end.
Proof. reflexivity. Qed.

Variable sub : page.
Variable b : nat.
Variable h : string.
Hypothesis scheduled : timers sub = [((now sub + 2000)%Z, SubmitDone b h)].


End SubmitTimers.

(** ** The timer queue *)

Section TimerQueue.

Lemma pickTimer_spec (ts : list (Z * callback)) :
  match pickTimer ts with
  | None => ts = []
  | Some ((d, cb), rest) =>
      pending ts = timerWeight cb + pending rest /\
      (forall x, In x ts -> (d <= fst x)%Z) /\
      (forall x, In x rest -> In x ts)
  end.
Proof.
  induction ts as [| [d0 cb0] r IH]; simpl; [reflexivity |].
  destruct (pickTimer r) as [[[d cb] rest] |].
  - destruct IH as (Hw & Hmin & Hsub). unfold pending in *. simpl.
    destruct (d0 <=? d)%Z eqn:E.
    + apply Z.leb_le in E. split; [reflexivity |]. split.
      * intros x [<- | Hx]; simpl; [lia |]. specialize (Hmin x Hx). lia.
      * intros x Hx. right. exact Hx.
    + apply Z.leb_gt in E. split; [simpl; lia |]. split.
      * intros x [<- | Hx]; simpl; [lia | exact (Hmin x Hx)].
      * intros x [<- | Hx]; [left; reflexivity | right; exact (Hsub x Hx)].
  - subst r. unfold pending. simpl. split; [lia |]. split.
    + intros x [<- | []]. simpl. lia.
    + intros x [].
Qed.

Lemma pending_fire (cb : callback) (rest : list (Z * callback)) (s : page) :
  timers s = rest -> S (pending (timers (fire cb s))) = timerWeight cb + pending rest.
Proof.
  intro H. destruct cb as [b h | m]; simpl; rewrite H; unfold pending.
  - rewrite map_app, list_sum_app. simpl. lia.
  - reflexivity.
Qed.

(** The fuel that [advance] gives is enough: when it returns, no timer
    that is due is left. *)
Lemma runTimers_quiescent (fuel : nat) (t : Z) :
  forall s, pending (timers s) <= fuel ->
            forall x, In x (timers (runTimers fuel t s)) -> (t < fst x)%Z.
Proof.
  induction fuel as [| fuel IH]; intros s Hf x Hx.
  - simpl in Hx. pose proof (pickTimer_spec (timers s)) as P.
    destruct (pickTimer (timers s)) as [[[d cb] rest] |].
    + destruct P as (Hw & _). destruct cb; simpl in Hw; lia.
    + rewrite P in Hx. destruct Hx.
  - rewrite runTimers_S in Hx. pose proof (pickTimer_spec (timers s)) as P.
    destruct (pickTimer (timers s)) as [[[d cb] rest] |].
    + destruct P as (Hw & Hmin & _).
      destruct (d <=? t)%Z eqn:E.
      * apply (IH _) in Hx; [exact Hx |].
        pose proof (@pending_fire cb rest
                      (setTimers rest (setNow (Z.max (now s) d) s)) eq_refl) as Hp.
        lia.
      * apply Z.leb_gt in E. specialize (Hmin x Hx). lia.
    + rewrite P in Hx. destruct Hx.
Qed.

Lemma advance_quiescent (t : Z) (s : page) (x : Z * callback) :
  In x (timers (advance t s)) -> (t < fst x)%Z.
Proof. unfold advance. cbn [timers setNow]. apply runTimers_quiescent. lia. Qed.

End TimerQueue.

Section SubmitLifecycle.

Lemma hasId_shallow (m : nat) : shallow (hasId m).
Proof. intros i c d ks ks'. reflexivity. Qed.

Lemma filter_nil_count (sel : node -> bool) (n : node) :
  countIn sel (children n) = 0 -> querySelectorAll sel n = [].
Proof. unfold countIn, querySelectorAll, descendants. apply length_zero_iff_nil. Qed.

Lemma removeExistingMessage_same (n : node) :
  countIn isFormMessage (children n) = 0 -> removeExistingMessage n = n.
Proof.
  intro H. unfold removeExistingMessage.
  destruct (removeFirstUnder_strict (hasClass_shallow "form-message") n) as [[Hz _] _].
  unfold isFormMessage. rewrite (Hz H). reflexivity.
Qed.



Variables s0 s1 : page.
Variable bnode : node.

Hypothesis idle : timers s0 = [].
Hypothesis valid : validateForm s0 = (Some true, s1).
Hypothesis button : querySelector isSubmitButton (form s1) = Some bnode.
Hypothesis no_form_message : countIn isFormMessage (children (form s1)) = 0.
Hypothesis no_error_message : countIn isErrorMessage (children (form s1)) = 0.
Hypothesis fresh : countIn (hasId (nextId s1)) (children (form s1)) = 0.









End SubmitLifecycle.

(** ** The checkbox and its neighbours *)

Section CheckboxClaim.

(** C7, as the code has it.  Let the parent element of a required,
    unchecked checkbox hold no error message.  Validating the box returns
    [false] and puts the data-privacy message under that parent; ticking
    the box and validating it again returns [true], and the form is then
    the form from before the first validation with nothing changed but
    the box itself (ticked, without error styling): every other control
    and every other error message is as it was. *)
Theorem checkbox_toggle (s : page) (i : nat) (f : field) (ks : list node) :
  parentKids i (form s) = Some ks -> fieldOf i ks = Some f ->
  fieldType f = "checkbox" -> required f = true -> checked f = false ->
  countIn isErrorMessage ks = 0 -> i < nextId s ->
  validateField i s = (Some false, flaggedPage s i ks) /\
  In (errorElement (nextId s) msgPrivacy) (descendants (form (flaggedPage s i ks))) /\
  validateField i (handle (Edit i tick) (flaggedPage s i ks))
    = (Some true, tickedPage s i ks) /\
  form (tickedPage s i ks)
    = setParentKids i
        (updKid i (fun k => setClasses (removeTokens errorStyling)
                              (setPayload tickPayload k)) ks)
        (form s).
Proof.
  intros Hp Hf Ht Hr Hc H0 Hi. split; [| split; [| split]].
  - eapply validate_unchecked; eassumption.
  - unfold flaggedPage. cbn [form]. eapply parentKids_descendants.
    + eapply parentKids_setParentKids; [exact Hp |].
      eapply hasKid_flaggedKids; exact Hp.
    + unfold flaggedKids. apply in_or_app. right. left. reflexivity.
  - eapply validate_ticked; eassumption.
  - reflexivity.
Qed.

End CheckboxClaim.

(** ** The script on the sample forms *)

Section ScriptSamples.

Import Sample.

Lemma checkbox_toggle_witness :
  parentKids 2 (form consentPage) = Some [Node 2 [] (PField (checkbox "privacy" true false)) []] /\
  fieldType (checkbox "privacy" true false) = "checkbox" /\
  countIn isErrorMessage [Node 2 [] (PField (checkbox "privacy" true false)) []] = 0 /\
  2 < nextId consentPage /\
  fst (validateField 2 consentPage) = Some false /\
  fst (validateField 2 (handle (Edit 2 tick) (snd (validateField 2 consentPage))))
    = Some true.
Proof.
  destruct (@checkbox_toggle consentPage 2 (checkbox "privacy" true false)
              [Node 2 [] (PField (checkbox "privacy" true false)) []]
              eq_refl eq_refl eq_refl eq_refl eq_refl eq_refl)
    as (First & _ & Second & _).
  - unfold consentPage, pageWith. simpl. lia.
  - rewrite First. cbn [snd fst]. rewrite Second.
    split; [reflexivity |]. split; [reflexivity |]. split; [reflexivity |].
    split; [simpl; lia |]. split; reflexivity.
Defined.

(** C7, as stated, fails on a form whose email field shares its parent
    with the checkbox.  Before the box is ticked the email field is styled
    as invalid and its message is shown; ticking the box and validating it
    again returns [true] and detaches the message of the email field,
    which is still styled as invalid. *)
Lemma checkbox_toggle_counterexample :
  errorTexts (form sharedBefore) = [msgEmailInvalid] /\
  styledInvalid 2 (form sharedBefore) = true /\
  styledInvalid 3 (form sharedBefore) = true /\
  fst (validateField 3 (handle (Edit 3 tick) sharedBefore)) = Some true /\
  errorTexts (form sharedAfter) = [] /\
  styledInvalid 2 (form sharedAfter) = true /\
  styledInvalid 3 (form sharedAfter) = false.
Proof. vm_compute. repeat split. Qed.




Lemma failure_unreachable_witness :
  countIn isErrorBanner (children (form filledPage)) = 0 /\
  countIn isErrorBanner
    (children (form (advance 20000 (run [(0%Z, Submit); (2500%Z, Blur 4);
                                         (3000%Z, Submit)] filledPage)))) = 0 /\
  validateForm filledPage = (Some true, filledPage) /\
  (exists s2, onSubmit filledPage = (Some tt, s2) /\
              timers s2 = [(2000%Z, SubmitDone 9 "Nachricht senden")]).
Proof.
  destruct failure_unreachable as (Safe & Schedule & _).
  assert (H0 : countIn isErrorBanner (children (form filledPage)) = 0) by reflexivity.
  assert (V : validateForm filledPage = (Some true, filledPage)) by (vm_compute; reflexivity).
  split; [exact H0 |]. split; [apply Safe; exact H0 |]. split; [exact V |].
  destruct (Schedule filledPage filledPage submitButtonNode V eq_refl) as (s2 & E & T).
  exists s2. split; [exact E | exact T].
Defined.

End ScriptSamples.


(** * Part III: further properties of the code *)
(** ** The form endpoints *)

Section EndpointMore.

Import Endpoint EndpointSample EndpointNotions.

Lemma processForm_status_body (hs okHs hs' okHs' : list (string * string)) (e : env)
    (d : json) :
  statusCode (processForm hs okHs e d) = statusCode (processForm hs' okHs' e d) /\
  respBody (processForm hs okHs e d) = respBody (processForm hs' okHs' e d).
Proof.
  unfold processForm.
  destruct (0 <? List.length (missingFields d))%nat; [split; reflexivity |].
  destruct (negb (test emailRegex (toStringOpt (getProp "email" d))));
    [split; reflexivity |].
  destruct (truthyJ (getProp "website" d)); split; reflexivity.
Qed.

(** X1.  The Netlify function and the Vercel function answer every request
    whose method is not OPTIONS with the same status code and the same
    body; they differ in the headers only. *)
Theorem handlers_agree (e : env) (req : request) :
  httpMethod req <> "OPTIONS" ->
  statusCode (netlifyHandler e req) = statusCode (vercelHandler e req) /\
  respBody (netlifyHandler e req) = respBody (vercelHandler e req).
Proof.
  intro Ho. apply String.eqb_neq in Ho.
  unfold netlifyHandler, vercelHandler. rewrite Ho.
  destruct (negb (httpMethod req =? "POST")); [split; reflexivity |].
  destruct (body req) as [[] |]; try (split; reflexivity);
    apply processForm_status_body.
Qed.

Lemma handlers_agree_witness :
  httpMethod (post spamLead) <> "OPTIONS" /\
  statusCode (netlifyHandler sampleEnv (post spamLead)) = 400%Z /\
  statusCode (vercelHandler sampleEnv (post spamLead)) = 400%Z /\
  respBody (netlifyHandler sampleEnv (post spamLead)) =
    respBody (vercelHandler sampleEnv (post spamLead)).
Proof.
  assert (H : httpMethod (post spamLead) <> "OPTIONS") by discriminate.
  destruct (handlers_agree sampleEnv (post spamLead) H) as [St Bd].
  split; [exact H |]. split; [reflexivity |]. split; [rewrite <- St; reflexivity | exact Bd].
Defined.

Lemma processForm_headers (hs okHs : list (string * string)) (e : env) (d : json) :
  (statusCode (processForm hs okHs e d) = 200%Z /\
   respHeaders (processForm hs okHs e d) = okHs) \/
  (statusCode (processForm hs okHs e d) = 400%Z /\
   respHeaders (processForm hs okHs e d) = hs).
Proof.
  unfold processForm.
  destruct (0 <? List.length (missingFields d))%nat; [right; split; reflexivity |].
  destruct (negb (test emailRegex (toStringOpt (getProp "email" d))));
    [right; split; reflexivity |].
  destruct (truthyJ (getProp "website" d)); [right | left]; split; reflexivity.
Qed.

(** X2.  The Vercel function sends its four CORS headers with every answer,
    the error answers included.  The Netlify function sends headers
    ([Content-Type] and [Access-Control-Allow-Origin]) with the 200 answer
    only: each of its error answers (400, 405, 500) carries none. *)
Theorem cors_headers (e : env) (req : request) :
  respHeaders (vercelHandler e req) = corsHeaders /\
  (statusCode (netlifyHandler e req) = 200%Z ->
   respHeaders (netlifyHandler e req) = netlifyOkHeaders) /\
  (statusCode (netlifyHandler e req) <> 200%Z ->
   respHeaders (netlifyHandler e req) = []).
Proof.
  split.
  - unfold vercelHandler.
    destruct (httpMethod req =? "OPTIONS"); [reflexivity |].
    destruct (negb (httpMethod req =? "POST")); [reflexivity |].
    destruct (body req) as [[] |]; try reflexivity;
      match goal with
      | |- respHeaders (processForm ?a ?b ?c ?d) = _ =>
          destruct (processForm_headers a b c d) as [[_ ->] | [_ ->]]; reflexivity
      end.
  - unfold netlifyHandler.
    destruct (negb (httpMethod req =? "POST"));
      [simpl; split; [discriminate | reflexivity] |].
    destruct (body req) as [[] |]; try (simpl; split; [discriminate | reflexivity]);
      match goal with
      | |- context [processForm ?a ?b ?c ?d] =>
          destruct (processForm_headers a b c d) as [[-> ->] | [-> ->]];
          split; intro H; try reflexivity; try discriminate; congruence
      end.
Qed.

Lemma cors_headers_witness :
  statusCode (netlifyHandler sampleEnv (post spamLead)) <> 200%Z /\
  respHeaders (netlifyHandler sampleEnv (post spamLead)) = [] /\
  respHeaders (vercelHandler sampleEnv (post spamLead)) = corsHeaders /\
  statusCode (netlifyHandler sampleEnv postLead) = 200%Z /\
  respHeaders (netlifyHandler sampleEnv postLead) = netlifyOkHeaders.
Proof.
  assert (H4 : statusCode (netlifyHandler sampleEnv (post spamLead)) <> 200%Z)
    by discriminate.
  destruct (cors_headers sampleEnv (post spamLead)) as (V & _ & N).
  destruct (cors_headers sampleEnv postLead) as (_ & Ok & _).
  split; [exact H4 |]. split; [exact (N H4) |]. split; [exact V |].
  split; [reflexivity | exact (Ok eq_refl)].
Defined.

Lemma processForm_ext (hs okHs : list (string * string)) (e : env) (d1 d2 : json) :
  (forall k, In k readKeys -> getProp k d1 = getProp k d2) ->
  processForm hs okHs e d1 = processForm hs okHs e d2.
Proof.
  intro H. unfold processForm, missingFields, requiredFields. simpl filter.
  rewrite <- (H "name"), <- (H "email"), <- (H "courseInterest"), <- (H "website");
    unfold readKeys; simpl; auto 10.
Qed.

(** X3.  The answer depends on the body through the four properties
    [name], [email], [courseInterest] and [website] only: two bodies other
    than [null] that agree on these get the same answer, whatever else
    they hold. *)
Theorem handler_reads_four_fields (p : platform) (e : env) (m : string) (d1 d2 : json) :
  d1 <> JNull -> d2 <> JNull ->
  (forall k, In k readKeys -> getProp k d1 = getProp k d2) ->
  handler p e (mkRequest m (Some d1)) = handler p e (mkRequest m (Some d2)).
Proof.
  intros N1 N2 H.
  destruct p; unfold handler, netlifyHandler, vercelHandler; cbn [httpMethod body].
  - destruct (negb (m =? "POST")); [reflexivity |].
    destruct d1; try congruence; destruct d2; try congruence;
      apply processForm_ext; exact H.
  - destruct (m =? "OPTIONS"); [reflexivity |].
    destruct (negb (m =? "POST")); [reflexivity |].
    destruct d1; try congruence; destruct d2; try congruence;
      apply processForm_ext; exact H.
Qed.

Lemma handler_reads_four_fields_witness :
  sampleLead <> JNull /\ longLead <> JNull /\
  (forall k, In k readKeys -> getProp k sampleLead = getProp k longLead) /\
  handler Netlify sampleEnv (mkRequest "POST" (Some sampleLead)) =
    handler Netlify sampleEnv (mkRequest "POST" (Some longLead)).
Proof.
  assert (N1 : sampleLead <> JNull) by discriminate.
  assert (N2 : longLead <> JNull) by discriminate.
  assert (H : forall k, In k readKeys -> getProp k sampleLead = getProp k longLead).
  { intros k [<- | [<- | [<- | [<- | []]]]]; reflexivity. }
  split; [exact N1 |]. split; [exact N2 |]. split; [exact H |].
  exact (handler_reads_four_fields Netlify sampleEnv "POST" N1 N2 H).
Defined.












End EndpointMore.

(** ** The timer queue of the other scripts *)

Section ClockFacts.

Context {St Tk : Type}.
Variable timersOf : St -> list (Z * Tk).
Variable nowOf : St -> Z.
Variable setClock : Z -> list (Z * Tk) -> St -> St.
Variable fire : Tk -> St -> St.
Variable weight : Tk -> nat.

Hypothesis timers_setClock : forall n q s, timersOf (setClock n q s) = q.
Hypothesis fire_load :
  forall k n q s,
    S (Clock.load weight (timersOf (fire k (setClock n q s))))
    <= weight k + Clock.load weight q.

(** The callback that runs next is the first of those due earliest. *)
Lemma pickDue_split (ts : list (Z * Tk)) :
  match Clock.pickDue ts with
  | None => ts = []
  | Some ((d, k), rest) =>
      exists l1 l2, ts = l1 ++ (d, k) :: l2 /\ rest = l1 ++ l2 /\
                    (forall x, In x l1 -> (d < fst x)%Z) /\
                    (forall x, In x l2 -> (d <= fst x)%Z)
  end.
Proof.
  induction ts as [| [d0 k0] r IH]; simpl; [reflexivity |].
  destruct (Clock.pickDue r) as [[[d k] rest] |].
  - destruct IH as (l1 & l2 & -> & -> & H1 & H2). cbn [fst].
    destruct (d0 <=? d)%Z eqn:E.
    + apply Z.leb_le in E. cbn. exists [], (l1 ++ (d, k) :: l2).
      split; [reflexivity |]. split; [reflexivity |]. split; [intros x [] |].
      intros x Hx. apply in_app_or in Hx as [Hx | [<- | Hx]]; simpl.
      * specialize (H1 x Hx). lia.
      * exact E.
      * specialize (H2 x Hx). lia.
    + apply Z.leb_gt in E. cbn. exists ((d0, k0) :: l1), l2.
      split; [reflexivity |]. split; [reflexivity |]. split; [| exact H2].
      intros x [<- | Hx]; [exact E | exact (H1 x Hx)].
  - subst r. exists [], []. repeat split; intros x [].
Qed.

Lemma load_app (l1 l2 : list (Z * Tk)) :
  Clock.load weight (l1 ++ l2) = Clock.load weight l1 + Clock.load weight l2.
Proof. unfold Clock.load. rewrite map_app, list_sum_app. reflexivity. Qed.

Lemma runDue_S (fuel : nat) (t : Z) (s : St) :
  Clock.runDue timersOf nowOf setClock fire (S fuel) t s =
  match Clock.pickDue (timersOf s) with
  | Some ((d, k), rest) =>
      if (d <=? t)%Z
      then Clock.runDue timersOf nowOf setClock fire fuel t
             (fire k (setClock (Z.max (nowOf s) d) rest s))
      else s
  | None => s
  end.
Proof. reflexivity. Qed.

(** What holds before the callbacks run and is kept by each of them, run
    at its time as the first one due, holds afterwards. *)
Lemma runDue_inv (t : Z) (Inv : St -> Prop) :
  (forall s d k l1 l2,
      Inv s -> timersOf s = l1 ++ (d, k) :: l2 ->
      (forall x, In x l1 -> (d < fst x)%Z) ->
      (forall x, In x l2 -> (d <= fst x)%Z) ->
      (d <= t)%Z ->
      Inv (fire k (setClock (Z.max (nowOf s) d) (l1 ++ l2) s))) ->
  forall fuel s, Inv s ->
                 Inv (Clock.runDue timersOf nowOf setClock fire fuel t s).
Proof.
  intros Step. induction fuel as [| fuel IH]; intros s H; [exact H |].
  rewrite runDue_S. pose proof (pickDue_split (timersOf s)) as P.
  destruct (Clock.pickDue (timersOf s)) as [[[d k] rest] |]; [| exact H].
  destruct P as (l1 & l2 & E & -> & H1 & H2).
  destruct (d <=? t)%Z eqn:Ed; [| exact H].
  apply Z.leb_le in Ed. apply IH. eapply Step; eassumption.
Qed.

(** With the fuel that [advanceTo] gives, no callback that is due is left
    behind. *)
Lemma runDue_quiescent (t : Z) :
  forall fuel s,
    Clock.load weight (timersOf s) <= fuel ->
    forall x, In x (timersOf (Clock.runDue timersOf nowOf setClock fire fuel t s)) ->
              (t < fst x)%Z.
Proof.
  induction fuel as [| fuel IH]; intros s Hf x Hx.
  - simpl in Hx. pose proof (pickDue_split (timersOf s)) as P.
    destruct (Clock.pickDue (timersOf s)) as [[[d k] rest] |].
    + destruct P as (l1 & l2 & E & _). rewrite E, load_app in Hf.
      unfold Clock.load in Hf at 2. simpl in Hf.
      pose proof (fire_load k 0%Z [] s) as W. unfold Clock.load at 2 in W.
      simpl in W. lia.
    + rewrite P in Hx. destruct Hx.
  - rewrite runDue_S in Hx. pose proof (pickDue_split (timersOf s)) as P.
    destruct (Clock.pickDue (timersOf s)) as [[[d k] rest] |].
    + destruct P as (l1 & l2 & E & -> & H1 & H2).
      destruct (d <=? t)%Z eqn:Ed.
      * apply IH in Hx; [exact Hx |].
        pose proof (fire_load k (Z.max (nowOf s) d) (l1 ++ l2) s) as W.
        rewrite E, load_app in Hf. unfold Clock.load in Hf at 2. simpl in Hf.
        fold (Clock.load weight l2) in Hf. rewrite load_app in W. lia.
      * apply Z.leb_gt in Ed. rewrite E in Hx.
        apply in_app_or in Hx as [Hx | [<- | Hx]]; simpl.
        -- specialize (H1 x Hx). lia.
        -- exact Ed.
        -- specialize (H2 x Hx). lia.
    + rewrite P in Hx. destruct Hx.
Qed.

Lemma advanceTo_quiescent (t : Z) (s : St) (x : Z * Tk) :
  In x (timersOf (Clock.advanceTo timersOf nowOf setClock fire weight t s)) ->
  (t < fst x)%Z.
Proof.
  unfold Clock.advanceTo. rewrite timers_setClock.
  apply runDue_quiescent. apply le_n.
Qed.

End ClockFacts.

(** The same for a bound that holds on the states the script reaches. *)
Section ClockGuarded.

Context {St Tk : Type}.
Variable timersOf : St -> list (Z * Tk).
Variable nowOf : St -> Z.
Variable setClock : Z -> list (Z * Tk) -> St -> St.
Variable fire : Tk -> St -> St.
Variable weight : Tk -> nat.
Variable Good : St -> Prop.

Hypothesis good_step : forall k n q s, Good s -> Good (fire k (setClock n q s)).
Hypothesis fire_load_on :
  forall k n q s,
    Good s ->
    S (Clock.load weight (timersOf (fire k (setClock n q s))))
    <= weight k + Clock.load weight q.


End ClockGuarded.

(** ** Notifications and the charter inquiry form *)

Section CharterFacts.

Import Charter CharterNotions.

Lemma hasClass_payload (cls : string) (g : payload -> payload) (k : node) :
  hasClass cls (setPayload g k) = hasClass cls k.
Proof. destruct k; reflexivity. Qed.

Lemma not_styling_notification : ~ In "notification" errorStyling.
Proof. simpl. intros [H | [H | []]]; discriminate. Qed.

Lemma isNotification_element (i : nat) (message type : string) :
  isNotification (notificationElement i message type) = true.
Proof. reflexivity. Qed.

Ltac notification_facts :=
  first [ apply hasClass_shallow
        | intro; apply hasClass_unstyle, not_styling_notification
        | intro; apply hasClass_style, not_styling_notification
        | intros; apply hasClass_payload
        | intros; reflexivity ].

Lemma notifications_length (s : doc) : List.length (notifications s) = shown s.
Proof.
  unfold notifications, shown, countIn, descendants.
  rewrite filter_app, length_app. reflexivity.
Qed.

Lemma removeAllUnder_children_count (sel q : node -> bool) (n : node) :
  shallow sel ->
  countIn sel (children (removeAllUnder q n)) <= countIn sel (children n).
Proof.
  intro Hs. destruct n as [j c d kids]. simpl. apply (removeAll_count Hs).
Qed.

Lemma removeAll_none_left (sel : node -> bool) (ks : list node) :
  shallow sel -> countIn sel (removeAll sel ks) = 0.
Proof.
  intro Hs. apply (removeAllIn_none_left Hs). apply Forall_forall. intros k _.
  apply (removeAllUnder_none_left Hs).
Qed.

Lemma showNotification_notifications (message type : string) (s : doc) :
  notifications (showNotification message type s)
  = [notificationElement (fresh s) message type].
Proof.
  unfold showNotification, schedule, notifications. cbn [charterForm elsewhere setClock].
  rewrite flat_map_app, !filter_app.
  assert (H1 : filter isNotification
                 (descendants (removeAllUnder isNotification (charterForm s))) = []).
  { apply length_zero_iff_nil.
    apply (removeAllUnder_none_left (hasClass_shallow "notification")). }
  assert (H2 : filter isNotification
                 (flat_map nodes (removeAll isNotification (elsewhere s))) = []).
  { apply length_zero_iff_nil.
    apply (removeAll_none_left _ (hasClass_shallow "notification")). }
  rewrite H1, H2. reflexivity.
Qed.

Lemma detach_shown (n : nat) (s : doc) : shown (detach n s) <= shown s.
Proof.
  unfold shown, detach. cbn [charterForm elsewhere].
  pose proof (removeAllUnder_children_count (hasId n) (charterForm s)
                (hasClass_shallow "notification")).
  pose proof (removeAll_count (hasClass_shallow "notification") (hasId n) (elsewhere s)).
  unfold isNotification. lia.
Qed.

Lemma handle_shown (e : event) (s : doc) : shown s <= 1 -> shown (handle e s) <= 1.
Proof.
  intro H. destruct e as [data | n | i g]; cbn [handle].
  - unfold onSubmit.
    repeat match goal with
           | |- context [if ?b then _ else _] => destruct b
           end; cbn [snd];
      try (rewrite <- notifications_length, showNotification_notifications;
           simpl; lia).
    destruct (querySelector isSubmitButton (charterForm s)); cbn [snd]; [| exact H].
    unfold shown, schedule, onForm in *. cbn [charterForm elsewhere setClock].
    pose proof (@setButton_count isNotification (hasClass_shallow "notification")
                  (fun g k => hasClass_payload "notification" g k)
                  (nodeId n) true loadingMarkup (charterForm s)).
    lia.
  - destruct (existsb (hasId n) (notifications s)); [| exact H].
    pose proof (detach_shown n s). lia.
  - unfold shown, onForm in *. cbn [charterForm elsewhere].
    pose proof (@editField_count isNotification (hasClass_shallow "notification")
                  (fun g k => hasClass_payload "notification" g k)
                  i g (charterForm s)).
    lia.
Qed.

Lemma fire_shown (k : task) (s : doc) : shown s <= 1 -> shown (fire k s) <= 1.
Proof.
  intro H. destruct k as [n | n | n | b h]; cbn [fire].
  - exact H.
  - exact H.
  - pose proof (detach_shown n s). lia.
  - unfold charterDone.
    remember (showNotification charterThanks "success" (onForm (setButton b false h) s))
      as s2 eqn:E2.
    assert (E : shown s2 = 1).
    { rewrite <- notifications_length, E2, showNotification_notifications.
      reflexivity. }
    unfold shown, onForm in *. cbn [charterForm elsewhere].
    pose proof (@reset_count isNotification (hasClass_shallow "notification")
                  (fun g k => hasClass_payload "notification" g k) (charterForm s2)).
    lia.
Qed.

Lemma charter_setClock_shown (t : Z) (q : list (Z * task)) (s : doc) :
  shown (setClock t q s) = shown s.
Proof. reflexivity. Qed.

Lemma advance_shown (t : Z) (s : doc) : shown s <= 1 -> shown (advance t s) <= 1.
Proof.
  intro H. unfold advance, Clock.advanceTo. rewrite charter_setClock_shown.
  apply (@runDue_inv doc task queue clock Charter.setClock fire t
           (fun s => shown s <= 1)); [| exact H].
  intros s' d k l1 l2 Hs _ _ _ _. apply fire_shown. exact Hs.
Qed.

(** X7.  [showNotification] leaves exactly one element of class
    [notification] in the document, the one it creates, whatever was there
    before; and a document that holds at most one holds at most one after
    any history of submissions, dismissals, edits and timers. *)
Theorem one_notification (message type : string) (s : doc) (h : list (Z * event)) :
  notifications (showNotification message type s)
  = [notificationElement (fresh s) message type] /\
  (List.length (notifications s) <= 1 -> List.length (notifications (run h s)) <= 1).
Proof.
  split; [apply showNotification_notifications |].
  rewrite !notifications_length. revert s.
  induction h as [| [t e] rest IH]; intros s H; simpl; [exact H |].
  apply IH, handle_shown, advance_shown, H.
Qed.


Lemma one_notification_witness :
  List.length (notifications charterPage) <= 1 /\
  List.length (notifications
                 (run [(0%Z, Submit noConsent); (1000%Z, Submit charterData)]
                      charterPage)) <= 1.
Proof.
  assert (H : List.length (notifications charterPage) <= 1) by (simpl; lia).
  split; [exact H |].
  exact (proj2 (one_notification "" "" charterPage
                  [(0%Z, Submit noConsent); (1000%Z, Submit charterData)]) H).
Defined.

(** With complete data and a submit button the submission starts. *)
Lemma onSubmit_complete (data : list (string * jsstring)) (s : doc) (b : node) :
  complete data -> querySelector isSubmitButton (charterForm s) = Some b ->
  onSubmit data s = (Some tt, submitted b s).
Proof.
  intros (A & B & C & D) Hq. apply emailRegex_shape in C.
  unfold onSubmit, submitted. rewrite A, B, C, D. cbn [negb orb]. rewrite Hq.
  reflexivity.
Qed.

(** X8.  The submit listener of the charter form starts the simulated
    submission exactly for data with a non-empty name, a non-empty email
    of the shape [local@domain.tld] and a non-empty [privacy] entry; no
    value is trimmed.  For any other data its only effect is an error
    notification, whose text the first failing check decides; the button
    is not disabled and no submission is scheduled.  Without a submit
    button, complete data make it throw. *)
Theorem charter_checks (data : list (string * jsstring)) (s : doc) :
  (~ complete data ->
   onSubmit data s = (Some tt, showNotification (complaint data) "error" s)) /\
  (complete data ->
   forall b, querySelector isSubmitButton (charterForm s) = Some b ->
             onSubmit data s = (Some tt, submitted b s)) /\
  (complete data -> querySelector isSubmitButton (charterForm s) = None ->
   onSubmit data s = (None, s)).
Proof.
  unfold complete, complaint, onSubmit, submitted.
  destruct (filled (entry "name" data)) eqn:En; cbn [negb orb];
    [| split; [reflexivity | split; intros (A & _); discriminate]].
  destruct (filled (entry "email" data)) eqn:Ee; cbn [negb];
    [| split; [reflexivity | split; intros (_ & A & _); discriminate]].
  destruct (test emailRegex (textOf (entry "email" data))) eqn:Et; cbn [negb].
  - apply emailRegex_shape in Et.
    destruct (filled (entry "privacy" data)) eqn:Ep; cbn [negb].
    + split; [intro H; exfalso; apply H; auto |].
      split; [intros _ b -> | intros _ ->]; reflexivity.
    + split; [reflexivity | split; intros (_ & _ & _ & A); discriminate].
  - split; [reflexivity |].
    split; intros (_ & _ & A & _); apply emailRegex_shape in A; congruence.
Qed.

Lemma charter_checks_witness :
  complete charterData /\ ~ complete noConsent /\
  onSubmit noConsent charterPage
  = (Some tt, showNotification msgAgree "error" charterPage) /\
  onSubmit charterData charterPage
  = (Some tt, submitted (Node 4 [] (PButton "submit" false "Anfrage senden") [])
                charterPage).
Proof.
  assert (C : complete charterData).
  { repeat split. apply emailRegex_shape. reflexivity. }
  assert (N : ~ complete noConsent) by (intros (_ & _ & _ & A); discriminate).
  destruct (charter_checks noConsent charterPage) as (Bad & _).
  destruct (charter_checks charterData charterPage) as (_ & Good & _).
  split; [exact C |]. split; [exact N |].
  split; [exact (Bad N) | exact (Good C _ eq_refl)].
Defined.

End CharterFacts.

(** ** The life of a notification *)

Section NotificationLife.

Import Charter CharterNotions.

Lemma removeAllUnder_leaf (sel : node -> bool) (e : node) :
  children e = [] -> removeAllUnder sel e = e.
Proof. destruct e as [i c d ks]. simpl. intros ->. reflexivity. Qed.

Lemma In_removeAll_leaf (sel : node -> bool) (e : node) (ks : list node) :
  In e ks -> sel e = false -> children e = [] -> In e (removeAll sel ks).
Proof.
  intros Hin Hs Hl. unfold removeAll. induction ks as [| k ks IH]; [destruct Hin |].
  simpl. destruct Hin as [-> | Hin].
  - rewrite Hs, (removeAllUnder_leaf sel e Hl). left. reflexivity.
  - destruct (sel k); [apply IH, Hin | right; apply IH, Hin].
Qed.

Lemma singleton_of_short {A : Type} (x : A) (l : list A) :
  List.length l <= 1 -> In x l -> l = [x].
Proof.
  destruct l as [| y [| z l]]; simpl; intros Hl Hin.
  - destruct Hin.
  - destruct Hin as [-> | []]. reflexivity.
  - lia.
Qed.

Lemma filter_nil_iff {A : Type} (p : A -> bool) (l : list A) :
  filter p l = [] <-> forall x, In x l -> p x = false.
Proof.
  induction l as [| y l IH]; simpl.
  - split; [intros _ x [] | reflexivity].
  - destruct (p y) eqn:E.
    + split; [discriminate |]. intro H. specialize (H y (or_introl eq_refl)). congruence.
    + rewrite IH. split.
      * intros H x [<- | Hx]; auto.
      * intros H x Hx. apply H. right. exact Hx.
Qed.

Variable e : node.
Variable t0 : Z.
Hypothesis e_leaf : children e = [].
Hypothesis e_notification : isNotification e = true.

(** Another element is detached: the notification stays. *)
Lemma detach_other (m : nat) (s : doc) :
  m <> nodeId e -> In e (elsewhere s) -> notifications s = [e] ->
  In e (elsewhere (detach m s)) /\ notifications (detach m s) = [e].
Proof.
  intros Hm Hin Hn.
  assert (Hin' : In e (elsewhere (detach m s))).
  { unfold detach. cbn [elsewhere]. apply In_removeAll_leaf; [exact Hin | | exact e_leaf].
    unfold hasId. apply Nat.eqb_neq. congruence. }
  split; [exact Hin' |]. apply singleton_of_short.
  - rewrite notifications_length. pose proof (detach_shown m s) as H.
    rewrite <- (notifications_length s), Hn in H. exact H.
  - unfold notifications. apply filter_In. split; [| exact e_notification].
    apply in_or_app. right. apply in_flat_map. exists e. split; [exact Hin' |].
    apply nodes_self.
Qed.

(** The notification is detached: none is left. *)
Lemma detach_own (s : doc) :
  notifications s = [e] -> notifications (detach (nodeId e) s) = [].
Proof.
  intro Hn. set (n := nodeId e).
  set (sel := fun k => isNotification k && negb (hasId n k)).
  assert (Sh : shallow sel) by (intros i c d ks ks'; reflexivity).
  assert (Z0 : forall k, In k (descendants (charterForm s) ++ flat_map nodes (elsewhere s)) ->
                         sel k = false).
  { intros k Hk. unfold sel. destruct (isNotification k) eqn:Ek; [| reflexivity].
    assert (Hin : In k (notifications s)) by (apply filter_In; auto).
    rewrite Hn in Hin. destruct Hin as [<- | []]. unfold n, hasId.
    rewrite Nat.eqb_refl. reflexivity. }
  assert (F0 : countIn sel (children (charterForm s)) = 0).
  { apply (countIn_zero sel). intros k Hk. apply Z0, in_or_app. left. exact Hk. }
  assert (E0 : countIn sel (elsewhere s) = 0).
  { apply (countIn_zero sel). intros k Hk. apply Z0, in_or_app. right. exact Hk. }
  pose proof (removeAllUnder_children_count (hasId n) (charterForm s) Sh) as F1.
  pose proof (removeAll_count Sh (hasId n) (elsewhere s)) as E1.
  pose proof (removeAllUnder_none_left (hasId_shallow n) (charterForm s)) as F2.
  pose proof (removeAll_none_left (elsewhere s) (hasId_shallow n)) as E2.
  unfold notifications, detach. cbn [charterForm elsewhere]. fold n.
  apply filter_nil_iff. intros k Hk.
  destruct (isNotification k) eqn:Ek; [| reflexivity]. exfalso.
  destruct (hasId n k) eqn:Ei.
  - apply in_app_or in Hk as [Hk | Hk].
    + apply (countIn_zero (hasId n)) with (k := k) in F2; [congruence | exact Hk].
    + apply (countIn_zero (hasId n)) with (k := k) in E2; [congruence | exact Hk].
  - assert (Es : sel k = true) by (unfold sel; rewrite Ek, Ei; reflexivity).
    apply in_app_or in Hk as [Hk | Hk].
    + assert (F3 : countIn sel (children (removeAllUnder (hasId n) (charterForm s))) = 0)
        by lia.
      apply (countIn_zero sel) with (k := k) in F3; [congruence | exact Hk].
    + assert (E3 : countIn sel (removeAll (hasId n) (elsewhere s)) = 0) by lia.
      apply (countIn_zero sel) with (k := k) in E3; [congruence | exact Hk].
Qed.


Lemma filter_own_other (n : nat) (l1 l2 : list (Z * task)) (x : Z * task) :
  concerns n (snd x) = false ->
  filter (fun y => concerns n (snd y)) (l1 ++ x :: l2)
  = filter (fun y => concerns n (snd y)) (l1 ++ l2).
Proof. intro H. rewrite !filter_app. simpl. rewrite H. reflexivity. Qed.

Lemma filter_own_one (n : nat) (l1 l2 : list (Z * task)) (x a : Z * task) :
  concerns n (snd x) = true ->
  filter (fun y => concerns n (snd y)) (l1 ++ x :: l2) = [a] ->
  x = a /\ filter (fun y => concerns n (snd y)) (l1 ++ l2) = [].
Proof.
  intros H E. rewrite !filter_app in *. simpl in E. rewrite H in E.
  destruct (filter (fun y => concerns n (snd y)) l1) as [| y [| z l]]; simpl in E.
  - injection E as -> E. rewrite E. auto.
  - injection E as _ E. discriminate.
  - injection E as _ E. discriminate.
Qed.

Lemma filter_own_two (n : nat) (l1 l2 : list (Z * task)) (x a b : Z * task) :
  concerns n (snd x) = true ->
  filter (fun y => concerns n (snd y)) (l1 ++ x :: l2) = [a; b] ->
  (x = a /\ filter (fun y => concerns n (snd y)) (l1 ++ l2) = [b]) \/
  (x = b /\ In a l1).
Proof.
  intros H E. rewrite !filter_app in *. simpl in E. rewrite H in E.
  destruct (filter (fun y => concerns n (snd y)) l1) as [| y [| z l]] eqn:E1;
    simpl in E.
  - injection E as -> E. rewrite E. left. auto.
  - injection E as -> -> E. right. split; [reflexivity |].
    assert (Hin : In a (filter (fun y => concerns n (snd y)) l1))
      by (rewrite E1; left; reflexivity).
    apply filter_In in Hin. tauto.
  - injection E as _ _ E. destruct l; discriminate.
Qed.

Lemma older_not_own (n : nat) (k : task) :
  olderThan n k -> concerns n k = false.
Proof.
  destruct k as [m | m | m | b h]; simpl; intro H; try reflexivity;
    apply Nat.eqb_neq; lia.
Qed.

Lemma transformOf_other (n m : nat) (v : string) (l : list (nat * string)) :
  m <> n -> transformOf n ((m, v) :: l) = transformOf n l.
Proof. intro H. simpl. apply Nat.eqb_neq in H. rewrite H. reflexivity. Qed.

Lemma transformOf_own (n : nat) (v : string) (l : list (nat * string)) :
  transformOf n ((n, v) :: l) = Some v.
Proof. simpl. rewrite Nat.eqb_refl. reflexivity. Qed.

(** The stage the notification is in, with the time it began reached. *)
Lemma stage_step (t : Z) (s : doc) (d : Z) (k : task) (l1 l2 : list (Z * task)) :
  (exists g, inStage e t0 g s /\ (g = Entering \/ (t0 + since g <= t)%Z)) ->
  queue s = l1 ++ (d, k) :: l2 ->
  (forall x, In x l1 -> (d < fst x)%Z) ->
  (forall x, In x l2 -> (d <= fst x)%Z) ->
  (d <= t)%Z ->
  exists g, inStage e t0 g (fire k (setClock (Z.max (clock s) d) (l1 ++ l2) s)) /\
            (g = Entering \/ (t0 + since g <= t)%Z).
Proof.
  intros (g & (Own & Others & Due & Tr & Shown) & Floor) Eq H1 H2 Hd.
  set (n := nodeId e) in *.
  assert (Dmin : forall x, In x (queue s) -> (d <= fst x)%Z).
  { intros x Hx. rewrite Eq in Hx. apply in_app_or in Hx as [Hx | [<- | Hx]].
    - specialize (H1 x Hx). lia.
    - simpl. lia.
    - exact (H2 x Hx). }
  assert (OwnIn : forall x, In x (ownTasks n t0 g) -> In x (queue s)).
  { intros x Hx. rewrite <- Own in Hx. apply filter_In in Hx. tauto. }
  assert (Due' : Forall (fun x => (Z.max (clock s) d <= fst x)%Z) (ownTasks n t0 g)).
  { rewrite Forall_forall in *. intros x Hx. specialize (Due x Hx).
    specialize (Dmin x (OwnIn x Hx)). lia. }
  assert (Others' : Forall (fun x => concerns n (snd x) = false -> olderThan n (snd x))
                      (l1 ++ l2)).
  { rewrite Forall_forall in *. intros x Hx. apply Others. rewrite Eq.
    apply in_app_or in Hx as [Hx | Hx]; apply in_or_app; [left | right; right]; exact Hx. }
  destruct (concerns n k) eqn:Ek.
  - (* a task of the notification itself *)
    rewrite Eq in Own. destruct g; cbn [ownTasks] in Own.
    + (* Entering: the slide-in comes first *)
      destruct (@filter_own_two n l1 l2 (d, k) _ _ Ek Own) as [[Ex Rest] | [Ex Hin]].
      * injection Ex as -> ->. exists Resting. split; [| right; simpl; lia].
        cbn [fire]. unfold inStage, setTransform. fold n.
        cbn [queue transforms clock elsewhere setClock ownTasks ownTransform].
        split; [exact Rest |]. split; [exact Others' |].
        split; [| split; [apply transformOf_own | exact Shown]].
        inversion Due' as [| x l Hx Hl]; subst. exact Hl.
      * injection Ex as -> ->. specialize (H1 _ Hin). simpl in H1. lia.
    + (* Resting: the slide-out *)
      destruct (@filter_own_one n l1 l2 (d, k) _ Ek Own) as [Ex Rest].
      injection Ex as -> ->. exists Leaving. split; [| right; simpl; lia].
      cbn [fire]. unfold inStage, schedule, setTransform. fold n.
      cbn [queue transforms clock elsewhere setClock ownTasks ownTransform].
      inversion Due as [| x l Hx Hl]; subst. simpl in Hx.
      rewrite Z.max_r by exact Hx.
      replace (t0 + 5000 + 300)%Z with (t0 + 5300)%Z by lia.
      split.
      { rewrite filter_app, Rest. simpl. rewrite Nat.eqb_refl. reflexivity. }
      split.
      { apply Forall_app. split; [exact Others' |]. constructor; [| constructor].
        simpl. rewrite Nat.eqb_refl. discriminate. }
      split; [constructor; [simpl; lia | constructor] |].
      split; [apply transformOf_own | exact Shown].
    + (* Leaving: the removal *)
      destruct (@filter_own_one n l1 l2 (d, k) _ Ek Own) as [Ex Rest].
      injection Ex as -> ->. exists Gone. split; [| right; simpl; lia].
      cbn [fire]. unfold inStage. fold n.
      split; [exact Rest |]. split; [exact Others' |].
      split; [constructor |]. split; [exact Tr |].
      destruct Shown as [_ Shown].
      exact (detach_own (setClock (Z.max (clock s) (t0 + 5300)) (l1 ++ l2) s) Shown).
    + (* Gone: no task of its own is left *)
      exfalso. rewrite filter_app in Own. simpl in Own. rewrite Ek in Own.
      destruct (filter (fun y => concerns n (snd y)) l1); discriminate.
  - (* a task of an older notification *)
    assert (Old : olderThan n k).
    { rewrite Forall_forall in Others. apply (Others (d, k)); [| exact Ek].
      rewrite Eq. apply in_or_app. right. left. reflexivity. }
    assert (Own' : filter (fun y => concerns n (snd y)) (l1 ++ l2) = ownTasks n t0 g).
    { rewrite <- Own, Eq. symmetry. apply filter_own_other. exact Ek. }
    exists g. split; [| exact Floor].
    destruct k as [m | m | m | b h]; cbn [fire olderThan] in *; [| | | destruct Old].
    + unfold inStage, setTransform. fold n.
      cbn [queue transforms clock elsewhere setClock].
      split; [exact Own' |]. split; [exact Others' |]. split; [exact Due' |].
      split; [rewrite transformOf_other by lia; exact Tr | exact Shown].
    + unfold inStage, schedule, setTransform. fold n.
      cbn [queue transforms clock elsewhere setClock].
      split.
      { rewrite filter_app, Own'. simpl.
        replace (m =? n)%nat with false by (symmetry; apply Nat.eqb_neq; lia).
        apply app_nil_r. }
      split.
      { apply Forall_app. split; [exact Others' |]. constructor; [| constructor].
        intros _. exact Old. }
      split; [exact Due' |].
      split; [rewrite transformOf_other by lia; exact Tr | exact Shown].
    + unfold inStage. fold n.
      split; [exact Own' |]. split; [exact Others' |]. split; [exact Due' |].
      split; [exact Tr |].
      destruct g.
      * destruct Shown as [A B]. apply detach_other; [unfold n in *; lia | exact A | exact B].
      * destruct Shown as [A B]. apply detach_other; [unfold n in *; lia | exact A | exact B].
      * destruct Shown as [A B]. apply detach_other; [unfold n in *; lia | exact A | exact B].
      * apply length_zero_iff_nil. rewrite notifications_length.
        pose proof (detach_shown m (setClock (Z.max (clock s) d) (l1 ++ l2) s)) as H.
        change (shown (setClock (Z.max (clock s) d) (l1 ++ l2) s)) with (shown s) in H.
        rewrite <- (notifications_length s), Shown in H. simpl in H. lia.
Qed.

End NotificationLife.

Section NotificationLifetime.

Import Charter CharterNotions.

Lemma charter_fire_load (k : task) (n : Z) (q : list (Z * task)) (s : doc) :
  S (Clock.load weight (queue (fire k (Charter.setClock n q s))))
  <= weight k + Clock.load weight q.
Proof.
  destruct k as [m | m | m | b h]; cbn [fire weight].
  - simpl. lia.
  - unfold schedule, setTransform. cbn [queue Charter.setClock clock].
    unfold Clock.load. rewrite map_app, list_sum_app. simpl. lia.
  - simpl. lia.
  - unfold charterDone, showNotification, schedule, onForm.
    cbn [queue Charter.setClock clock].
    unfold Clock.load. rewrite <- app_assoc, map_app, list_sum_app. simpl. lia.
Qed.

Lemma showNotification_entering (message type : string) (s : doc) :
  onlyOlder s -> transformOf (fresh s) (transforms s) = None ->
  inStage (notificationElement (fresh s) message type) (clock s) Entering
          (showNotification message type s).
Proof.
  intros Old Tr. unfold inStage. cbn [nodeId notificationElement].
  split; [| split; [| split; [| split; [| split]]]].
  - unfold showNotification, schedule. cbn [queue Charter.setClock clock].
    rewrite <- app_assoc, filter_app. simpl. rewrite Nat.eqb_refl.
    replace (filter _ (queue s)) with (@nil (Z * task)); [reflexivity |].
    symmetry. apply filter_nil_iff. intros x Hx. apply older_not_own.
    unfold onlyOlder in Old. rewrite Forall_forall in Old. exact (Old x Hx).
  - unfold showNotification, schedule. cbn [queue Charter.setClock clock].
    rewrite <- app_assoc. apply Forall_app. split.
    + unfold onlyOlder in Old. rewrite Forall_forall in *. intros x Hx _.
      exact (Old x Hx).
    + constructor; [| constructor; [| constructor]]; simpl;
        rewrite Nat.eqb_refl; discriminate.
  - unfold showNotification, schedule. cbn [clock Charter.setClock ownTasks].
    constructor; [simpl; lia | constructor; [simpl; lia | constructor]].
  - exact Tr.
  - unfold showNotification, schedule. cbn [elsewhere Charter.setClock].
    apply in_or_app. right. left. reflexivity.
  - apply showNotification_notifications.
Qed.



End NotificationLifetime.

(** ** The simulated submission of the charter form *)

Section CharterLifecycle.

Import Charter CharterNotions.

Lemma submitControl_found (b n : node) :
  querySelector isSubmitButton n = Some b ->
  exists dis, submitControl (nodeId b) dis (buttonText b) n.
Proof.
  intro Hq. pose proof Hq as Hf. unfold querySelector in Hf.
  apply find_some in Hf as [_ Hs]. unfold isSubmitButton in Hs.
  destruct b as [j c [f | ty dis h | h] kk]; simpl in Hs; try discriminate.
  exists dis, (Node j c (PButton ty dis h) kk), ty. auto.
Qed.

Lemma inStage_onForm (e : node) (t0 : Z) (g : stage) (f : node -> node) (s : doc) :
  countIn isNotification (children (charterForm s)) = 0 ->
  countIn isNotification (children (f (charterForm s))) = 0 ->
  inStage e t0 g s -> inStage e t0 g (onForm f s).
Proof.
  intros Z0 Z1 (A & B & C & D & E). unfold inStage. repeat split; try assumption.
  assert (N : notifications (onForm f s) = notifications s).
  { unfold notifications, onForm. cbn [charterForm elsewhere]. rewrite !filter_app.
    f_equal. apply length_zero_iff_nil in Z0, Z1. unfold descendants.
    rewrite Z0. exact Z1. }
  rewrite N. exact E.
Qed.

Variable data : list (string * jsstring).
Variable s : doc.
Variable b : node.

Hypothesis idle : queue s = [].
Hypothesis filledIn : complete data.
Hypothesis button : querySelector isSubmitButton (charterForm s) = Some b.
Hypothesis no_notification : countIn isNotification (children (charterForm s)) = 0.
Hypothesis fresh_id : countIn (hasId (fresh s)) (children (charterForm s)) = 0.
Hypothesis no_transform : transformOf (fresh s) (transforms s) = None.

Lemma charter_busy_form :
  submitControl (nodeId b) true loadingMarkup
    (setButton (nodeId b) true loadingMarkup (charterForm s)).
Proof.
  destruct (@submitControl_found b (charterForm s) button) as (dis & H).
  exact (submitControl_setButton true loadingMarkup H).
Qed.

Lemma charter_busy_count (sel : node -> bool) :
  shallow sel -> (forall g k, sel (setPayload g k) = sel k) ->
  countIn sel (children (charterForm s)) = 0 ->
  countIn sel (children (setButton (nodeId b) false (buttonText b)
                           (setButton (nodeId b) true loadingMarkup (charterForm s)))) = 0.
Proof.
  intros Sh Sp Z0. apply Nat.le_0_r. rewrite <- Z0.
  etransitivity; [apply (setButton_count Sh Sp) | apply (setButton_count Sh Sp)].
Qed.

Lemma charter_done_form :
  charterForm (charterDone (nodeId b) (buttonText b)
                 (Charter.setClock (clock s + 2000) [] (submitted b s)))
  = reset (setButton (nodeId b) false (buttonText b)
             (setButton (nodeId b) true loadingMarkup (charterForm s))).
Proof.
  unfold charterDone, showNotification, schedule, onForm, submitted.
  cbn [charterForm Charter.setClock]. f_equal.
  apply removeAllUnder_same.
  apply charter_busy_count;
    [apply hasClass_shallow | intros; apply hasClass_payload | exact no_notification].
Qed.


Lemma charter_done_stage :
  inStage (notificationElement (fresh s) charterThanks "success") (clock s + 2000)
    Entering
    (charterDone (nodeId b) (buttonText b)
       (Charter.setClock (clock s + 2000) [] (submitted b s))).
Proof.
  unfold charterDone.
  set (c0 := onForm (setButton (nodeId b) false (buttonText b))
               (Charter.setClock (clock s + 2000) [] (submitted b s))).
  assert (E : inStage (notificationElement (fresh c0) charterThanks "success")
                (clock c0) Entering (showNotification charterThanks "success" c0)).
  { apply showNotification_entering; [constructor | exact no_transform]. }
  apply inStage_onForm; [| | exact E].
  - apply (removeAllUnder_none_left (hasClass_shallow "notification")).
  - apply Nat.le_0_r.
    etransitivity;
      [apply (reset_count (hasClass_shallow "notification")
                (fun g k => hasClass_payload "notification" g k)) |].
    unfold showNotification, schedule. cbn [charterForm Charter.setClock].
    unfold isNotification.
    rewrite (removeAllUnder_none_left (hasClass_shallow "notification")). lia.
Qed.

Lemma charter_done_queue :
  queue (charterDone (nodeId b) (buttonText b)
           (Charter.setClock (clock s + 2000) [] (submitted b s)))
  = [((clock s + 2000 + 100)%Z, SlideIn (fresh s));
     ((clock s + 2000 + 5000)%Z, SlideOut (fresh s))].
Proof. reflexivity. Qed.

(** X10.  A submission of complete data, made while no task is pending
    and the form holds no notification: until 2000 ms have passed the
    submit button is disabled and shows the loading text, and the
    notifications are those that were there; from then on the button is
    enabled again with its label and every control is back at its
    default; the success notification is the one notification of the
    document from 2000 ms until 7300 ms, and none is left afterwards. *)
Theorem charter_lifecycle (t : Z) :
  ((t < clock s + 2000)%Z ->
   submitControl (nodeId b) true loadingMarkup
     (charterForm (advance t (snd (onSubmit data s)))) /\
   notifications (advance t (snd (onSubmit data s))) = notifications s) /\
  ((clock s + 2000 <= t)%Z ->
   submitControl (nodeId b) false (buttonText b)
     (charterForm (advance t (snd (onSubmit data s)))) /\
   countIn isDirty (children (charterForm (advance t (snd (onSubmit data s))))) = 0) /\
  ((clock s + 2000 <= t < clock s + 7300)%Z ->
   notifications (advance t (snd (onSubmit data s)))
   = [notificationElement (fresh s) charterThanks "success"]) /\
  ((clock s + 7300 <= t)%Z ->
   notifications (advance t (snd (onSubmit data s))) = []).
Proof.
  rewrite (@onSubmit_complete data s b filledIn button). cbn [snd].
  set (sub := submitted b s).
  assert (Qs : queue sub = [((clock s + 2000)%Z, CharterDone (nodeId b) (buttonText b))]).
  { unfold sub, submitted, schedule, onForm. cbn [queue Charter.setClock clock].
    rewrite idle. reflexivity. }
  unfold advance, Clock.advanceTo. rewrite Qs.
  change (Clock.load weight [((clock s + 2000)%Z, CharterDone (nodeId b) (buttonText b))])
    with 4.
  rewrite (runDue_S queue clock Charter.setClock fire 3 t sub), Qs.
  cbn [Clock.pickDue fst].
  destruct (clock s + 2000 <=? t)%Z eqn:Et.
  - apply Z.leb_le in Et.
    change (clock sub) with (clock s).
    rewrite (Z.max_r (clock s) (clock s + 2000)) by lia. cbn [fire].
    set (c1 := charterDone (nodeId b) (buttonText b)
                 (Charter.setClock (clock s + 2000) [] sub)).
    set (n := fresh s).
    set (e := notificationElement n charterThanks "success").
    set (F := reset (setButton (nodeId b) false (buttonText b)
                       (setButton (nodeId b) true loadingMarkup (charterForm s)))).
    set (s2 := Clock.runDue queue clock Charter.setClock fire 3 t c1).
    change (charterForm (Charter.setClock (Z.max (clock s2) t) (queue s2) s2))
      with (charterForm s2).
    change (notifications (Charter.setClock (Z.max (clock s2) t) (queue s2) s2))
      with (notifications s2).
    assert (Fn : countIn (hasId n) (children F) = 0).
    { unfold F. apply Nat.le_0_r.
      etransitivity;
        [apply (reset_count (hasId_shallow n)); intros g k; destruct k; reflexivity |].
      rewrite charter_busy_count;
        [lia | apply hasId_shallow | intros g k; destruct k; reflexivity | exact fresh_id]. }
    assert (Inv : (exists g, inStage e (clock s + 2000) g s2 /\
                             (g = Entering \/ (clock s + 2000 + since g <= t)%Z)) /\
                  charterForm s2 = F /\
                  Forall (fun y => concerns n (snd y) = true) (queue s2)).
    { unfold s2.
      apply (@runDue_inv doc task queue clock Charter.setClock fire t
               (fun x => (exists g, inStage e (clock s + 2000) g x /\
                                    (g = Entering \/ (clock s + 2000 + since g <= t)%Z)) /\
                         charterForm x = F /\
                         Forall (fun y => concerns n (snd y) = true) (queue x))).
      - intros x d k l1 l2 (Hx & Hf & Hq) Eq H1 H2 Hd.
        split; [exact (@stage_step e (clock s + 2000) eq_refl eq_refl t x d k l1 l2
                         Hx Eq H1 H2 Hd) |].
        rewrite Eq in Hq. apply Forall_app in Hq as [Q1 Q2].
        inversion Q2 as [| y l Hk Q3]; subst. cbn [snd] in Hk.
        assert (Q' : Forall (fun y => concerns n (snd y) = true) (l1 ++ l2))
          by (apply Forall_app; auto).
        destruct k as [m | m | m | b' h']; cbn [concerns] in Hk; try discriminate;
          apply Nat.eqb_eq in Hk; subst m; cbn [fire].
        + split; [exact Hf | exact Q'].
        + split; [exact Hf |]. unfold schedule, setTransform.
          cbn [queue Charter.setClock]. apply Forall_app. split; [exact Q' |].
          constructor; [| constructor]. simpl. apply Nat.eqb_refl.
        + split; [| exact Q']. unfold detach. cbn [charterForm Charter.setClock].
          rewrite Hf. apply removeAllUnder_same. exact Fn.
      - split; [exists Entering; split; [exact charter_done_stage | left; reflexivity] |].
        split; [exact charter_done_form |].
        unfold c1, sub. rewrite charter_done_queue.
        constructor; [| constructor; [| constructor]]; simpl; apply Nat.eqb_refl. }
    assert (Q : forall x, In x (queue s2) -> (t < fst x)%Z).
    { unfold s2.
      apply (@runDue_quiescent doc task queue clock Charter.setClock fire weight
               charter_fire_load).
      unfold c1, sub. rewrite charter_done_queue. apply le_n. }
    destruct Inv as ((g & (Own & _ & _ & _ & Shown) & Floor) & Hf & _).
    assert (OwnIn : forall x, In x (ownTasks n (clock s + 2000) g) -> (t < fst x)%Z).
    { intros x Hx. apply Q. change n with (nodeId e) in Hx.
      rewrite <- Own in Hx. apply filter_In in Hx. tauto. }
    rewrite Hf.
    assert (Btn : submitControl (nodeId b) false (buttonText b) F).
    { unfold F. apply submitControl_reset.
      exact (submitControl_setButton false (buttonText b) charter_busy_form). }
    assert (Clean : countIn isDirty (children F) = 0) by apply reset_clean.
    split; [intro; lia |]. split; [intros _; split; [exact Btn | exact Clean] |].
    destruct g; cbn [ownTasks since] in *.
    + pose proof (OwnIn _ (or_intror (or_introl eq_refl))) as B. simpl in B.
      destruct Shown as [_ ->]. split; [reflexivity | intro; lia].
    + pose proof (OwnIn _ (or_introl eq_refl)) as B. simpl in B.
      destruct Shown as [_ ->]. split; [reflexivity | intro; lia].
    + pose proof (OwnIn _ (or_introl eq_refl)) as B. simpl in B.
      destruct Shown as [_ ->]. split; [reflexivity | intro; lia].
    + destruct Floor as [Fl | Fl]; [discriminate |]. rewrite Shown.
      split; [intro; lia | reflexivity].
  - apply Z.leb_gt in Et.
    change (charterForm (Charter.setClock (Z.max (clock sub) t) (queue sub) sub))
      with (setButton (nodeId b) true loadingMarkup (charterForm s)).
    split; [| split; [intro; lia | split; intro; lia]].
    intros _. split; [exact charter_busy_form |].
    unfold notifications. cbn [charterForm elsewhere Charter.setClock sub submitted
                                schedule onForm].
    rewrite !filter_app. f_equal.
    transitivity (@nil node); [| symmetry]; apply length_zero_iff_nil.
    + apply Nat.le_0_r. rewrite <- no_notification.
      apply (setButton_count (hasClass_shallow "notification")
               (fun g k => hasClass_payload "notification" g k)).
    + exact no_notification.
Qed.

End CharterLifecycle.

Section CharterLifecycleSample.

Import Charter CharterNotions.

Lemma charter_lifecycle_witness :
  queue charterPage = [] /\ complete charterData /\
  submitControl 4 true loadingMarkup
    (charterForm (advance 1999%Z (snd (onSubmit charterData charterPage)))) /\
  submitControl 4 false "Anfrage senden"
    (charterForm (advance 2000%Z (snd (onSubmit charterData charterPage)))) /\
  notifications (advance 7299%Z (snd (onSubmit charterData charterPage)))
  = [notificationElement 5 charterThanks "success"] /\
  notifications (advance 7300%Z (snd (onSubmit charterData charterPage))) = [].
Proof.
  assert (C : complete charterData).
  { repeat split. apply emailRegex_shape. reflexivity. }
  pose proof (@charter_lifecycle charterData charterPage
                (Node 4 [] (PButton "submit" false "Anfrage senden") [])
                eq_refl C eq_refl eq_refl eq_refl eq_refl) as L.
  destruct (L 1999%Z) as (Busy & _).
  destruct (L 2000%Z) as (_ & Done & _).
  destruct (L 7299%Z) as (_ & _ & Shown & _).
  destruct (L 7300%Z) as (_ & _ & _ & Gone).
  split; [reflexivity |]. split; [exact C |].
  split; [apply Busy; vm_compute; reflexivity |].
  split; [apply Done; vm_compute; discriminate |].
  split; [apply Shown; vm_compute; split; [discriminate | reflexivity] |].
  apply Gone. vm_compute. discriminate.
Defined.

End CharterLifecycleSample.

(** ** The statistics counters *)

Section CounterFacts.

Import Counters.

Lemma counters_fire_load (k : task) (n : Z) (q : list (Z * task)) (s : state) :
  S (Clock.load weight (timers (fire k (setClock n q s))))
  <= weight k + Clock.load weight q.
Proof.
  destruct k as [i | i | i]; cbn [fire weight].
  - unfold record, setClock. cbn [timers now].
    unfold Clock.load. rewrite map_app, list_sum_app. simpl. lia.
  - simpl. lia.
  - simpl. lia.
Qed.

Lemma filter_seq_above (i a n : nat) :
  i < a -> filter (fun j => (j =? i)%nat) (seq a n) = [].
Proof.
  revert a. induction n as [| n IH]; intros a H; simpl; [reflexivity |].
  replace (a =? i)%nat with false by (symmetry; apply Nat.eqb_neq; lia).
  apply IH. lia.
Qed.

Lemma filter_seq_one (i a n : nat) :
  List.length (filter (fun j => (j =? i)%nat) (seq a n)) <= 1.
Proof.
  revert a. induction n as [| n IH]; intro a; simpl; [lia |].
  destruct (a =? i)%nat eqn:E; [| apply IH].
  apply Nat.eqb_eq in E. subst a. rewrite filter_seq_above by lia. simpl. lia.
Qed.

Lemma stagger_waiting (mk : nat -> task) (i n : nat) (t : Z) :
  (forall j, taskFor i (mk j) = (j =? i)%nat) ->
  List.length (filter (fun x => taskFor i (snd x)) (stagger mk n t)) <= 1.
Proof.
  intro H. unfold stagger.
  assert (E : forall l,
             List.length (filter (fun x => taskFor i (snd x))
                            (map (fun j => ((t + Z.of_nat j * 200)%Z, mk j)) l))
             = List.length (filter (fun j => (j =? i)%nat) l)).
  { induction l as [| j l IH]; simpl; [reflexivity |].
    rewrite H. destruct (j =? i)%nat; simpl; rewrite IH; reflexivity. }
  rewrite E. apply filter_seq_one.
Qed.


Lemma taskFor_outer (i j : nat) : taskFor i (Outer j) = (j =? i)%nat.
Proof. reflexivity. Qed.

Lemma taskFor_direct (i j : nat) : taskFor i (Direct j) = (j =? i)%nat.
Proof. reflexivity. Qed.

Lemma once_trigger (mk : nat -> task) (s s' : state) :
  (forall i j, taskFor i (mk j) = (j =? i)%nat) ->
  once s -> hasAnimated s = false -> hasAnimated s' = true -> trace s' = trace s ->
  timers s' = timers s ++ stagger mk (statNumbers s) (now s) ->
  once s'.
Proof.
  intros Hmk H Hf Ht Etr Eti i. specialize (H i). rewrite Hf in H. rewrite Ht.
  unfold animations, waiting in *. rewrite Etr, Eti, filter_app, length_app.
  pose proof (stagger_waiting mk i (statNumbers s) (now s) (Hmk i)). lia.
Qed.

Lemma onEntry_once (isIntersecting : bool) (s : state) : once s -> once (onEntry isIntersecting s).
Proof.
  intro H. unfold onEntry.
  destruct (isIntersecting && negb (hasAnimated s)) eqn:E; [| exact H].
  apply andb_prop in E as [_ E]. apply negb_true_iff in E.
  apply (@once_trigger Outer s); try reflexivity; assumption.
Qed.

Lemma onIntersection_once (entries : list bool) :
  forall s, once s -> once (onIntersection entries s).
Proof.
  unfold onIntersection. induction entries as [| b l IH]; intros s H; simpl; [exact H |].
  apply IH, onEntry_once, H.
Qed.

Lemma checkStatisticsInView_once (isInView : bool) (s : state) :
  once s -> once (checkStatisticsInView isInView s).
Proof.
  intro H. unfold checkStatisticsInView.
  destruct (hasAnimated s) eqn:E; [exact H |].
  destruct (negb (statsSection s)); [exact H |].
  destruct isInView; [| exact H].
  apply (@once_trigger Direct s); try reflexivity; assumption.
Qed.

Lemma handle_once (e : event) (s : state) : once s -> once (handle e s).
Proof.
  intro H. destruct e as [entries | | isInView]; unfold handle;
    destruct (how s); try exact H.
  - destruct (observing s); [apply onIntersection_once, H | exact H].
  - unfold handleScroll. destruct (negb (ticking s)); exact H.
  - destruct (ticking s); [| exact H].
    exact (checkStatisticsInView_once isInView H).
Qed.

Lemma fire_once (k : task) (c : Z) (l1 l2 : list (Z * task)) (d : Z) (s : state) :
  once s -> timers s = l1 ++ (d, k) :: l2 ->
  once (fire k (setClock c (l1 ++ l2) s)).
Proof.
  intros H Eq i. specialize (H i). unfold animations, waiting in *.
  rewrite Eq in H. rewrite filter_app in H. simpl in H.
  destruct k as [j | j | j]; cbn [fire record setClock trace timers hasAnimated now];
    cbn [snd taskFor] in H;
    rewrite !filter_app, ?length_app in *; simpl;
    destruct (j =? i)%nat; simpl in *; rewrite ?length_app in *; simpl in *; lia.
Qed.

Lemma advance_once (t : Z) (s : state) : once s -> once (advance t s).
Proof.
  intro H. unfold advance, Clock.advanceTo.
  set (s' := Clock.runDue timers now setClock fire _ t s).
  assert (H' : once s').
  { unfold s'.
    apply (@runDue_inv state task timers now setClock fire t once); [| exact H].
    intros x d k l1 l2 Hx Eq _ _ _. exact (@fire_once k (Z.max (now x) d) l1 l2 d x Hx Eq). }
  exact H'.
Qed.

Lemma run_once (h : list (Z * event)) : forall s, once s -> once (run h s).
Proof.
  induction h as [| [t e] rest IH]; intros s H; simpl; [exact H |].
  apply IH, handle_once, advance_once, H.
Qed.

Lemma init_once (n : nat) (hasObserver section isInView : bool) (t : Z) :
  once (initStatisticsCounters n hasObserver section isInView t).
Proof.
  unfold initStatisticsCounters.
  destruct (0 <? n)%nat; [| intro i; unfold animations, waiting; simpl; lia].
  destruct hasObserver; [intro i; unfold animations, waiting; simpl; lia |].
  apply checkStatisticsInView_once. intro i. unfold animations, waiting. simpl. lia.
Qed.

(** X11.  Each statistics counter is animated at most once: whatever the
    browser (with the observer or with the scroll fallback) and whatever
    entries, scroll events and animation frames follow the set-up,
    [animateCounter] is called at most once for each counter. *)
Theorem counters_start_once (n : nat) (hasObserver section isInView : bool)
    (t0 : Z) (h : list (Z * event)) (i : nat) :
  animations i (run h (initStatisticsCounters n hasObserver section isInView t0)) <= 1.
Proof.
  pose proof (run_once h (init_once n hasObserver section isInView t0) i) as H.
  destruct (hasAnimated _); lia.
Qed.


(** *** The stagger *)

Lemma onIntersection_done (entries : list bool) (s : state) :
  hasAnimated s = true -> onIntersection entries s = s.
Proof.
  intro H. unfold onIntersection. induction entries as [| b l IH]; simpl; [reflexivity |].
  unfold onEntry at 2. rewrite H, andb_false_r. exact IH.
Qed.

Lemma onIntersection_trigger (entries : list bool) (s : state) :
  hasAnimated s = false -> existsb (fun b => b) entries = true ->
  onIntersection entries s = onEntry true s.
Proof.
  intros Hf. unfold onIntersection.
  induction entries as [| b l IH]; simpl; [discriminate |].
  destruct b; simpl.
  - intros _. apply (onIntersection_done l). unfold onEntry. rewrite Hf. reflexivity.
  - unfold onEntry at 2. simpl. exact IH.
Qed.

Lemma In_stagger (mk : nat -> task) (n i : nat) (t : Z) :
  i < n -> In ((t + Z.of_nat i * 200)%Z, mk i) (stagger mk n t).
Proof.
  intro H. unfold stagger. apply in_map_iff. exists i. split; [reflexivity |].
  apply in_seq. lia.
Qed.

Lemma stagger_due (mk : nat -> task) (n : nat) (t : Z) (x : Z * task) :
  In x (stagger mk n t) -> (t <= fst x)%Z.
Proof.
  unfold stagger. intro H. apply in_map_iff in H as (j & <- & _). simpl. lia.
Qed.

Lemma In_rest {A : Type} (x y : A) (l1 l2 : list A) :
  In x (l1 ++ y :: l2) -> x <> y -> In x (l1 ++ l2).
Proof.
  intros H Hn. apply in_app_or in H as [H | [H | H]]; apply in_or_app;
    [left; exact H | congruence | right; exact H].
Qed.

(** The trigger, as the two paths have it. *)
Lemma trigger_state (direct : bool) (e : event) (s : state) :
  hasAnimated s = false -> timers s = [] -> triggers direct e s ->
  hasAnimated (handle e s) = true /\ trace (handle e s) = trace s /\
  now (handle e s) = now s /\
  timers (handle e s)
  = stagger (if direct then Direct else Outer) (statNumbers s) (now s).
Proof.
  intros Hf Ht Tr. destruct direct; unfold triggers in Tr.
  - destruct Tr as (Hm & Hk & Hs & ->). unfold handle. rewrite Hm, Hk.
    unfold checkStatisticsInView. rewrite Hf, Hs. simpl. rewrite Ht. auto.
  - destruct Tr as (Hm & Ho & entries & -> & He). unfold handle. rewrite Hm, Ho.
    rewrite (onIntersection_trigger entries s Hf He). unfold onEntry.
    rewrite Hf. simpl. rewrite Ht. auto.
Qed.

Lemma schedule_step (direct : bool) (t0 t : Z) (i : nat) (x : state) (d : Z) (k : task)
    (l1 l2 : list (Z * task)) :
  onSchedule direct t0 t i x ->
  timers x = l1 ++ (d, k) :: l2 -> (now x <= d)%Z -> (d <= t)%Z ->
  onSchedule direct t0 t i (fire k (setClock (Z.max (now x) d) (l1 ++ l2) x)).
Proof.
  intros H Eq Hn Hd. unfold onSchedule in H. rewrite Eq in H.
  assert (Keep : forall y, In y (l1 ++ (d, k) :: l2) -> y <> (d, k) ->
                           In y (timers (fire k (setClock (Z.max (now x) d) (l1 ++ l2) x)))).
  { intros y Hy Hne. pose proof (In_rest _ _ Hy Hne) as Hr.
    destruct k; cbn [fire record setClock timers now]; try exact Hr.
    apply in_or_app. left. exact Hr. }
  assert (Grow : forall y, In y (trace x) ->
                           In y (trace (fire k (setClock (Z.max (now x) d) (l1 ++ l2) x)))).
  { intros y Hy. destruct k; cbn [fire record setClock trace now];
      repeat (apply in_or_app; left); exact Hy. }
  assert (Now : Z.max (now x) d = d) by lia.
  unfold onSchedule in *. destruct direct.
  - destruct H as [A | [C F]]; [| right; split; [apply Grow, C | exact F]].
    destruct (Z.eq_dec d (t0 + Z.of_nat i * 200)) as [Ed | Ed].
    + destruct k as [j | j | j];
        try (left; apply Keep; [exact A | congruence]).
      destruct (Nat.eq_dec j i) as [-> | Ej];
        [| left; apply Keep; [exact A | congruence]].
      right. split; [| lia]. cbn [fire record setClock trace now].
      rewrite Now, Ed. apply in_or_app. right. left. reflexivity.
    + left. apply Keep; [exact A | congruence].
  - destruct H as [A | [B | [C F]]];
      [| | right; right; split; [apply Grow, C | exact F]].
    + destruct (Z.eq_dec d (t0 + Z.of_nat i * 200)) as [Ed | Ed];
        [| left; apply Keep; [exact A | congruence]].
      destruct k as [j | j | j];
        try (left; apply Keep; [exact A | congruence]).
      destruct (Nat.eq_dec j i) as [-> | Ej];
        [| left; apply Keep; [exact A | congruence]].
      right. left. cbn [fire record setClock timers now].
      rewrite Now, Ed. apply in_or_app. right. left. reflexivity.
    + destruct (Z.eq_dec d (t0 + Z.of_nat i * 200 + 100)) as [Ed | Ed];
        [| right; left; apply Keep; [exact B | congruence]].
      destruct k as [j | j | j];
        try (right; left; apply Keep; [exact B | congruence]).
      destruct (Nat.eq_dec j i) as [-> | Ej];
        [| right; left; apply Keep; [exact B | congruence]].
      right. right. split; [| lia]. cbn [fire record setClock trace now].
      rewrite Now, Ed. apply in_or_app. right. left. reflexivity.
Qed.

(** X12.  The counters start staggered.  After the event that sets them
    off at time [t0], with nothing pending, [animateCounter] is called for
    the counter [i] exactly at [t0 + 200 i + 100] when the observer is used
    (the entrance effect takes the 100 ms) and at [t0 + 200 i] with the
    scroll fallback, and not before. *)
Theorem counters_staggered (direct : bool) (e : event) (s : state) (t : Z) (i : nat) :
  hasAnimated s = false -> timers s = [] -> trace s = [] -> i < statNumbers s ->
  triggers direct e s ->
  ((startOf direct (now s) i <= t)%Z ->
   In (startOf direct (now s) i, Animate i) (trace (advance t (handle e s)))) /\
  ((t < startOf direct (now s) i)%Z -> animations i (advance t (handle e s)) = 0).
Proof.
  intros Hf Ht Htr Hi Tr.
  destruct (trigger_state direct e s Hf Ht Tr) as (Ha & Etr & En & Eti).
  set (s1 := handle e s) in *.
  assert (O1 : once s1).
  { intro j. rewrite Ha. unfold animations, waiting. rewrite Etr, Htr, Eti. simpl.
    apply stagger_waiting. destruct direct; reflexivity. }
  unfold advance, Clock.advanceTo.
  set (s2 := Clock.runDue timers now setClock fire (Clock.load weight (timers s1)) t s1).
  change (trace (setClock (Z.max (now s2) t) (timers s2) s2)) with (trace s2).
  change (animations i (setClock (Z.max (now s2) t) (timers s2) s2))
    with (animations i s2).
  assert (Inv : once s2 /\ (forall y, In y (timers s2) -> (now s2 <= fst y)%Z) /\
                onSchedule direct (now s) t i s2).
  { unfold s2.
    apply (@runDue_inv state task timers now setClock fire t
             (fun x => once x /\ (forall y, In y (timers x) -> (now x <= fst y)%Z) /\
                       onSchedule direct (now s) t i x)).
    - intros x d k l1 l2 (Ox & Nx & Sx) Eq H1 H2 Hd.
      assert (Hn : (now x <= d)%Z).
      { apply (Nx (d, k)). rewrite Eq. apply in_or_app. right. left. reflexivity. }
      split; [exact (@fire_once k (Z.max (now x) d) l1 l2 d x Ox Eq) |].
      split; [| exact (@schedule_step direct (now s) t i x d k l1 l2 Sx Eq Hn Hd)].
      assert (Rest : forall y, In y (l1 ++ l2) -> (Z.max (now x) d <= fst y)%Z).
      { intros y Hy. apply in_app_or in Hy as [Hy | Hy];
          [specialize (H1 y Hy) | specialize (H2 y Hy)]; lia. }
      destruct k as [j | j | j]; cbn [fire record setClock timers now]; try exact Rest.
      intros y Hy. apply in_app_or in Hy as [Hy | [<- | []]]; [exact (Rest y Hy) |].
      simpl. lia.
    - split; [exact O1 |]. split.
      + intros y Hy. rewrite Eti, En in *. exact (stagger_due _ _ _ _ Hy).
      + unfold onSchedule. rewrite Eti.
        destruct direct; left; apply In_stagger; exact Hi. }
  assert (Q : forall x, In x (timers s2) -> (t < fst x)%Z).
  { unfold s2.
    apply (@runDue_quiescent state task timers now setClock fire weight
             counters_fire_load). apply le_n. }
  destruct Inv as (O2 & _ & S2).
  assert (W : forall d k, In (d, k) (timers s2) -> taskFor i k = true ->
                          animations i s2 = 0).
  { intros d k Hin Hk. specialize (O2 i). unfold waiting in O2.
    assert (Hw : In (d, k) (filter (fun x => taskFor i (snd x)) (timers s2)))
      by (apply filter_In; auto).
    destruct (filter (fun x => taskFor i (snd x)) (timers s2)); [destruct Hw |].
    simpl in O2. destruct (hasAnimated s2); lia. }
  unfold onSchedule, startOf in *. destruct direct.
  - destruct S2 as [A | [C F]].
    + pose proof (Q _ A) as B. simpl in B.
      split; [intro; lia | intros _].
      apply (W _ _ A). simpl. apply Nat.eqb_refl.
    + split; [intros _ | intro; lia].
      replace (now s + Z.of_nat i * 200 + 0)%Z with (now s + Z.of_nat i * 200)%Z by lia.
      exact C.
  - destruct S2 as [A | [B | [C F]]].
    + pose proof (Q _ A) as Bd. simpl in Bd.
      split; [intro; lia | intros _].
      apply (W _ _ A). simpl. apply Nat.eqb_refl.
    + pose proof (Q _ B) as Bd. simpl in Bd.
      split; [intro; lia | intros _].
      apply (W _ _ B). simpl. apply Nat.eqb_refl.
    + split; [intros _; exact C | intro; lia].
Qed.

Lemma counters_staggered_witness :
  triggers false (Intersection [false; true]) threeCounters /\
  In (500%Z, Animate 2)
     (trace (advance 500%Z (handle (Intersection [false; true]) threeCounters))) /\
  animations 2 (advance 499%Z (handle (Intersection [false; true]) threeCounters)) = 0.
Proof.
  assert (Tr : triggers false (Intersection [false; true]) threeCounters).
  { split; [reflexivity |]. split; [reflexivity |]. eexists. split; reflexivity. }
  assert (I2 : 2 < statNumbers threeCounters) by (simpl; lia).
  destruct (@counters_staggered false (Intersection [false; true]) threeCounters
              500%Z 2 eq_refl eq_refl eq_refl I2 Tr) as [At _].
  destruct (@counters_staggered false (Intersection [false; true]) threeCounters
              499%Z 2 eq_refl eq_refl eq_refl I2 Tr) as [_ Before].
  split; [exact Tr |].
  split; [apply At; vm_compute; discriminate | apply Before; reflexivity].
Defined.

End CounterFacts.

(** ** The validation of the whole form *)

Section NodeOrigins.

Import FormNotions.

Lemma comesFrom_refl (k : node) : comesFrom k k.
Proof. repeat split. auto. Qed.

Lemma comesFrom_trans (a b c : node) : comesFrom a b -> comesFrom b c -> comesFrom a c.
Proof.
  intros (A1 & A2 & A3 & A4) (B1 & B2 & B3 & B4).
  repeat split; try congruence. auto.
Qed.

Lemma comesFrom_unstyle (k : node) :
  comesFrom k (setClasses (removeTokens errorStyling) k).
Proof.
  destruct k as [j c d kk]. repeat split; [| auto].
  apply (hasClass_unstyle (Node j c d kk) not_styling_error_message).
Qed.

Lemma comesFrom_style (k : node) :
  comesFrom k (setClasses (addTokens errorStyling) k).
Proof.
  destruct k as [j c d kk]. repeat split; [| auto].
  apply (hasClass_style (Node j c d kk) not_styling_error_message).
Qed.

Lemma nodes_children (k x : node) :
  In x (nodes k) -> x = k \/ In x (flat_map nodes (children k)).
Proof. destruct k as [j c d kk]. simpl. intros [H | H]; auto. Qed.

Lemma In_nodes_forest (k x : node) (ks : list node) :
  In k ks -> In x (nodes k) -> In x (flat_map nodes ks).
Proof. intros Hk Hx. apply in_flat_map. exists k. auto. Qed.

(** Relabelling children: every node of the result comes from a node of
    the forest. *)
Lemma updKid_origins (i : nat) (g : node -> node) (ks : list node) :
  (forall k, comesFrom k (g k)) -> (forall k, children (g k) = children k) ->
  forall k', In k' (flat_map nodes (updKid i g ks)) ->
             exists k, In k (flat_map nodes ks) /\ comesFrom k k'.
Proof.
  intros Hg Hc k' H. unfold updKid in H. apply in_flat_map in H as (y & Hy & Hk).
  apply in_map_iff in Hy as (x & <- & Hx).
  destruct (hasId i x).
  - apply nodes_children in Hk as [-> | Hk].
    + exists x. split; [apply (In_nodes_forest x x ks Hx), nodes_self | apply Hg].
    + rewrite Hc in Hk. exists k'. split; [| apply comesFrom_refl].
      apply (In_nodes_forest x k' ks Hx). destruct x as [j c d kk]. right. exact Hk.
  - exists k'. split; [| apply comesFrom_refl]. exact (In_nodes_forest x k' ks Hx Hk).
Qed.

(** Detaching the first selected node. *)
Lemma removeFirstIn_origins (sel : node -> bool) (ks : list node) :
  Forall (fun k => forall k', removeFirstUnder sel k = Some k' ->
                              forall x', In x' (nodes k') ->
                                         exists x, In x (nodes k) /\ comesFrom x x') ks ->
  forall ks', removeFirstIn sel (removeFirstUnder sel) ks = Some ks' ->
              forall x', In x' (flat_map nodes ks') ->
                         exists x, In x (flat_map nodes ks) /\ comesFrom x x'.
Proof.
  induction 1 as [| k ks Hk _ IH]; simpl; intros ks' H x' Hx; [discriminate |].
  destruct (sel k).
  - injection H as <-. exists x'. split; [| apply comesFrom_refl].
    apply in_or_app. right. exact Hx.
  - destruct (removeFirstUnder sel k) as [k' |] eqn:Eu.
    + injection H as <-. simpl in Hx. apply in_app_or in Hx as [Hx | Hx].
      * destruct (Hk k' eq_refl x' Hx) as (x & Hin & R). exists x.
        split; [apply in_or_app; left; exact Hin | exact R].
      * exists x'. split; [apply in_or_app; right; exact Hx | apply comesFrom_refl].
    + destruct (removeFirstIn sel (removeFirstUnder sel) ks) as [r |]; simpl in H;
        [| discriminate].
      injection H as <-. simpl in Hx. apply in_app_or in Hx as [Hx | Hx].
      * exists x'. split; [apply in_or_app; left; exact Hx | apply comesFrom_refl].
      * destruct (IH r eq_refl x' Hx) as (x & Hin & R). exists x.
        split; [apply in_or_app; right; exact Hin | exact R].
Qed.

Lemma removeFirstUnder_origins (sel : node -> bool) (n : node) :
  forall n', removeFirstUnder sel n = Some n' ->
             forall x', In x' (nodes n') -> exists x, In x (nodes n) /\ comesFrom x x'.
Proof.
  induction n as [j c d ks IH] using node_ind'. intros n' H x' Hx. simpl in H.
  destruct (removeFirstIn sel (removeFirstUnder sel) ks) as [ks' |] eqn:E;
    simpl in H; [| discriminate].
  injection H as <-. destruct Hx as [<- | Hx].
  - exists (Node j c d ks). split; [left; reflexivity |].
    repeat split. simpl. intros ->. simpl in E. discriminate.
  - destruct (@removeFirstIn_origins sel ks IH ks' E x' Hx) as (x & Hin & R).
    exists x. split; [right; exact Hin | exact R].
Qed.

Lemma removeFirst_origins (sel : node -> bool) (ks ks' : list node) :
  removeFirst sel ks = Some ks' ->
  forall x', In x' (flat_map nodes ks') ->
             exists x, In x (flat_map nodes ks) /\ comesFrom x x'.
Proof.
  apply removeFirstIn_origins. apply Forall_forall. intros k _.
  apply removeFirstUnder_origins.
Qed.

(** New children for the parent of [i]. *)
Lemma replaceFirst_origins (i : nat) (new : list node) (ks : list node) :
  Forall (fun k => forall k', replaceParentKids i new k = Some k' ->
                              forall x', In x' (nodes k') ->
                                         (exists x, In x (nodes k) /\ comesFrom x x') \/
                                         In x' (flat_map nodes new)) ks ->
  forall ks', replaceFirst (replaceParentKids i new) ks = Some ks' ->
              forall x', In x' (flat_map nodes ks') ->
                         (exists x, In x (flat_map nodes ks) /\ comesFrom x x') \/
                         In x' (flat_map nodes new).
Proof.
  induction 1 as [| k ks Hk _ IH]; simpl; intros ks' H x' Hx; [discriminate |].
  destruct (replaceParentKids i new k) as [k' |] eqn:Er.
  - injection H as <-. simpl in Hx. apply in_app_or in Hx as [Hx | Hx].
    + destruct (Hk k' eq_refl x' Hx) as [(x & Hin & R) | Hn]; [left | right; exact Hn].
      exists x. split; [apply in_or_app; left; exact Hin | exact R].
    + left. exists x'. split; [apply in_or_app; right; exact Hx | apply comesFrom_refl].
  - destruct (replaceFirst (replaceParentKids i new) ks) as [r |]; simpl in H;
      [| discriminate].
    injection H as <-. simpl in Hx. apply in_app_or in Hx as [Hx | Hx].
    + left. exists x'. split; [apply in_or_app; left; exact Hx | apply comesFrom_refl].
    + destruct (IH r eq_refl x' Hx) as [(x & Hin & R) | Hn]; [left | right; exact Hn].
      exists x. split; [apply in_or_app; right; exact Hin | exact R].
Qed.

Lemma replaceParentKids_origins (i : nat) (new : list node) (n : node) :
  forall n', replaceParentKids i new n = Some n' ->
             forall x', In x' (nodes n') ->
                        (exists x, In x (nodes n) /\ comesFrom x x') \/
                        In x' (flat_map nodes new).
Proof.
  induction n as [j c d ks IH] using node_ind'. intros n' H x' Hx. simpl in H.
  destruct (hasKid i ks) eqn:Ek.
  - injection H as <-. destruct Hx as [<- | Hx]; [| right; exact Hx].
    left. exists (Node j c d ks). split; [left; reflexivity |].
    repeat split. simpl. intros ->. discriminate.
  - destruct (replaceFirst (replaceParentKids i new) ks) as [ks' |] eqn:E;
      simpl in H; [| discriminate].
    injection H as <-. destruct Hx as [<- | Hx].
    + left. exists (Node j c d ks). split; [left; reflexivity |].
      repeat split. simpl. intros ->. simpl in E. discriminate.
    + destruct (@replaceFirst_origins i new ks IH ks' E x' Hx) as [(x & Hin & R) | Hn];
        [left | right; exact Hn].
      exists x. split; [right; exact Hin | exact R].
Qed.

Lemma setParentKids_origins (i : nat) (new ks : list node) (n : node) :
  parentKids i n = Some ks ->
  forall x', In x' (descendants (setParentKids i new n)) ->
             (exists x, In x (descendants n) /\ comesFrom x x') \/
             In x' (flat_map nodes new).
Proof.
  intros Hp x' Hx. destruct (replaceParentKids_spec i n new) as [_ Hs].
  destruct (Hs _ Hp) as (n' & Er & _). unfold setParentKids in Hx.
  rewrite Er in Hx. destruct n as [j c d kids]. simpl in Er.
  destruct (hasKid i kids).
  - injection Er as <-. right. exact Hx.
  - destruct (replaceFirst (replaceParentKids i new) kids) as [kids' |] eqn:E;
      simpl in Er; [| discriminate].
    injection Er as <-. unfold descendants in *. simpl in *.
    apply (@replaceFirst_origins i new kids) with (ks' := kids'); [| exact E | exact Hx].
    apply Forall_forall. intros k _. apply replaceParentKids_origins.
Qed.

End NodeOrigins.

Section ValidateFieldSteps.

Import FormNotions.

Lemma parentKids_forest (i : nat) (n : node) (ks : list node) (x : node) :
  parentKids i n = Some ks -> In x (flat_map nodes ks) -> In x (descendants n).
Proof.
  intros Hp Hx. apply in_flat_map in Hx as (k & Hk & Hx).
  pose proof (@parentKids_descendants i n ks k Hp Hk) as Hd.
  rewrite descendants_nodes in Hx. destruct Hx as [<- | Hx]; [exact Hd |].
  apply descendants_trans with k; [| exact Hx].
  rewrite descendants_nodes. right. exact Hd.
Qed.

Lemma clearFieldError_origins (i : nat) (ks : list node) :
  forall x', In x' (flat_map nodes (clearFieldError i ks)) ->
             exists x, In x (flat_map nodes ks) /\ comesFrom x x'.
Proof.
  intros x' Hx. unfold clearFieldError in Hx.
  set (ks1 := updKid i (setClasses (removeTokens errorStyling)) ks) in *.
  assert (H1 : forall y', In y' (flat_map nodes ks1) ->
                          exists y, In y (flat_map nodes ks) /\ comesFrom y y').
  { apply updKid_origins; [apply comesFrom_unstyle | apply children_setClasses]. }
  destruct (removeFirst isErrorMessage ks1) as [ks2 |] eqn:Er; [| exact (H1 x' Hx)].
  destruct (@removeFirst_origins isErrorMessage ks1 ks2 Er x' Hx) as (y' & Hy & R).
  destruct (H1 y' Hy) as (y & Hin & R'). exists y. split; [exact Hin |].
  exact (comesFrom_trans R' R).
Qed.

Lemma showFieldError_origins (i fresh : nat) (msg : string) (ks : list node) :
  forall x', In x' (flat_map nodes (showFieldError i fresh msg ks)) ->
             (exists x, In x (flat_map nodes ks) /\ comesFrom x x') \/
             x' = errorElement fresh msg.
Proof.
  intros x' Hx. unfold showFieldError in Hx. rewrite flat_map_app in Hx.
  apply in_app_or in Hx as [Hx | Hx].
  - left. revert x' Hx.
    apply updKid_origins; [apply comesFrom_style | apply children_setClasses].
  - right. simpl in Hx. destruct Hx as [<- | []]. reflexivity.
Qed.

(** Every element of the form after [validateField] comes from an element
    of the form before, or is the error element just made. *)
Lemma validateField_origins (j : nat) (s : page) :
  nextId s <= nextId (snd (validateField j s)) /\
  forall x', In x' (descendants (form (snd (validateField j s)))) ->
             (exists x, In x (descendants (form s)) /\ comesFrom x x') \/
             (exists msg, x' = errorElement (nextId s) msg /\
                          nextId (snd (validateField j s)) = S (nextId s)).
Proof.
  unfold validateField.
  destruct (parentKids j (form s)) as [ks |] eqn:Hp;
    [| split; [apply le_n | intros x' Hx; left; exists x'; split;
                            [exact Hx | apply comesFrom_refl]]].
  destruct (fieldOf j ks) as [f |];
    [| split; [apply le_n | intros x' Hx; left; exists x'; split;
                            [exact Hx | apply comesFrom_refl]]].
  assert (Clear : forall x', In x' (flat_map nodes (clearFieldError j ks)) ->
                             exists x, In x (descendants (form s)) /\ comesFrom x x').
  { intros x' Hx. destruct (clearFieldError_origins j ks x' Hx) as (x & Hin & R).
    exists x. split; [exact (@parentKids_forest j (form s) ks x Hp Hin) | exact R]. }
  destruct (isValid (fieldResult f)); [| destruct (hasKid j (clearFieldError j ks))];
    cbn [snd form nextId setForm newId].
  - split; [apply le_n |]. intros x' Hx.
    destruct (@setParentKids_origins j _ ks (form s) Hp x' Hx) as [H | H]; [left; exact H |].
    left. exact (Clear x' H).
  - split; [lia |]. intros x' Hx.
    destruct (@setParentKids_origins j _ ks (form s) Hp x' Hx) as [H | H]; [left; exact H |].
    destruct (@showFieldError_origins _ _ _ _ x' H) as [(y & Hy & R) | ->].
    + left. destruct (Clear y Hy) as (x & Hin & R'). exists x.
      split; [exact Hin | exact (comesFrom_trans R' R)].
    + right. eexists. split; reflexivity.
  - split; [apply le_n |]. intros x' Hx.
    destruct (@setParentKids_origins j _ ks (form s) Hp x' Hx) as [H | H]; [left; exact H |].
    left. exact (Clear x' H).
Qed.

Lemma isControl_payload (k k' : node) :
  payloadOf k' = payloadOf k -> isControl k' = isControl k.
Proof. unfold isControl. intros ->. reflexivity. Qed.

(** The shape of the error messages and the bound on the identities are
    kept. *)
Lemma validateField_shape (j : nat) (s : page) :
  leafMessages (children (form s)) ->
  (forall k, In k (descendants (form s)) -> nodeId k < nextId s) ->
  leafMessages (children (form (snd (validateField j s)))) /\
  (forall k, In k (descendants (form (snd (validateField j s)))) ->
             nodeId k < nextId (snd (validateField j s))).
Proof.
  intros L B. destruct (validateField_origins j s) as [Hn Ho]. split.
  - intros x' Hx Hm. destruct (Ho x' Hx) as [(x & Hin & (_ & Rp & Rm & Rc)) | (msg & -> & _)].
    + rewrite Rm in Hm. destruct (L x Hin Hm) as [Hc Hk].
      split; [exact (Rc Hc) | rewrite (@isControl_payload x x' Rp); exact Hk].
    + split; reflexivity.
  - intros x' Hx. destruct (Ho x' Hx) as [(x & Hin & (Ri & _)) | (msg & -> & En)].
    + rewrite Ri. specialize (B x Hin). lia.
    + rewrite En. simpl. lia.
Qed.

End ValidateFieldSteps.

Section ExactCounts.

Import FormNotions.

Variable sel : node -> bool.
Hypothesis sel_shallow : shallow sel.

Lemma updKid_count_at (i : nat) (g : node -> node) (ks : list node) :
  (forall k, children (g k) = children k) ->
  (forall k, hasId i k = true -> sel (g k) = sel k) ->
  countIn sel (updKid i g ks) = countIn sel ks.
Proof.
  intros Hc Hs. unfold updKid. induction ks as [| k ks IH]; [reflexivity |].
  simpl map. rewrite !(countIn_cons sel), IH.
  destruct (hasId i k) eqn:E; [| reflexivity].
  unfold count1. rewrite Hc, (Hs k E). reflexivity.
Qed.

Variable q : node -> bool.

(** When the nodes that [q] selects are childless and not selected by
    [sel], detaching the first of them keeps the count. *)
Lemma removeFirstIn_count_eq (ks : list node) :
  Forall (fun k =>
            (forall x, In x (nodes k) -> q x = true -> children x = [] /\ sel x = false) ->
            forall k', removeFirstUnder q k = Some k' ->
                       countIn sel [k'] = countIn sel [k]) ks ->
  (forall x, In x (flat_map nodes ks) -> q x = true -> children x = [] /\ sel x = false) ->
  forall ks', removeFirstIn q (removeFirstUnder q) ks = Some ks' ->
              countIn sel ks' = countIn sel ks.
Proof.
  induction 1 as [| k ks Hk _ IH]; simpl; intros Cl ks' H; [discriminate |].
  assert (Clk : forall x, In x (nodes k) -> q x = true -> children x = [] /\ sel x = false).
  { intros x Hx. apply Cl. apply in_or_app. left. exact Hx. }
  assert (Clr : forall x, In x (flat_map nodes ks) -> q x = true ->
                          children x = [] /\ sel x = false).
  { intros x Hx. apply Cl. apply in_or_app. right. exact Hx. }
  destruct (q k) eqn:Eq.
  - injection H as <-. destruct (Clk k (nodes_self k) Eq) as [Hc Hs].
    rewrite (countIn_cons sel k ks). unfold count1. rewrite Hs, Hc, countIn_nil.
    reflexivity.
  - destruct (removeFirstUnder q k) as [k' |] eqn:Eu.
    + injection H as <-. change (k' :: ks) with ([k'] ++ ks).
      change (k :: ks) with ([k] ++ ks). rewrite !countIn_app.
      rewrite (Hk Clk k' eq_refl). reflexivity.
    + destruct (removeFirstIn q (removeFirstUnder q) ks) as [r |]; simpl in H;
        [| discriminate].
      injection H as <-. change (k :: r) with ([k] ++ r).
      change (k :: ks) with ([k] ++ ks). rewrite !countIn_app.
      rewrite (IH Clr r eq_refl). reflexivity.
Qed.

Lemma removeFirstUnder_count_eq (n : node) :
  (forall x, In x (nodes n) -> q x = true -> children x = [] /\ sel x = false) ->
  forall n', removeFirstUnder q n = Some n' -> countIn sel [n'] = countIn sel [n].
Proof.
  induction n as [j c d ks IH] using node_ind'. intros Cl n' H. simpl in H.
  destruct (removeFirstIn q (removeFirstUnder q) ks) as [ks' |] eqn:E;
    simpl in H; [| discriminate].
  injection H as <-. rewrite !(countIn_node sel). simpl.
  rewrite (count1_shallow sel_shallow j c d ks' ks). f_equal.
  apply (removeFirstIn_count_eq IH); [| exact E].
  intros x Hx. apply Cl. right. exact Hx.
Qed.

Lemma removeFirst_count_eq (ks ks' : list node) :
  (forall x, In x (flat_map nodes ks) -> q x = true -> children x = [] /\ sel x = false) ->
  removeFirst q ks = Some ks' -> countIn sel ks' = countIn sel ks.
Proof.
  intros Cl H. apply (@removeFirstIn_count_eq ks); [| exact Cl | exact H].
  apply Forall_forall. intros k _. apply removeFirstUnder_count_eq.
Qed.

End ExactCounts.

Section ValidateFieldCounts.

Import FormNotions.

Lemma isErrorMessage_errorElement (i : nat) (msg : string) :
  isErrorMessage (errorElement i msg) = true.
Proof. reflexivity. Qed.

Variable sel : node -> bool.
Hypothesis sel_shallow : shallow sel.

Lemma clearFieldError_count_eq (j : nat) (ks : list node) :
  ignores j sel -> (forall k, isErrorMessage k = true -> sel k = false) ->
  leafMessages ks ->
  countIn sel (clearFieldError j ks) = countIn sel ks.
Proof.
  intros Ig Hm L. unfold clearFieldError.
  set (ks1 := updKid j (setClasses (removeTokens errorStyling)) ks).
  assert (E1 : countIn sel ks1 = countIn sel ks).
  { apply updKid_count_at; [apply children_setClasses |].
    intros k Hk. apply (Ig k Hk). }
  destruct (removeFirst isErrorMessage ks1) as [ks2 |] eqn:Er; [| exact E1].
  rewrite <- E1. apply (removeFirst_count_eq sel_shallow isErrorMessage ks1); [| exact Er].
  intros x' Hx Hq. split; [| exact (Hm x' Hq)].
  destruct (@updKid_origins j (setClasses (removeTokens errorStyling)) ks
              comesFrom_unstyle (children_setClasses _) x' Hx) as (x & Hin & (_ & _ & Rm & Rc)).
  rewrite Rm in Hq. apply Rc. apply (L x Hin Hq).
Qed.

Lemma showFieldError_count_eq (j fresh : nat) (msg : string) (ks : list node) :
  ignores j sel -> (forall k, isErrorMessage k = true -> sel k = false) ->
  countIn sel (showFieldError j fresh msg ks) = countIn sel ks.
Proof.
  intros Ig Hm. unfold showFieldError. rewrite countIn_app, (countIn_node sel).
  unfold count1. rewrite (Hm _ (isErrorMessage_errorElement fresh msg)).
  change (children (errorElement fresh msg)) with (@nil node). rewrite countIn_nil.
  rewrite updKid_count_at; [lia | apply children_setClasses |].
  intros k Hk. apply (Ig k Hk).
Qed.

(** [validateField] on the control [j] keeps the number of the elements
    that [sel] selects, when [sel] selects no error message and does not
    see the error styling of [j]. *)
Lemma validateField_count_eq (j : nat) (s : page) :
  ignores j sel -> (forall k, isErrorMessage k = true -> sel k = false) ->
  leafMessages (children (form s)) ->
  countIn sel (children (form (snd (validateField j s))))
  = countIn sel (children (form s)).
Proof.
  intros Ig Hm L. unfold validateField.
  destruct (parentKids j (form s)) as [ks |] eqn:Hp; [| reflexivity].
  destruct (fieldOf j ks) as [f |]; [| reflexivity].
  assert (Lk : leafMessages ks).
  { intros x Hx. apply L. exact (@parentKids_forest j (form s) ks x Hp Hx). }
  pose proof (@clearFieldError_count_eq j ks Ig Hm Lk) as Ec.
  destruct (isValid (fieldResult f)); [| destruct (hasKid j (clearFieldError j ks))];
    cbn [snd form setForm newId].
  - pose proof (@setParentKids_count sel sel_shallow j (clearFieldError j ks) ks
                  (form s) Hp). lia.
  - pose proof (@setParentKids_count sel sel_shallow j
                  (showFieldError j (nextId s) (errorMessage (fieldResult f))
                     (clearFieldError j ks)) ks (form s) Hp) as H.
    rewrite (@showFieldError_count_eq j (nextId s) _ _ Ig Hm) in H. lia.
  - pose proof (@setParentKids_count sel sel_shallow j (clearFieldError j ks) ks
                  (form s) Hp). lia.
Qed.

End ValidateFieldCounts.

Section DistinctIds.

Import FormNotions.

Lemma countIn_hasId (i : nat) (ks : list node) :
  countIn (hasId i) ks = count_occ Nat.eq_dec (map nodeId (flat_map nodes ks)) i.
Proof.
  unfold countIn. induction (flat_map nodes ks) as [| k l IH]; simpl; [reflexivity |].
  unfold hasId at 1. destruct (Nat.eq_dec (nodeId k) i) as [E | E].
  - apply Nat.eqb_eq in E. rewrite E. simpl. rewrite IH. reflexivity.
  - apply Nat.eqb_neq in E. rewrite E. exact IH.
Qed.

Lemma distinct_ids_count (n : node) :
  NoDup (map nodeId (descendants n)) <->
  forall i, countIn (hasId i) (children n) <= 1.
Proof.
  rewrite (NoDup_count_occ Nat.eq_dec). unfold descendants.
  split; intros H i; specialize (H i); rewrite countIn_hasId in *; exact H.
Qed.

(** Two selected nodes of a forest that holds at most one are one. *)
Lemma count_unique (sel : node -> bool) (ks : list node) (a b : node) :
  countIn sel ks <= 1 -> In a (flat_map nodes ks) -> In b (flat_map nodes ks) ->
  sel a = true -> sel b = true -> a = b.
Proof.
  unfold countIn. intros H Ha Hb Sa Sb.
  assert (Fa : In a (filter sel (flat_map nodes ks))) by (apply filter_In; auto).
  assert (Fb : In b (filter sel (flat_map nodes ks))) by (apply filter_In; auto).
  destruct (filter sel (flat_map nodes ks)) as [| x [| y l]]; simpl in *.
  - destruct Fa.
  - destruct Fa as [<- | []]. destruct Fb as [<- | []]. reflexivity.
  - lia.
Qed.

Lemma count_positive (sel : node -> bool) (ks : list node) (a : node) :
  In a (flat_map nodes ks) -> sel a = true -> 1 <= countIn sel ks.
Proof.
  unfold countIn. intros Ha Sa.
  assert (Fa : In a (filter sel (flat_map nodes ks))) by (apply filter_In; auto).
  destruct (filter sel (flat_map nodes ks)); [destruct Fa | simpl; lia].
Qed.

Lemma count_witness (sel : node -> bool) (ks : list node) :
  1 <= countIn sel ks -> exists a, In a (flat_map nodes ks) /\ sel a = true.
Proof.
  unfold countIn. intro H.
  destruct (filter sel (flat_map nodes ks)) as [| a l] eqn:E; [simpl in H; lia |].
  assert (Fa : In a (filter sel (flat_map nodes ks))) by (rewrite E; left; reflexivity).
  apply filter_In in Fa. exists a. exact Fa.
Qed.

Lemma count_sub (sel sel' : node -> bool) (ks : list node) :
  (forall k, sel k = true -> sel' k = true) -> countIn sel ks <= countIn sel' ks.
Proof.
  intro H. unfold countIn. induction (flat_map nodes ks) as [| k l IH]; simpl; [lia |].
  destruct (sel k) eqn:E.
  - rewrite (H k E). simpl. lia.
  - destruct (sel' k); simpl; lia.
Qed.

(** An element that is attached has a parent. *)
Lemma parentKids_exists (n : node) :
  forall k, In k (descendants n) -> exists ks, parentKids (nodeId k) n = Some ks.
Proof.
  induction n as [j c d kids IH] using node_ind'. intros k Hk.
  unfold descendants in Hk. simpl in Hk. simpl.
  destruct (hasKid (nodeId k) kids) eqn:Ek; [eauto |].
  apply in_flat_map in Hk as (x & Hx & Hkx).
  rewrite descendants_nodes in Hkx. destruct Hkx as [<- | Hkx].
  - exfalso. assert (hasKid (nodeId x) kids = true); [| congruence].
    apply hasKid_In. exists x. auto.
  - rewrite Forall_forall in IH. destruct (IH x Hx k Hkx) as (ks & Hp).
    destruct (firstSome (parentKids (nodeId k)) kids) as [r |] eqn:Ef; [eauto |].
    rewrite firstSome_none in Ef. rewrite (Ef x Hx) in Hp. discriminate.
Qed.

Lemma isControlOf_facts (i : nat) (f : field) (k : node) :
  isControlOf i f k = true <->
  nodeId k = i /\ isErrorMessage k = false /\ payloadOf k = PField f.
Proof.
  unfold isControlOf, holdsField, hasId. rewrite !andb_true_iff, Nat.eqb_eq, negb_true_iff.
  destruct (payloadOf k) as [f' | |]; try (split; [intros (_ & H) | intros (_ & _ & H)];
                                            discriminate).
  destruct (field_eq_dec f' f) as [-> | Hn]; [tauto |].
  split; [intros (_ & H); discriminate | intros (_ & _ & H)]. congruence.
Qed.

(** With distinct identities, the one control [i] is the one that
    [validateField] works on. *)
Lemma control_found (i : nat) (f : field) (s : page) :
  (forall j, countIn (hasId j) (children (form s)) <= 1) ->
  1 <= countIn (isControlOf i f) (children (form s)) ->
  controlAt i f s.
Proof.
  intros U C. destruct (@count_witness _ _ C) as (k0 & Hin & Hs).
  apply isControlOf_facts in Hs as (Hid & Hm & Hpay).
  destruct (parentKids_exists (form s) k0 Hin) as (ks & Hp). rewrite Hid in Hp.
  assert (Same : forall k, In k ks -> nodeId k = i -> k = k0).
  { intros k Hk Ek. apply (count_unique (hasId i) (children (form s)) k k0 (U i)).
    - exact (@parentKids_descendants i (form s) ks k Hp Hk).
    - exact Hin.
    - unfold hasId. apply Nat.eqb_eq. exact Ek.
    - unfold hasId. apply Nat.eqb_eq. exact Hid. }
  exists ks. split; [exact Hp |]. split.
  - unfold fieldOf. destruct (find (hasId i) ks) as [k |] eqn:Ef.
    + apply find_some in Ef as [Hk Ek]. unfold hasId in Ek. apply Nat.eqb_eq in Ek.
      rewrite (Same k Hk Ek). destruct k0 as [j c d kk]. simpl in Hpay. subst d.
      reflexivity.
    + exfalso. destruct (@parentKids_found i (form s) ks Hp) as [Hh _].
      apply hasKid_In in Hh as (k & Hk & Ek).
      apply (find_none _ _ Ef) in Hk. unfold hasId in Hk.
      apply Nat.eqb_neq in Hk. congruence.
  - apply forallb_forall. intros k Hk. apply negb_true_iff.
    destruct (hasId i k) eqn:Ek; [| reflexivity]. simpl.
    unfold hasId in Ek. apply Nat.eqb_eq in Ek. rewrite (Same k Hk Ek). exact Hm.
Qed.

End DistinctIds.

Section WellFormedForms.

Import FormNotions.

Lemma hasId_setClasses (i : nat) (g : list string -> list string) (k : node) :
  hasId i (setClasses g k) = hasId i k.
Proof. unfold hasId. rewrite nodeId_setClasses. reflexivity. Qed.

(** [validateField] adds no element with the identity [i], the new error
    element apart. *)
Lemma validateField_id_count (i j : nat) (s : page) :
  countIn (hasId i) (children (form (snd (validateField j s))))
  <= countIn (hasId i) (children (form s)) + (if (nextId s =? i)%nat then 1 else 0).
Proof.
  unfold validateField.
  destruct (parentKids j (form s)) as [ks |] eqn:Hp; [| simpl; lia].
  destruct (fieldOf j ks) as [f |]; [| simpl; lia].
  pose proof (@clearFieldError_count (hasId i) (hasId_shallow i)
                (hasId_setClasses i (removeTokens errorStyling)) j ks) as Hc.
  destruct (isValid (fieldResult f)); [| destruct (hasKid j (clearFieldError j ks))];
    cbn [snd form setForm newId].
  - pose proof (@setParentKids_count (hasId i) (hasId_shallow i) j
                  (clearFieldError j ks) ks (form s) Hp). lia.
  - pose proof (@setParentKids_count (hasId i) (hasId_shallow i) j
                  (showFieldError j (nextId s) (errorMessage (fieldResult f))
                     (clearFieldError j ks)) ks (form s) Hp) as H.
    assert (Es : countIn (hasId i)
                   (showFieldError j (nextId s) (errorMessage (fieldResult f))
                      (clearFieldError j ks))
                 = countIn (hasId i) (clearFieldError j ks)
                   + (if (nextId s =? i)%nat then 1 else 0)).
    { unfold showFieldError. rewrite countIn_app, (countIn_node (hasId i)).
      change (children (errorElement (nextId s) (errorMessage (fieldResult f))))
        with (@nil node).
      rewrite countIn_nil.
      rewrite (updKid_count (hasId i) j (setClasses (addTokens errorStyling))
                 (clearFieldError j ks) (children_setClasses _)
                 (hasId_setClasses i (addTokens errorStyling))).
      unfold count1.
      change (hasId i (errorElement (nextId s) (errorMessage (fieldResult f))))
        with (nextId s =? i)%nat.
      lia. }
    rewrite Es in H.
    destruct (nextId s =? i)%nat; lia.
  - pose proof (@setParentKids_count (hasId i) (hasId_shallow i) j
                  (clearFieldError j ks) ks (form s) Hp). lia.
Qed.

Lemma bounded_count_zero (i : nat) (s : page) :
  (forall k, In k (descendants (form s)) -> nodeId k < nextId s) ->
  nextId s <= i -> countIn (hasId i) (children (form s)) = 0.
Proof.
  intros B Hi. apply countIn_zero. intros k Hk. specialize (B k Hk).
  unfold hasId. apply Nat.eqb_neq. lia.
Qed.

(** The forms the script is written for stay such under [validateField]. *)
Lemma validateField_wellFormed (j : nat) (s : page) :
  wellFormed s -> wellFormed (snd (validateField j s)).
Proof.
  intros (D & B & L). destruct (validateField_shape j s L B) as [L' B'].
  split; [| split; [exact B' | exact L']].
  apply distinct_ids_count. intro i.
  pose proof (validateField_id_count i j s) as H.
  destruct (nextId s =? i)%nat eqn:E.
  - apply Nat.eqb_eq in E. rewrite (@bounded_count_zero i s B) in H by lia. exact H.
  - pose proof (proj1 (distinct_ids_count (form s)) D i). lia.
Qed.

End WellFormedForms.

Section ValidateEveryField.

Import FormNotions.

Lemma isControlOf_shallow (i : nat) (f : field) : shallow (isControlOf i f).
Proof. intros j c d ks ks'. reflexivity. Qed.

Lemma isMarkedControl_shallow (i : nat) (f : field) (b : bool) :
  shallow (isMarkedControl i f b).
Proof. intros j c d ks ks'. reflexivity. Qed.

Lemma isControlOf_restyle (i : nat) (f : field) (g : list string -> list string)
    (k : node) :
  isErrorMessage (setClasses g k) = isErrorMessage k ->
  isControlOf i f (setClasses g k) = isControlOf i f k.
Proof.
  intro H. unfold isControlOf, holdsField. rewrite H, hasId_setClasses.
  destruct k; reflexivity.
Qed.

Lemma isControlOf_ignores (i j : nat) (f : field) : ignores j (isControlOf i f).
Proof.
  intros k _. split; apply isControlOf_restyle.
  - apply isErrorMessage_setClasses_unstyle.
  - apply isErrorMessage_setClasses_style.
Qed.

Lemma isControlOf_message (i : nat) (f : field) (k : node) :
  isErrorMessage k = true -> isControlOf i f k = false.
Proof.
  intro H. unfold isControlOf. rewrite H, andb_false_r. reflexivity.
Qed.

Lemma isMarkedControl_ignores (i j : nat) (f : field) (b : bool) :
  j <> i -> ignores j (isMarkedControl i f b).
Proof.
  intros Hn k Hk. unfold isMarkedControl, isControlOf.
  rewrite !hasId_setClasses.
  assert (E : hasId i k = false).
  { unfold hasId in *. apply Nat.eqb_eq in Hk. apply Nat.eqb_neq. congruence. }
  rewrite E. split; reflexivity.
Qed.

Lemma isMarkedControl_message (i : nat) (f : field) (b : bool) (k : node) :
  isErrorMessage k = true -> isMarkedControl i f b k = false.
Proof.
  intro H. unfold isMarkedControl. rewrite (@isControlOf_message i f k H). reflexivity.
Qed.

Lemma styled_error (k : node) :
  isErrorStyled (setClasses (addTokens errorStyling) k) = true.
Proof.
  unfold isErrorStyled. apply hasClass_In. rewrite classes_setClasses, In_addTokens.
  right. left. reflexivity.
Qed.

(** [validateField] on a control of a well-formed form returns what
    [fieldResult] says and leaves the control styled accordingly. *)
Lemma validate_control (i : nat) (f : field) (s : page) :
  wellFormed s ->
  1 <= countIn (isControlOf i f) (children (form s)) ->
  fst (validateField i s) = Some (isValid (fieldResult f)) /\
  countIn (isMarkedControl i f (negb (isValid (fieldResult f))))
    (children (form (snd (validateField i s)))) = 1.
Proof.
  intros W C. pose proof (@validateField_wellFormed i s W) as W'.
  destruct W as (D & B & L). destruct W' as (D' & _ & _).
  pose proof (proj1 (distinct_ids_count (form s)) D) as U.
  pose proof (proj1 (distinct_ids_count _) D') as U'.
  assert (C' : 1 <= countIn (isControlOf i f)
                      (children (form (snd (validateField i s))))).
  { rewrite (@validateField_count_eq (isControlOf i f) (isControlOf_shallow i f) i s
               (isControlOf_ignores i i f) (isControlOf_message i f) L).
    exact C. }
  destruct (@control_found i f s U C) as (ks & Hp & Hf & F).
  assert (Hk : hasKid i ks = true) by (apply (@parentKids_found i (form s) ks Hp)).
  pose proof (clearFieldError_hasKid i ks Hk F) as Hc.
  assert (Marked : exists k'', In k'' (descendants (form (snd (validateField i s)))) /\
                               nodeId k'' = i /\
                               isErrorStyled k'' = negb (isValid (fieldResult f)) /\
                               fst (validateField i s) = Some (isValid (fieldResult f))).
  { unfold validateField. rewrite Hp, Hf, Hc.
    destruct (isValid (fieldResult f)); cbn [fst snd form setForm newId negb].
    - apply hasKid_In in Hc as (k'' & Hin & Hid). exists k''.
      split; [| split; [exact Hid | split; [| reflexivity]]].
      + apply (@parentKids_descendants i _ (clearFieldError i ks)); [| exact Hin].
        apply (parentKids_setParentKids i _ (form s) Hp).
        apply hasKid_In. exists k''. auto.
      + apply (@clearFieldError_unstyled i ks k'' Hin Hid).
    - pose proof Hc as Hc2. apply hasKid_In in Hc2 as (y & Hin & Hid).
      exists (setClasses (addTokens errorStyling) y).
      split; [| split; [rewrite nodeId_setClasses; exact Hid |
                        split; [apply styled_error | reflexivity]]].
      apply (@parentKids_descendants i _
               (showFieldError i (nextId s) (errorMessage (fieldResult f))
                  (clearFieldError i ks))).
      + apply (parentKids_setParentKids i _ (form s) Hp).
        apply showFieldError_hasKid. exact Hc.
      + unfold showFieldError. apply in_or_app. left. unfold updKid.
        apply in_map_iff. exists y. split; [| exact Hin].
        unfold hasId. rewrite Hid, Nat.eqb_refl. reflexivity. }
  destruct Marked as (k'' & Hin & Hid & Hst & Hret). split; [exact Hret |].
  destruct (@count_witness _ _ C') as (k' & Hin' & Hs').
  assert (E : k' = k'').
  { apply (@count_unique (hasId i) _ k' k'' (U' i)); try assumption.
    - apply isControlOf_facts in Hs' as (Hid' & _). unfold hasId.
      apply Nat.eqb_eq. exact Hid'.
    - unfold hasId. apply Nat.eqb_eq. exact Hid. }
  subst k''. apply Nat.le_antisymm.
  - etransitivity; [| exact (U' i)]. apply count_sub. intros k H.
    unfold isMarkedControl, isControlOf in H.
    apply andb_prop in H as [H _]. apply andb_prop in H as [H _].
    apply andb_prop in H as [H _]. exact H.
  - apply (@count_positive _ _ k' Hin'). unfold isMarkedControl.
    rewrite Hs', Hst. destruct (isValid (fieldResult f)); reflexivity.
Qed.


Lemma validateEach_all (cs : list node) :
  forall acc s,
    wellFormed s -> NoDup (map nodeId cs) ->
    (forall k, In k cs ->
               exists f, payloadOf k = PField f /\
                         1 <= countIn (isControlOf (nodeId k) f) (children (form s))) ->
    exists s',
      validateEach (map nodeId cs) acc s = (Some (acc && forallb passes cs), s') /\
      wellFormed s' /\
      (forall sel, shallow sel ->
                   (forall k, isErrorMessage k = true -> sel k = false) ->
                   (forall k, In k cs -> ignores (nodeId k) sel) ->
                   countIn sel (children (form s')) = countIn sel (children (form s))) /\
      (forall k f, In k cs -> payloadOf k = PField f ->
                   countIn (isMarkedControl (nodeId k) f (negb (passes k)))
                     (children (form s')) = 1).
Proof.
  induction cs as [| k r IH]; intros acc s W D C.
  - exists s. simpl. rewrite andb_true_r.
    split; [reflexivity |]. split; [exact W |].
    split; [intros; reflexivity | intros k0 f0 []].
  - apply NoDup_cons_iff in D as [Dk Dr]. simpl map in *.
    destruct (C k (or_introl eq_refl)) as (f & Hpay & Ck).
    destruct (@validate_control (nodeId k) f s W Ck) as [Hret Hmark].
    pose proof (@validateField_wellFormed (nodeId k) s W) as W1.
    assert (L : leafMessages (children (form s))) by apply W.
    assert (Frame1 : forall sel, shallow sel ->
                       (forall x, isErrorMessage x = true -> sel x = false) ->
                       ignores (nodeId k) sel ->
                       countIn sel (children (form (snd (validateField (nodeId k) s))))
                       = countIn sel (children (form s))).
    { intros sel Sh Hm Ig.
      exact (@validateField_count_eq sel Sh (nodeId k) s Ig Hm L). }
    simpl validateEach. unfold bind.
    destruct (validateField (nodeId k) s) as [[ok |] s1] eqn:Ev;
      cbn [fst snd] in *; [| discriminate].
    injection Hret as ->.
    assert (Pk : passes k = isValid (fieldResult f)) by (unfold passes; rewrite Hpay; reflexivity).
    destruct (IH (if negb (isValid (fieldResult f)) then false else acc) s1 W1 Dr)
      as (s' & Hr & W' & Frame & Marks).
    { intros k2 H2. destruct (C k2 (or_intror H2)) as (f2 & Hp2 & C2).
      exists f2. split; [exact Hp2 |].
      rewrite (Frame1 _ (isControlOf_shallow (nodeId k2) f2)
                 (isControlOf_message (nodeId k2) f2)
                 (isControlOf_ignores (nodeId k2) (nodeId k) f2)).
      exact C2. }
    exists s'. split; [| split; [exact W' | split]].
    + rewrite Hr. simpl forallb. rewrite Pk.
      destruct (isValid (fieldResult f)); simpl; [reflexivity |].
      rewrite andb_false_r. reflexivity.
    + intros sel Sh Hm Ig.
      rewrite (Frame sel Sh Hm (fun x Hx => Ig x (or_intror Hx))).
      exact (Frame1 sel Sh Hm (Ig k (or_introl eq_refl))).
    + intros x fx [<- | Hx] Hpx.
      * rewrite Hpay in Hpx. injection Hpx as <-. rewrite Pk.
        rewrite (Frame _ (isMarkedControl_shallow (nodeId k) f _)
                   (isMarkedControl_message (nodeId k) f _)).
        -- exact Hmark.
        -- intros k2 H2. apply isMarkedControl_ignores. intro E.
           apply Dk. rewrite <- E. apply in_map. exact H2.
      * exact (Marks x fx Hx Hpx).
Qed.

Lemma NoDup_map_filter {A B : Type} (g : A -> B) (p : A -> bool) (l : list A) :
  NoDup (map g l) -> NoDup (map g (filter p l)).
Proof.
  induction l as [| x l IH]; simpl; intro H; [constructor |].
  apply NoDup_cons_iff in H as [Hx Hl]. destruct (p x); [| exact (IH Hl)].
  simpl. constructor; [| exact (IH Hl)].
  intro Hin. apply Hx. apply in_map_iff in Hin as (y & Ey & Hy).
  apply in_map_iff. exists y. split; [exact Ey |]. apply filter_In in Hy. tauto.
Qed.

(** [validateForm] on a well-formed form: what it returns, the form it
    leaves, what it leaves untouched, and the styling of each control. *)
Lemma validateForm_all (s : page) :
  wellFormed s ->
  exists s',
    validateForm s
    = (Some (forallb passes (querySelectorAll isControl (form s))), s') /\
    wellFormed s' /\
    (forall sel, shallow sel ->
                 (forall k, isErrorMessage k = true -> sel k = false) ->
                 (forall k, In k (querySelectorAll isControl (form s)) ->
                            ignores (nodeId k) sel) ->
                 countIn sel (children (form s')) = countIn sel (children (form s))) /\
    (forall k f, In k (querySelectorAll isControl (form s)) -> payloadOf k = PField f ->
                 countIn (isMarkedControl (nodeId k) f (negb (passes k)))
                   (children (form s')) = 1).
Proof.
  intro W. pose proof W as (D & B & L).
  apply (@validateEach_all (querySelectorAll isControl (form s)) true s W).
  - apply NoDup_map_filter. exact D.
  - intros k Hk. apply filter_In in Hk as [Hin Hc].
    unfold isControl in Hc. destruct (payloadOf k) as [f | |] eqn:Ep; try discriminate.
    exists f. split; [reflexivity |].
    apply (@count_positive _ _ k Hin). apply isControlOf_facts.
    split; [reflexivity |]. split; [| exact Ep].
    destruct (isErrorMessage k) eqn:Em; [| reflexivity].
    destruct (L k Hin Em) as [_ Hn]. unfold isControl in Hn. rewrite Ep in Hn.
    discriminate.
Qed.

(** X13.  On a form whose elements are distinct and whose error messages
    are childless elements that are no controls, [validateForm] does not
    throw and checks every control: it returns [true] exactly when every
    control passes on its own, a failing control does not keep the later
    ones from being checked, and afterwards each control is attached with
    the value it had and is styled as invalid exactly when it fails.  The
    form it leaves is of the same kind. *)
Theorem validateForm_checks_every_field (s : page) :
  wellFormed s ->
  exists s',
    validateForm s
    = (Some (forallb passes (querySelectorAll isControl (form s))), s') /\
    wellFormed s' /\
    forall k, In k (querySelectorAll isControl (form s)) ->
              exists k', In k' (querySelectorAll isControl (form s')) /\
                         nodeId k' = nodeId k /\ payloadOf k' = payloadOf k /\
                         isErrorStyled k' = negb (passes k).
Proof.
  intro W. destruct (@validateForm_all s W) as (s' & Hr & W' & _ & Marks).
  exists s'. split; [exact Hr |]. split; [exact W' |].
  intros k Hk. pose proof Hk as Hk'. apply filter_In in Hk' as [_ Hc].
  unfold isControl in Hc. destruct (payloadOf k) as [f | |] eqn:Ep; try discriminate.
  pose proof (Marks k f Hk Ep) as M.
  destruct (@count_witness _ _ (Nat.eq_le_incl _ _ (eq_sym M))) as (k' & Hin' & Hs').
  unfold isMarkedControl in Hs'. apply andb_prop in Hs' as [Hs' Hst].
  apply isControlOf_facts in Hs' as (Hid & _ & Hp').
  exists k'. split; [| split; [exact Hid | split; [exact Hp' |]]].
  - apply filter_In. split; [exact Hin' |]. unfold isControl. rewrite Hp'. reflexivity.
  - apply Bool.eqb_prop in Hst. exact Hst.
Qed.

End ValidateEveryField.

Section ValidateFormSamples.

Import FormNotions.

Lemma scenarioPage_wellFormed : wellFormed scenarioPage.
Proof.
  split; [| split].
  - simpl. repeat constructor; simpl; intuition discriminate.
  - intros k Hk. simpl in Hk.
    repeat (destruct Hk as [<- | Hk]; [simpl; lia |]). destruct Hk.
  - intros k Hk Hm. simpl in Hk.
    repeat (destruct Hk as [<- | Hk]; [discriminate |]). destruct Hk.
Qed.

Lemma validateForm_checks_every_field_witness :
  wellFormed scenarioPage /\
  exists s',
    validateForm scenarioPage = (Some false, s') /\ wellFormed s' /\
    exists k', In k' (querySelectorAll isControl (form s')) /\ nodeId k' = 6 /\
               isErrorStyled k' = true.
Proof.
  pose proof scenarioPage_wellFormed as W.
  destruct (validateForm_checks_every_field W) as (s' & E & W' & Marks).
  split; [exact W |]. exists s'. split; [exact E |]. split; [exact W' |].
  destruct (Marks (Node 6 [] (PField (Sample.messageArea (ustr "short") true)) []))
    as (k' & Hin & Hid & _ & Hst).
  - simpl. auto.
  - exists k'. split; [exact Hin |]. split; [exact Hid | exact Hst].
Defined.

End ValidateFormSamples.


(** ** A submission that does not validate *)

Section SubmitBlocked.

Import FormNotions.

Lemma sameLabel_shallow (k0 : node) : shallow (sameLabel k0).
Proof. intros i c d ks ks'. reflexivity. Qed.

Lemma sameLabel_facts (k0 k : node) :
  sameLabel k0 k = true <->
  nodeId k = nodeId k0 /\ classes k = classes k0 /\ payloadOf k = payloadOf k0.
Proof.
  unfold sameLabel, hasId. rewrite !andb_true_iff, Nat.eqb_eq.
  destruct (list_eq_dec string_dec (classes k) (classes k0)) as [Ec | Ec];
    destruct (payload_eq_dec (payloadOf k) (payloadOf k0)) as [Ep | Ep];
    split; try tauto; intros [[_ H1] H2]; discriminate.
Qed.

Lemma sameLabel_refl (k : node) : sameLabel k k = true.
Proof. apply sameLabel_facts. auto. Qed.

Lemma sameLabel_message (k0 k : node) :
  isErrorMessage k0 = false -> isErrorMessage k = true -> sameLabel k0 k = false.
Proof.
  intros H0 H. destruct (sameLabel k0 k) eqn:E; [| reflexivity].
  apply sameLabel_facts in E as (_ & Ec & _).
  unfold isErrorMessage, hasClass in *. rewrite Ec in H. congruence.
Qed.

Lemma sameLabel_ignores (k0 : node) (j : nat) :
  j <> nodeId k0 -> ignores j (sameLabel k0).
Proof.
  intros Hn k Hk. unfold sameLabel. rewrite !hasId_setClasses.
  assert (E : hasId (nodeId k0) k = false).
  { unfold hasId in *. apply Nat.eqb_eq in Hk. apply Nat.eqb_neq. congruence. }
  rewrite E. split; reflexivity.
Qed.

(** X14.  A submission of a well-formed form with a failing control goes
    no further than the validation: the listener returns without
    throwing and sets no timer, and the elements of the form that are
    neither controls nor error messages (the submit button with its
    state and label among them) are the same before and after, with the
    same classes and state. *)
Theorem invalid_submit_blocked (s : page) :
  wellFormed s ->
  forallb passes (querySelectorAll isControl (form s)) = false ->
  exists s',
    onSubmit s = (Some tt, s') /\ timers s' = timers s /\ now s' = now s /\
    (forall k, isControl k = false -> isErrorMessage k = false ->
               (In k (descendants (form s)) ->
                exists k', In k' (descendants (form s')) /\ nodeId k' = nodeId k /\
                           classes k' = classes k /\ payloadOf k' = payloadOf k) /\
               (In k (descendants (form s')) ->
                exists k', In k' (descendants (form s)) /\ nodeId k' = nodeId k /\
                           classes k' = classes k /\ payloadOf k' = payloadOf k)).
Proof.
  intros W Hf. destruct (@validateForm_all s W) as (s' & Hr & W' & Frame & Marks).
  pose proof (validateForm_frame s) as [Ht Hn].
  rewrite Hf in Hr. rewrite Hr in Ht, Hn. cbn [snd] in Ht, Hn.
  exists s'. split; [| split; [exact Ht | split; [exact Hn |]]].
  { unfold onSubmit, bind. rewrite Hr. reflexivity. }
  destruct W as (D & _ & _). destruct W' as (D' & _ & _).
  pose proof (proj1 (distinct_ids_count (form s)) D) as U.
  pose proof (proj1 (distinct_ids_count (form s')) D') as U'.
  intros k Hc Hm.
  assert (Same : (forall c, In c (querySelectorAll isControl (form s)) ->
                            nodeId c <> nodeId k) ->
                 countIn (sameLabel k) (children (form s'))
                 = countIn (sameLabel k) (children (form s))).
  { intro Hd. apply (Frame (sameLabel k) (sameLabel_shallow k)).
    - intros x Hx. apply sameLabel_message; assumption.
    - intros c Hin. apply sameLabel_ignores. apply Hd. exact Hin. }
  split; intro Hk.
  - assert (C : 1 <= countIn (sameLabel k) (children (form s'))).
    { rewrite Same.
      - apply (@count_positive _ _ k Hk). apply sameLabel_refl.
      - intros c Hin E. apply filter_In in Hin as [Hin Hcc].
        assert (c = k).
        { apply (@count_unique (hasId (nodeId k)) _ c k (U (nodeId k)) Hin Hk);
            unfold hasId; apply Nat.eqb_eq; [exact E | reflexivity]. }
        subst c. congruence. }
    destruct (@count_witness _ _ C) as (k' & Hin' & Hs').
    apply sameLabel_facts in Hs'. exists k'. tauto.
  - assert (C : 1 <= countIn (sameLabel k) (children (form s))).
    { rewrite <- Same.
      - apply (@count_positive _ _ k Hk). apply sameLabel_refl.
      - intros c Hin E. pose proof Hin as Hin0. apply filter_In in Hin0 as [_ Hcc].
        unfold isControl in Hcc.
        destruct (payloadOf c) as [f | |] eqn:Ep; try discriminate.
        pose proof (Marks c f Hin Ep) as M.
        destruct (@count_witness _ _ (Nat.eq_le_incl _ _ (eq_sym M)))
          as (c' & Hin' & Hs').
        unfold isMarkedControl in Hs'. apply andb_prop in Hs' as [Hs' _].
        apply isControlOf_facts in Hs' as (Hid & _ & Hp').
        assert (c' = k).
        { apply (@count_unique (hasId (nodeId k)) _ c' k (U' (nodeId k)) Hin' Hk);
            unfold hasId; apply Nat.eqb_eq; [congruence | reflexivity]. }
        subst c'. unfold isControl in Hc. rewrite Hp' in Hc. discriminate. }
    destruct (@count_witness _ _ C) as (k' & Hin' & Hs').
    apply sameLabel_facts in Hs'. exists k'. tauto.
Qed.

Lemma invalid_submit_blocked_witness :
  wellFormed scenarioPage /\
  exists s',
    onSubmit scenarioPage = (Some tt, s') /\ timers s' = [] /\
    exists b, In b (descendants (form s')) /\ nodeId b = 7 /\
              payloadOf b = PButton "submit" false "Nachricht senden".
Proof.
  pose proof scenarioPage_wellFormed as W.
  destruct (@invalid_submit_blocked scenarioPage W eq_refl)
    as (s' & E & Ht & _ & Keeps).
  split; [exact W |]. exists s'. split; [exact E |]. split; [exact Ht |].
  destruct (Keeps (Node 7 [] (PButton "submit" false "Nachricht senden") [])
              eq_refl eq_refl) as [Fwd _].
  destruct Fwd as (b & Hin & Hid & _ & Hp).
  - simpl. tauto.
  - exists b. split; [exact Hin |]. split; [exact Hid | exact Hp].
Defined.

End SubmitBlocked.


(** ** The listeners of the controls *)

Section LiveValidation.

Import FormNotions.

Lemma nodeById_found (n k : node) :
  NoDup (map nodeId (descendants n)) -> In k (descendants n) ->
  nodeById (nodeId k) n = Some k.
Proof.
  intros D Hk. pose proof (proj1 (distinct_ids_count n) D (nodeId k)) as U.
  unfold nodeById. destruct (find (hasId (nodeId k)) (descendants n)) as [x |] eqn:E.
  - apply find_some in E as [Hx Hi]. f_equal.
    apply (@count_unique (hasId (nodeId k)) _ x k U Hx Hk Hi).
    unfold hasId. apply Nat.eqb_refl.
  - pose proof (find_none _ _ E k Hk) as H. unfold hasId in H.
    rewrite Nat.eqb_refl in H. discriminate.
Qed.

(** [validateField] on a control of a well-formed form leaves the control
    in place, styled as invalid exactly when it fails. *)
Lemma validateField_marks (s : page) (k : node) :
  wellFormed s -> In k (querySelectorAll isControl (form s)) ->
  exists k', In k' (querySelectorAll isControl (form (snd (validateField (nodeId k) s)))) /\
             nodeId k' = nodeId k /\ payloadOf k' = payloadOf k /\
             isErrorStyled k' = negb (passes k).
Proof.
  intros W Hk. pose proof W as (D & B & L).
  apply filter_In in Hk as [Hin Hc]. unfold isControl in Hc.
  destruct (payloadOf k) as [f | |] eqn:Ep; try discriminate.
  assert (C : 1 <= countIn (isControlOf (nodeId k) f) (children (form s))).
  { apply (@count_positive _ _ k Hin). apply isControlOf_facts.
    split; [reflexivity |]. split; [| exact Ep].
    destruct (isErrorMessage k) eqn:Em; [| reflexivity].
    destruct (L k Hin Em) as [_ Hn]. unfold isControl in Hn. rewrite Ep in Hn.
    discriminate. }
  destruct (@validate_control (nodeId k) f s W C) as [_ M].
  destruct (@count_witness _ _ (Nat.eq_le_incl _ _ (eq_sym M))) as (k' & Hin' & Hs').
  unfold isMarkedControl in Hs'. apply andb_prop in Hs' as [Hs' Hst].
  apply isControlOf_facts in Hs' as (Hid & _ & Hp').
  exists k'. split; [| split; [exact Hid | split; [exact Hp' |]]].
  - apply filter_In. split; [exact Hin' |]. unfold isControl. rewrite Hp'. reflexivity.
  - apply Bool.eqb_prop in Hst. unfold passes. rewrite Ep. exact Hst.
Qed.

(** X15.  The listeners of a control of a well-formed form: leaving the
    control validates it; typing validates it when it is styled as
    invalid and does nothing at all otherwise; a change validates a
    checkbox and nothing else.  In each case the control stays in the
    form with its value, styled as invalid as [marked] says, and the form
    stays well-formed. *)
Theorem live_validation (s : page) (k : node) (e : event) :
  wellFormed s -> In k (querySelectorAll isControl (form s)) ->
  onControl (nodeId k) e = true ->
  wellFormed (handle e s) /\
  (exists k', In k' (querySelectorAll isControl (form (handle e s))) /\
              nodeId k' = nodeId k /\ payloadOf k' = payloadOf k /\
              isErrorStyled k' = marked e k) /\
  (e = InputEv (nodeId k) -> isErrorStyled k = false -> handle e s = s).
Proof.
  intros W Hk He. pose proof W as (D & _ & _).
  pose proof Hk as Hk0. apply filter_In in Hk0 as [Hin Hc].
  pose proof (@nodeById_found (form s) k D Hin) as Hf.
  pose proof (@validateField_marks s k W Hk) as V.
  pose proof (@validateField_wellFormed (nodeId k) s W) as W1.
  assert (Same : exists k', In k' (querySelectorAll isControl (form s)) /\
                            nodeId k' = nodeId k /\ payloadOf k' = payloadOf k /\
                            isErrorStyled k' = isErrorStyled k).
  { exists k. auto. }
  destruct e as [| j | j | j | j g]; simpl in He; try discriminate;
    apply Nat.eqb_eq in He; subst j; cbn [handle marked].
  - split; [exact W1 |]. split; [exact V | intros; discriminate].
  - rewrite Hf. destruct (isErrorStyled k) eqn:Es; cbn [andb].
    + split; [exact W1 |]. split; [exact V | intros; discriminate].
    + split; [exact W |]. split; [exact Same | reflexivity].
  - rewrite Hf. unfold isControl in Hc. destruct k as [i c d ks].
    cbn [payloadOf] in *. destruct d as [f | |]; try discriminate.
    destruct (fieldType f =? "checkbox")%string.
    + split; [exact W1 |]. split; [exact V | intros; discriminate].
    + split; [exact W |]. split; [exact Same | intros; discriminate].
Qed.

Lemma live_validation_witness :
  wellFormed scenarioPage /\
  exists k', In k' (querySelectorAll isControl (form (handle (Blur 4) scenarioPage))) /\
             nodeId k' = 4 /\ isErrorStyled k' = false.
Proof.
  pose proof scenarioPage_wellFormed as W. split; [exact W |].
  destruct (@live_validation scenarioPage
              (Node 4 [] (PField (Sample.textInput "email" "email" "a@b.com" true)) [])
              (Blur 4) W) as (_ & (k' & Hin & Hid & _ & Hst) & _).
  - simpl. tauto.
  - reflexivity.
  - exists k'. split; [exact Hin |]. split; [exact Hid | exact Hst].
Defined.

End LiveValidation.


(** ** handleFormError *)

Section FormError.

Import FormNotions.

Lemma filter_map_same {A : Type} (sel : A -> bool) (h : A -> A) (l : list A) :
  (forall x, sel (h x) = sel x) -> filter sel (map h l) = map h (filter sel l).
Proof.
  intro H. induction l as [| x l IH]; simpl; [reflexivity |].
  rewrite H. destruct (sel x); simpl; rewrite IH; reflexivity.
Qed.

Lemma setButton_label (b : nat) (dis : bool) (h : string) (k : node) :
  (forall ty d0 h0, payloadOf k <> PButton ty d0 h0) ->
  labelOf (mapNodes (fun k => if hasId b k then setPayload (buttonUpdate dis h) k
                              else k) k)
  = labelOf k.
Proof.
  intro Hb. destruct k as [j c d kk]. unfold labelOf. simpl.
  destruct (hasId b (Node j c d kk)); [| reflexivity].
  destruct d as [f | ty d0 h0 |]; try reflexivity.
  exfalso. exact (Hb ty d0 h0 eq_refl).
Qed.

Lemma setButton_classes (b : nat) (dis : bool) (h : string) (k : node) :
  classes (mapNodes (fun k => if hasId b k then setPayload (buttonUpdate dis h) k
                              else k) k)
  = classes k.
Proof.
  destruct k as [j c d kk]. simpl. destruct (hasId b (Node j c d kk)); reflexivity.
Qed.

(** X16.  [handleFormError] on a form that shows no form message keeps
    what the user entered: the controls of the form are the same, in the
    same order, with the same classes, values and ticks (nothing is
    reset, no error styling is cleared).  The form then shows the error
    banner and nothing else of that kind, and one timer is added, for
    the removal of the banner 8000 ms later. *)
Theorem handleFormError_keeps_input (b : nat) (h msg : string) (s : page) :
  countIn isFormMessage (children (form s)) = 0 ->
  map labelOf (querySelectorAll isControl (form (handleFormError b h msg s)))
  = map labelOf (querySelectorAll isControl (form s)) /\
  querySelectorAll isFormMessage (form (handleFormError b h msg s))
  = [errorBanner (nextId s) msg] /\
  timers (handleFormError b h msg s)
  = timers s ++ [((now s + 8000)%Z, RemoveMessage (nextId s))].
Proof.
  intro H0. unfold handleFormError.
  rewrite (removeExistingMessage_same _ H0).
  cbn [form timers now setTimeout setTimers newId setForm nextId].
  split; [| split; [| reflexivity]].
  - unfold setButton, querySelectorAll. rewrite descendants_mapDescendants.
    rewrite filter_map_same.
    + rewrite map_map.
      assert (E : filter isControl
                    (descendants (insertFirst (errorBanner (nextId s) msg) (form s)))
                  = filter isControl (descendants (form s))).
      { destruct (form s) as [j c d kids]. reflexivity. }
      rewrite E. apply map_ext_in. intros k Hk. apply filter_In in Hk as [_ Hc].
      apply setButton_label. intros ty d0 h0 Ep. unfold isControl in Hc.
      rewrite Ep in Hc. discriminate.
    + intro k. unfold isControl. destruct k as [j c d kk]. simpl.
      destruct (hasId b (Node j c d kk)); [| reflexivity]. destruct d; reflexivity.
  - unfold setButton, querySelectorAll. rewrite descendants_mapDescendants.
    rewrite filter_map_same.
    + assert (E : filter isFormMessage
                    (descendants (insertFirst (errorBanner (nextId s) msg) (form s)))
                  = [errorBanner (nextId s) msg]).
      { pose proof (filter_nil_count isFormMessage (form s) H0) as Hn.
        unfold querySelectorAll in Hn.
        destruct (form s) as [j c d kids]. unfold descendants in *. simpl in *.
        rewrite Hn. reflexivity. }
      rewrite E. unfold errorBanner. cbn [map mapNodes].
      destruct (hasId b _); reflexivity.
    + intro k. unfold isFormMessage, hasClass. rewrite setButton_classes. reflexivity.
Qed.

Lemma handleFormError_keeps_input_witness :
  countIn isFormMessage (children (form scenarioPage)) = 0 /\
  map payloadOf
    (querySelectorAll isControl (form (handleFormError 7 "Nachricht senden" "x" scenarioPage)))
  = map payloadOf (querySelectorAll isControl (form scenarioPage)).
Proof.
  split; [reflexivity |].
  destruct (@handleFormError_keeps_input 7 "Nachricht senden" "x" scenarioPage eq_refl)
    as (E & _).
  apply (f_equal (map snd)) in E. rewrite !map_map in E. exact E.
Defined.

End FormError.


(** ** The field validator on the remaining kinds of input *)

Section TrimFacts.

Lemma trimStart_app_whitespace (a v : jsstring) :
  forallb isWhiteSpace a = true -> trimStart (a ++ v) = trimStart v.
Proof.
  induction a as [| c a IH]; simpl; [reflexivity |].
  intro H. apply andb_prop in H as [Hc Ha]. rewrite Hc. exact (IH Ha).
Qed.

Lemma trimStart_app (v b : jsstring) :
  trimStart v <> [] -> trimStart (v ++ b) = trimStart v ++ b.
Proof.
  induction v as [| c v IH]; simpl; [congruence |].
  destruct (isWhiteSpace c); [exact IH | reflexivity].
Qed.

Lemma trimEnd_app_whitespace (v b : jsstring) :
  forallb isWhiteSpace b = true -> trimEnd (v ++ b) = trimEnd v.
Proof.
  intro H. unfold trimEnd. rewrite rev_app_distr, trimStart_app_whitespace;
    [reflexivity |].
  rewrite forallb_forall in *. intros x Hx. apply H. apply in_rev. exact Hx.
Qed.

Lemma trimStart_all_whitespace (v : jsstring) :
  trimStart v = [] -> forallb isWhiteSpace v = true.
Proof.
  induction v as [| c v IH]; simpl; [reflexivity |].
  destruct (isWhiteSpace c); [exact IH | discriminate].
Qed.

(** [trim] does not see white space around a string. *)
Lemma trim_padding (a v b : jsstring) :
  forallb isWhiteSpace a = true -> forallb isWhiteSpace b = true ->
  trim (a ++ v ++ b) = trim v.
Proof.
  intros Ha Hb. unfold trim. rewrite trimStart_app_whitespace by exact Ha.
  destruct (trimStart v) as [| c r] eqn:E.
  - rewrite trimStart_whitespace; [reflexivity |].
    rewrite forallb_app, (@trimStart_all_whitespace v E), Hb. reflexivity.
  - rewrite trimStart_app by congruence. rewrite E.
    apply trimEnd_app_whitespace. exact Hb.
Qed.

Lemma trim_nil_whitespace (v : jsstring) :
  forallb isWhiteSpace v = true -> trim v = [].
Proof. intro H. unfold trim. rewrite trimStart_whitespace by exact H. reflexivity. Qed.

End TrimFacts.

Section ValidatorMore.

Import ValidatorNotions.

Lemma fieldResult_texts (f : field) :
  isValid (fieldResult f) = false -> In (errorMessage (fieldResult f)) allMessages.
Proof.
  unfold fieldResult, requiredCheck, typeCheck, lengthCheck, requiredMessage, allMessages.
  repeat match goal with
         | |- context [if ?c then _ else _] => destruct c
         end;
    cbn [isValid errorMessage]; intro H; try discriminate H;
    simpl; tauto.
Qed.

Lemma fieldResult_silent (f : field) :
  isValid (fieldResult f) = true -> errorMessage (fieldResult f) = "".
Proof.
  unfold fieldResult, requiredCheck, typeCheck, lengthCheck.
  repeat match goal with
         | |- context [if ?c then _ else _] => destruct c
         end;
    cbn [isValid errorMessage]; intro H; try discriminate H; reflexivity.
Qed.

(** X17.  White space around a value makes no difference to the
    validator: the control with the padded value gets the same verdict
    and the same text. *)
Theorem fieldResult_padding (f : field) (a b : jsstring) :
  forallb isWhiteSpace a = true -> forallb isWhiteSpace b = true ->
  fieldResult (withValue (a ++ value f ++ b) f) = fieldResult f.
Proof.
  intros Ha Hb.
  assert (E : trimmedValue (withValue (a ++ value f ++ b) f) = trimmedValue f).
  { unfold trimmedValue, withValue. cbn [value].
    rewrite trim_padding by assumption.
    destruct (value f) as [| c v] eqn:Ev.
    - rewrite app_nil_l.
      destruct (truthy (a ++ b)); [| reflexivity].
      apply trim_nil_whitespace. reflexivity.
    - replace (truthy (a ++ (c :: v) ++ b)) with true; [reflexivity |].
      destruct a; reflexivity. }
  unfold fieldResult, requiredCheck, typeCheck, lengthCheck. rewrite E.
  reflexivity.
Qed.

Lemma fieldResult_padding_witness :
  fieldResult (withValue (ustr "  " ++ value Sample.badName ++ ustr " ") Sample.badName)
  = fieldResult Sample.badName.
Proof. apply fieldResult_padding; reflexivity. Defined.

Variable s : page.
Variable i : nat.
Variable f : field.
Hypothesis attached : controlAt i f s.

(** X18.  An optional control that is left empty, or holds white space
    only, is accepted whatever its type: the patterns for addresses,
    phone numbers and names and the length of the message are checked on
    non-empty values only. *)
Theorem validateField_optional_blank :
  required f = false -> forallb isWhiteSpace (value f) = true -> accepts i s.
Proof.
  intros Hr Hw. apply (validateField_valid attached).
  unfold fieldResult, requiredCheck.
  rewrite Hr, (trimmedValue_whitespace f Hw), andb_false_r. reflexivity.
Qed.

(** X19.  A control that is no address, phone number or checkbox and is
    not named [name] or [message] is checked for presence only: it is
    accepted exactly when it is optional or holds more than white space,
    and reported with the text for a required field otherwise. *)
Theorem validateField_presence_only :
  fieldType f <> "email" -> fieldType f <> "tel" -> fieldType f <> "checkbox" ->
  name f <> "name" -> name f <> "message" ->
  (accepts i s <-> required f = false \/ trimmedValue f <> []) /\
  (required f = true -> trimmedValue f = [] ->
   reports i (requiredMessage (name f)) s).
Proof.
  intros He Ht Hc Hn Hm.
  apply String.eqb_neq in He, Ht, Hc, Hn, Hm.
  assert (R : fieldResult f
              = if required f && negb (truthy (trimmedValue f))
                then mkResult false (requiredMessage (name f))
                else mkResult true "").
  { unfold fieldResult, requiredCheck, typeCheck, lengthCheck.
    rewrite He, Ht, Hc, Hn, Hm, !andb_false_r. cbn [andb].
    destruct (required f && negb (truthy (trimmedValue f))); cbn [isValid].
    - rewrite andb_false_r. reflexivity.
    - destruct (fieldType f =? "text")%string;
        destruct (truthy (trimmedValue f)); reflexivity. }
  assert (Rep : required f = true -> trimmedValue f = [] ->
                reports i (requiredMessage (name f)) s).
  { intros Hr Hv. pose proof (validateField_invalid attached) as V.
    rewrite R, Hr, Hv in V. exact (V eq_refl). }
  split; [| exact Rep]. split.
  - intro A. destruct (required f) eqn:Hr; [| left; reflexivity]. right.
    intro Hv. exact (accepts_not_reports A (Rep eq_refl Hv)).
  - intro H. apply (validateField_valid attached). rewrite R.
    destruct H as [-> | Hv]; [reflexivity |].
    rewrite (truthy_nonempty Hv), andb_false_r. reflexivity.
Qed.

(** X20.  [validateField] on an attached control does not throw and has
    one of two outcomes: it accepts, or it reports with one of its ten
    texts; it never shows an error element without a text. *)
Theorem validateField_outcome :
  accepts i s \/
  exists msg, In msg allMessages /\ msg <> "" /\ reports i msg s.
Proof.
  destruct (isValid (fieldResult f)) eqn:E.
  - left. exact (validateField_valid attached E).
  - right. exists (errorMessage (fieldResult f)).
    pose proof (fieldResult_texts f E) as T.
    split; [exact T |]. split; [| exact (validateField_invalid attached E)].
    unfold allMessages in T. simpl in T.
    intro Z. rewrite Z in T.
    repeat (destruct T as [T | T]; [discriminate T |]). exact T.
Qed.

End ValidatorMore.

Section ValidatorMoreSamples.

Import ValidatorNotions.

Lemma validateField_optional_blank_witness :
  controlAt 2 optionalPhone (Sample.pageWith optionalPhone) /\
  accepts 2 (Sample.pageWith optionalPhone).
Proof.
  split; [apply pageWith_controlAt |].
  apply (@validateField_optional_blank _ _ _ (pageWith_controlAt optionalPhone));
    reflexivity.
Defined.

Lemma validateField_presence_only_witness :
  controlAt 2 cityField (Sample.pageWith cityField) /\
  accepts 2 (Sample.pageWith cityField).
Proof.
  split; [apply pageWith_controlAt |].
  apply (@validateField_presence_only _ _ _ (pageWith_controlAt cityField));
    try discriminate.
  right. discriminate.
Defined.

Lemma validateField_outcome_witness :
  controlAt 2 Sample.blankCity (Sample.pageWith Sample.blankCity) /\
  (accepts 2 (Sample.pageWith Sample.blankCity) \/
   exists msg, In msg allMessages /\ msg <> "" /\
               reports 2 msg (Sample.pageWith Sample.blankCity)).
Proof.
  split; [apply pageWith_controlAt |].
  apply (@validateField_outcome _ _ _ (pageWith_controlAt Sample.blankCity)).
Defined.

End ValidatorMoreSamples.


(** ** The mobile menu *)

Section ListCuts.

Context {A : Type}.
Variable p : A -> bool.

Lemma filter_cut_other (l1 l2 : list A) (x : A) :
  p x = false -> filter p (l1 ++ x :: l2) = filter p (l1 ++ l2).
Proof. intro H. rewrite !filter_app. simpl. rewrite H. reflexivity. Qed.

Lemma filter_cut_one (l1 l2 : list A) (x a : A) :
  p x = true -> filter p (l1 ++ x :: l2) = [a] ->
  x = a /\ filter p (l1 ++ l2) = [].
Proof.
  intros H E. rewrite !filter_app in *. simpl in E. rewrite H in E.
  destruct (filter p l1) as [| y [| z l]]; simpl in E.
  - injection E as -> E. rewrite E. auto.
  - injection E as _ E. discriminate.
  - injection E as _ E. discriminate.
Qed.

Lemma filter_cut_two (l1 l2 : list A) (x a b : A) :
  p x = true -> filter p (l1 ++ x :: l2) = [a; b] ->
  (x = a /\ filter p (l1 ++ l2) = [b]) \/ (x = b /\ In a l1).
Proof.
  intros H E. rewrite !filter_app in *. simpl in E. rewrite H in E.
  destruct (filter p l1) as [| y [| z l]] eqn:E1; simpl in E.
  - injection E as -> E. rewrite E. left. auto.
  - injection E as -> -> E. right. split; [reflexivity |].
    assert (Hin : In a (filter p l1)) by (rewrite E1; left; reflexivity).
    apply filter_In in Hin. tauto.
  - injection E as _ _ E. destruct l; discriminate.
Qed.

Lemma filter_all_false (l : list A) :
  (forall x, In x l -> p x = false) -> filter p l = [].
Proof.
  induction l as [| y l IH]; simpl; intro H; [reflexivity |].
  rewrite (H y (or_introl eq_refl)). apply IH. intros x Hx. apply H. right. exact Hx.
Qed.


End ListCuts.

Section MenuFacts.

Import MobileMenu.

Lemma updItem_length (i : nat) (g : style -> style) (ys : list style) :
  List.length (updItem i g ys) = List.length ys.
Proof.
  revert i. induction ys as [| y ys IH]; intros [| i]; simpl; try reflexivity.
  rewrite IH. reflexivity.
Qed.

Lemma closeMobileMenu_timers (s : state) :
  timers (closeMobileMenu s)
  = timers s ++ [((now s + 100)%Z, ShowIcon false)]
    ++ map (fun i => ((now s + Z.of_nat i * 30)%Z, ItemOut i))
         (seq 0 (List.length (itemStyles s)))
    ++ [((now s + 300)%Z, Hide)].
Proof.
  unfold closeMobileMenu, animateButtonIcon, schedule, scheduleEach. cbn.
  rewrite <- !app_assoc. reflexivity.
Qed.

Lemma openMobileMenu_timers (s : state) :
  timers (openMobileMenu s)
  = timers s ++ [((now s + 100)%Z, ShowIcon true)]
    ++ map (fun i => ((now s + (100 + Z.of_nat i * 50))%Z, ItemIn i))
         (seq 0 (List.length (itemStyles s)))
    ++ [((now s + 400)%Z, Unlock)].
Proof.
  unfold openMobileMenu, animateButtonIcon, schedule, scheduleEach. cbn.
  rewrite length_map, <- !app_assoc. reflexivity.
Qed.

Lemma closeMobileMenu_fields (s : state) :
  hidden (closeMobileMenu s) = hidden s /\
  ariaLabel (closeMobileMenu s) = labelOpen /\
  innerHTML (closeMobileMenu s) = innerHTML s /\
  overflow (closeMobileMenu s) = ""%string /\
  isAnimating (closeMobileMenu s) = isAnimating s /\
  now (closeMobileMenu s) = now s /\
  List.length (itemStyles (closeMobileMenu s)) = List.length (itemStyles s).
Proof. repeat split. Qed.

Lemma openMobileMenu_fields (s : state) :
  hidden (openMobileMenu s) = false /\
  ariaLabel (openMobileMenu s) = labelClose /\
  innerHTML (openMobileMenu s) = innerHTML s /\
  overflow (openMobileMenu s) = "hidden"%string /\
  isAnimating (openMobileMenu s) = isAnimating s /\
  now (openMobileMenu s) = now s /\
  List.length (itemStyles (openMobileMenu s)) = List.length (itemStyles s).
Proof.
  repeat split. unfold openMobileMenu. cbn. apply length_map.
Qed.



Lemma steers_items (mk : nat -> task) (due : nat -> Z) (l : list nat) :
  (forall i, steers (mk i) = false) ->
  filter (fun x => steers (snd x)) (map (fun i => (due i, mk i)) l) = [].
Proof.
  intro H. induction l as [| i l IH]; simpl; [reflexivity |].
  rewrite H. exact IH.
Qed.


(** At rest, time passes without a change to the facts. *)
Lemma advance_idle (t : Z) (s : state) :
  idle s -> (now s <= t)%Z ->
  idle (advance t s) /\ facts (advance t s) = facts s /\ now (advance t s) = t /\
  List.length (itemStyles (advance t s)) = List.length (itemStyles s).
Proof.
  intros I N. unfold advance, Clock.advanceTo.
  set (n := List.length (itemStyles s)).
  set (s' := Clock.runDue timers now setClock fire
               (Clock.load (weight n) (timers s)) t s).
  assert (Inv : idle s' /\ facts s' = facts s /\ (now s' <= t)%Z /\
                List.length (itemStyles s') = n).
  { unfold s'.
    apply (@runDue_inv state task timers now setClock fire t
             (fun x => idle x /\ facts x = facts s /\ (now x <= t)%Z /\
                       List.length (itemStyles x) = n)).
    - intros x d k l1 l2 ((Ia & It) & F & Nx & Lx) Eq H1 H2 Hd.
      assert (Sk : steers k = false).
      { apply (It (d, k)). rewrite Eq. apply in_or_app. right. left. reflexivity. }
      assert (Rest : forall y, In y (l1 ++ l2) -> steers (snd y) = false).
      { intros y Hy. apply It. rewrite Eq.
        apply in_app_or in Hy as [Hy | Hy]; apply in_or_app;
          [left | right; right]; exact Hy. }
      destruct k as [b | i | i | | | i]; try discriminate Sk; cbn [fire].
      + split; [split; [exact Ia | exact Rest] |].
        split; [exact F |]. split; [cbn; lia |]. cbn. rewrite updItem_length. exact Lx.
      + split; [split; [exact Ia | exact Rest] |].
        split; [exact F |]. split; [cbn; lia |]. cbn. rewrite updItem_length. exact Lx.
    - split; [exact I |]. split; [reflexivity |]. split; [exact N | reflexivity]. }
  destruct Inv as ((Ia & It) & F & Nx & Lx).
  split; [split; [exact Ia | exact It] |]. split; [exact F |].
  split; [cbn; lia | exact Lx].
Qed.

(** One timer runs, the first one due: the menu moves on in its phase. *)
Lemma phase_step (t0 : Z) (s : state) (d : Z) (k : task) (l1 l2 : list (Z * task))
    (p : phase) :
  inPhase t0 p s ->
  timers s = l1 ++ (d, k) :: l2 ->
  (forall x, In x l1 -> (d < fst x)%Z) ->
  (forall x, In x l2 -> (d <= fst x)%Z) ->
  exists p', inPhase t0 p' (fire k (setClock (Z.max (now s) d) (l1 ++ l2) s)) /\
             isOpening p' = isOpening p.
Proof.
  intros (Fil & Due & Fld) Eq H1 H2.
  assert (Dmin : forall x, In x (timers s) -> (d <= fst x)%Z).
  { intros x Hx. rewrite Eq in Hx. apply in_app_or in Hx as [Hx | [<- | Hx]].
    - specialize (H1 x Hx). lia.
    - simpl. lia.
    - exact (H2 x Hx). }
  assert (PendIn : forall x, In x (pendingOf t0 p) -> In x (timers s)).
  { intros x Hx. rewrite <- Fil in Hx. apply filter_In in Hx. tauto. }
  assert (Due' : Forall (fun x => (Z.max (now s) d <= fst x)%Z) (pendingOf t0 p)).
  { rewrite Forall_forall in *. intros x Hx. specialize (Due x Hx).
    specialize (Dmin x (PendIn x Hx)). lia. }
  rewrite Eq in Fil.
  destruct (steers k) eqn:Sk.
  - destruct p; cbn [pendingOf] in Fil.
    + (* Opening1 *)
      destruct (@filter_cut_two _ (fun x => steers (snd x)) l1 l2 (d, k) _ _ Sk Fil)
        as [[Ex Rest] | [Ex Hin]].
      * injection Ex as -> ->. exists Opening2. split; [| reflexivity].
        split; [exact Rest |]. split.
        { inversion Due' as [| x l Hx Hl]; subst. exact Hl. }
        cbn in Fld |- *. tauto.
      * injection Ex as -> ->. specialize (H1 _ Hin). simpl in H1. lia.
    + (* Opening2 *)
      destruct (@filter_cut_one _ (fun x => steers (snd x)) l1 l2 (d, k) _ Sk Fil)
        as [Ex Rest].
      injection Ex as -> ->. exists Open. split; [| reflexivity].
      split; [exact Rest |]. split; [constructor |].
      cbn in Fld. destruct Fld as (Eh & El & Eo & Em).
      split; [| reflexivity]. unfold facts. simpl. rewrite Eh, El, Eo, Em. reflexivity.
    + (* Open *)
      rewrite filter_app in Fil. simpl in Fil. rewrite Sk in Fil.
      destruct (filter (fun x => steers (snd x)) l1); discriminate.
    + (* Linking *)
      destruct (@filter_cut_one _ (fun x => steers (snd x)) l1 l2 (d, k) _ Sk Fil)
        as [Ex Rest].
      injection Ex as -> ->. exists (Closing1 (t0 + 150)). split; [| reflexivity].
      assert (Nd : Z.max (now s) (t0 + 150) = (t0 + 150)%Z).
      { inversion Due as [| x l Hx Hl]; subst. simpl in Hx. lia. }
      rewrite Nd. cbn [fire]. split; [| split].
      * rewrite closeMobileMenu_timers. cbn [timers now itemStyles setItems setClock].
        rewrite (filter_app _ (l1 ++ l2)), Rest.
        rewrite !filter_app, steers_items by reflexivity. reflexivity.
      * cbn [pendingOf].
        destruct (closeMobileMenu_fields
                    (setItems (updItem i (setTransform "")
                                 (itemStyles (setClock (t0 + 150) (l1 ++ l2) s)))
                       (setClock (t0 + 150) (l1 ++ l2) s)))
          as (_ & _ & _ & _ & _ & En & _).
        rewrite En. cbn [now setItems setClock].
        repeat constructor; simpl; lia.
      * cbn. repeat split. lia.
    + (* Closing1 *)
      destruct (@filter_cut_two _ (fun x => steers (snd x)) l1 l2 (d, k) _ _ Sk Fil)
        as [[Ex Rest] | [Ex Hin]].
      * injection Ex as -> ->. exists (Closing2 c). split; [| reflexivity].
        split; [exact Rest |]. split.
        { inversion Due' as [| x l Hx Hl]; subst. exact Hl. }
        cbn in Fld |- *. tauto.
      * injection Ex as -> ->. specialize (H1 _ Hin). simpl in H1. lia.
    + (* Closing2 *)
      destruct (@filter_cut_one _ (fun x => steers (snd x)) l1 l2 (d, k) _ Sk Fil)
        as [Ex Rest].
      injection Ex as -> ->. exists Closed. split; [| reflexivity].
      split; [exact Rest |]. split; [constructor |].
      cbn in Fld. destruct Fld as (El & Eo & Em & _).
      split; [| reflexivity]. unfold facts. simpl. rewrite El, Eo, Em. reflexivity.
    + (* Closed *)
      rewrite filter_app in Fil. simpl in Fil. rewrite Sk in Fil.
      destruct (filter (fun x => steers (snd x)) l1); discriminate.
  - (* the timer of a menu item *)
    rewrite (@filter_cut_other _ (fun x => steers (snd x)) l1 l2 (d, k) Sk) in Fil.
    exists p. split; [| reflexivity].
    destruct k as [c | i | i | | | i]; try discriminate Sk; cbn [fire].
    + split; [exact Fil |]. split; [exact Due' |]. destruct p; exact Fld.
    + split; [exact Fil |]. split; [exact Due' |]. destruct p; exact Fld.
Qed.

(** An event that makes the script act, at rest, begins a phase. *)
Lemma handle_phase (e : event) (s : state) :
  idle s -> acts e s = true ->
  inPhase (now s) (firstPhase e s) (handle e s) /\
  isOpening (firstPhase e s) = opens e s /\
  List.length (itemStyles (handle e s)) = List.length (itemStyles s).
Proof.
  intros (Ia & It) Ha.
  assert (F0 : filter (fun x => steers (snd x)) (timers s) = []).
  { apply filter_all_false. exact It. }
  assert (Close : forall x, timers x = timers s -> now x = now s ->
                            List.length (itemStyles x) = List.length (itemStyles s) ->
                            inPhase (now s) (Closing1 (now s)) (closeMobileMenu x) /\
                            List.length (itemStyles (closeMobileMenu x))
                            = List.length (itemStyles s)).
  { intros x Tx Nx Lx.
    destruct (closeMobileMenu_fields x) as (_ & El & _ & Eo & _ & En & Ei).
    split; [| congruence]. split; [| split].
    - rewrite closeMobileMenu_timers, Tx, Nx.
      rewrite !filter_app, F0, steers_items by reflexivity. reflexivity.
    - rewrite En, Nx. cbn [pendingOf]. repeat constructor; simpl; lia.
    - cbn [fieldsOf]. rewrite El, Eo. repeat split. lia. }
  destruct e as [| i | | key | w |]; cbn [acts] in Ha; cbn [handle firstPhase opens].
  - unfold toggleMobileMenu. rewrite Ia. destruct (hidden s) eqn:Hh; cbn [negb].
    + destruct (openMobileMenu_fields (setAnimating true s))
        as (Eh & El & _ & Eo & _ & En & Ei).
      split; [| split; [reflexivity | exact Ei]]. split; [| split].
      * rewrite openMobileMenu_timers. cbn [timers now itemStyles setAnimating].
        rewrite !filter_app, F0, steers_items by reflexivity. reflexivity.
      * rewrite En. cbn [now setAnimating pendingOf]. repeat constructor; simpl; lia.
      * cbn [fieldsOf]. auto.
    + destruct (Close (setAnimating true s) eq_refl eq_refl eq_refl) as [P L].
      split; [exact P |]. split; [reflexivity | exact L].
  - rewrite Ha. split; [| split; [reflexivity | cbn; apply updItem_length]].
    split; [| split].
    + cbn. rewrite filter_app, F0. reflexivity.
    + cbn. repeat constructor; simpl; lia.
    + exact I.
  - unfold closeIfShown. rewrite Ha.
    destruct (Close s eq_refl eq_refl eq_refl) as [P L].
    split; [exact P |]. split; [reflexivity | exact L].
  - apply andb_prop in Ha as [Hk Hh]. rewrite Hk. unfold closeIfShown. rewrite Hh.
    destruct (Close s eq_refl eq_refl eq_refl) as [P L].
    split; [exact P |]. split; [reflexivity | exact L].
  - apply andb_prop in Ha as [Hk Hh]. rewrite Hk. unfold closeIfShown. rewrite Hh.
    destruct (Close s eq_refl eq_refl eq_refl) as [P L].
    split; [exact P |]. split; [reflexivity | exact L].
  - discriminate.
Qed.





Lemma fire_timers_incl (k : task) (c : Z) (q : list (Z * task)) (s : state)
    (y : Z * task) :
  In y q -> In y (timers (fire k (setClock c q s))).
Proof.
  intro H. destruct k as [b | i | i | | | i]; cbn [fire]; try exact H.
  rewrite closeMobileMenu_timers. apply in_or_app. left. exact H.
Qed.

(** While the timer that ends the animation is pending, the animation
    is under way. *)
Lemma advance_locked (t0 t : Z) (b : bool) (p : phase) (s : state) :
  inPhase t0 p s -> In (unlocking b t0) (pendingOf t0 p) -> isAnimating s = true ->
  (t < fst (unlocking b t0))%Z ->
  isAnimating (advance t s) = true.
Proof.
  intros P Hl A Ht. unfold advance, Clock.advanceTo. cbn [isAnimating setClock].
  apply (@runDue_inv state task timers now setClock fire t
           (fun x => isAnimating x = true /\
                     exists p', inPhase t0 p' x /\
                                In (unlocking b t0) (pendingOf t0 p'))).
  - intros x d k l1 l2 (Ax & p1 & P1 & L1) Eq H1 H2 Hd.
    destruct (@phase_step t0 x d k l1 l2 p1 P1 Eq H1 H2) as (p2 & P2 & _).
    pose proof P1 as (Fil1 & _). pose proof P2 as (Fil2 & _).
    assert (Lin : In (unlocking b t0) (timers x)).
    { rewrite <- Fil1 in L1. apply filter_In in L1. tauto. }
    assert (Ls : steers (snd (unlocking b t0)) = true) by (destruct b; reflexivity).
    assert (Ne : unlocking b t0 <> (d, k)).
    { intro E. rewrite E in Ht. simpl in Ht. lia. }
    assert (Own : steers k = true -> In (d, k) (pendingOf t0 p1)).
    { intro Sk. rewrite <- Fil1. apply filter_In. split; [| exact Sk].
      rewrite Eq. apply in_or_app. right. left. reflexivity. }
    split.
    + destruct k as [c | i | i | | | i]; try exact Ax;
        exfalso; specialize (Own eq_refl);
        destruct p1, b; simpl in L1, Own, Ht;
        repeat match goal with
               | H : _ \/ _ |- _ => destruct H
               | H : False |- _ => destruct H
               end;
        try discriminate;
        repeat match goal with
               | H : (_, _) = (_, _) |- _ => inversion H; clear H; subst
               end; lia.
    + exists p2. split; [exact P2 |].
      rewrite <- Fil2. apply filter_In. split; [| exact Ls].
      apply fire_timers_incl.
      rewrite Eq in Lin. apply in_app_or in Lin as [Hin | [Hin | Hin]].
      * apply in_or_app. left. exact Hin.
      * congruence.
      * apply in_or_app. right. exact Hin.
  - split; [exact A |]. exists p. auto.
Qed.

(** X22.  A second click on the button is ignored while the animation
    of the first is under way: after a click at rest that opens the menu,
    for 400 ms; after one that closes it, for 300 ms. *)
Theorem menu_ignores_second_click (s : state) (t0 t1 : Z) :
  idle s -> (now s <= t0)%Z -> (t0 <= t1)%Z ->
  (t1 < t0 + (if hidden s then 400 else 300))%Z ->
  handle ClickButton (advance t1 (handle ClickButton (advance t0 s)))
  = advance t1 (handle ClickButton (advance t0 s)).
Proof.
  intros I N H01 H1.
  destruct (@advance_idle t0 s I N) as (I1 & F1 & N1 & L1).
  set (s1 := advance t0 s) in *.
  pose proof (f_equal (fun x => fst (fst (fst x))) F1) as Eh.
  change (hidden s1 = hidden s) in Eh.
  destruct (@handle_phase ClickButton s1 I1 eq_refl) as (P & _ & _).
  rewrite N1 in P.
  assert (A : isAnimating (handle ClickButton s1) = true).
  { destruct I1 as [Ia _]. cbn [handle]. unfold toggleMobileMenu. rewrite Ia.
    destruct (hidden s1); reflexivity. }
  assert (Lk : In (unlocking (hidden s) t0) (pendingOf t0 (firstPhase ClickButton s1))).
  { cbn [firstPhase]. rewrite Eh, N1. destruct (hidden s); simpl; auto. }
  assert (Ht : (t1 < fst (unlocking (hidden s) t0))%Z).
  { destruct (hidden s); simpl; lia. }
  pose proof (@advance_locked t0 t1 (hidden s) _ _ P Lk A Ht) as A2.
  set (s2 := advance t1 (handle ClickButton s1)) in *.
  cbn [handle]. unfold toggleMobileMenu. rewrite A2. reflexivity.
Qed.

Lemma menu_ignores_second_click_witness :
  idle closedMenu /\
  handle ClickButton (advance 399 (handle ClickButton (advance 0 closedMenu)))
  = advance 399 (handle ClickButton (advance 0 closedMenu)).
Proof.
  assert (I : idle closedMenu) by (split; [reflexivity | intros x []]).
  split; [exact I |].
  apply (@menu_ignores_second_click closedMenu 0%Z 399%Z I); simpl; lia.
Defined.

End MenuFacts.
